(** * libselinux-jni: the JNI bridge of libselinux-android

    A shallow embedding of [library/src/main/jni/libselinux-jni.c].

    The C file is a call bridge: every exported function marshals its
    managed arguments, calls one libselinux function under the interruption
    retry macro, frees what it marshalled, reads [errno] and either returns a
    managed value or throws [android.system.ErrnoException].

    The embedding keeps what the C code can observe or change:
    - [errno], the pending-exception slot of the JNI environment, the managed
      objects created by [NewObject], the native heap, the function-local
      [static] handles and a trace of every call that leaves the file;
    - the outside world (JNI symbol lookup, managed allocation, libselinux)
      as a record of oracles, [Env], so that every statement below holds for
      any behaviour of the runtime and of the native library. *)

From Stdlib Require Import ZArith List Lia Bool.
From Stdlib.Strings Require Import Byte.
From stdpp Require Import gmap strings list.

Local Open Scope Z_scope.

(** ** Constants of the platform headers *)

(** [errno.h] of Linux (asm-generic/errno-base.h). *)
Definition EINTR : Z := 4.
Definition EIO : Z := 5.

(** [jsize] is a signed 32-bit integer. *)
Definition JSIZE_MAX : Z := 2147483647.
Definition to_jsize (z : Z) : Z := (z + 2 ^ 31) mod 2 ^ 32 - 2 ^ 31.

(** ** The outside world *)

(** An argument handed to a libselinux function: a descriptor, or the
    C string the callee reads through a [char *]. *)
Inductive NativeArg :=
| ArgFd (fd : Z)
| ArgStr (s : list byte).

(** What one call of a libselinux function does: its return value, the value
    it stores in [errno] ([None]: [errno] is left alone, which is what C
    library functions do when they succeed) and, for the get functions, the
    context string stored through the out parameter. *)
Record NativeResp := mkResp {
  rc : Z;
  errno_w : option Z;
  out : option (list byte) }.

(** Handles (classes, field and method ids, object references, native
    pointers) are positive numbers; a C [NULL] is [None]. *)
Record Env := mkEnv {
  FindClass : string -> option positive;
  NewGlobalRef : positive -> option positive;
  GetFieldID : positive -> string -> string -> option positive;
  GetMethodID : positive -> string -> string -> option positive;
  (** does the runtime manage to build the string / the array? *)
  NewStringUTF_ok : string -> bool;
  NewByteArray_ok : Z -> bool;
  (** libselinux: function name, arguments, index of the call *)
  native : string -> list NativeArg -> nat -> NativeResp;
  (** contents of memory fresh from [malloc] *)
  junk : byte;
  (** width of [size_t]: 64 bits, or 32 on the 32-bit ABIs *)
  lp64 : bool }.

Definition SIZE_WIDTH (env : Env) : Z := if lp64 env then 64 else 32.
Definition to_size_t (env : Env) (z : Z) : Z := z mod 2 ^ SIZE_WIDTH env.

(** ** Program state *)

(** The places of the file that read [errno]. *)
Inductive ErrnoSite :=
| RetryCondition   (* while (errno == EINTR) *)
| NormalizeTest    (* enforce == -1 && !errno *)
| ResultTest       (* if (errno) *)
| ThrowCapture.    (* int error = errno; *)

Inductive Event :=
| EvFindClass (name : string)
| EvNewGlobalRef (localRef : positive)
| EvDeleteLocalRef
| EvGetFieldID (cls : positive) (name sig : string)
| EvGetMethodID (cls : positive) (name sig : string)
| EvGetIntField (field : positive)
| EvExceptionCheck
| EvExceptionOccurred
| EvExceptionClear
| EvNewStringUTF (s : string)
| EvNewObject (cls ctor : positive) (ref : positive)
| EvThrow (ref : positive)
| EvGetByteArrayElements
| EvGetArrayLength
| EvReleaseByteArrayElements
| EvNewByteArray (len : Z)
| EvSetByteArrayRegion (len : Z)
| EvMalloc (size : Z) (p : positive)
| EvFree (p : positive)
| EvFreecon (p : option positive)
| EvNative (name : string) (idx : nat)
| EvErrnoRead (site : ErrnoSite)
| EvErrnoWrite (v : Z)
| EvAbort.

(** Managed objects the bridge can see: what [NewObject] built, with the
    constructor and the arguments it was given, and throwables raised by the
    runtime itself. *)
Inductive JObject :=
| Constructed (cls ctor : positive) (message : option string)
              (errorCode : Z) (cause : option positive)
| RuntimeThrowable (kind : string).

(** The function-local [static] variables. *)
Record Statics := mkStatics {
  errnoExceptionClass : option positive;
  fileDescriptorClass : option positive;
  fileDescriptorDescriptorField : option positive;
  constructor3 : option positive;
  constructor2 : option positive }.

Record State := mkState {
  errno : Z;
  pending : option positive;
  objs : gmap positive JObject;
  heap : gmap positive (list byte);
  statics : Statics;
  ncalls : nat;
  trace : list Event }.

Definition set_errno (v : Z) (s : State) : State :=
  mkState v (pending s) (objs s) (heap s) (statics s) (ncalls s) (trace s).
Definition set_pending (v : option positive) (s : State) : State :=
  mkState (errno s) v (objs s) (heap s) (statics s) (ncalls s) (trace s).
Definition set_objs (v : gmap positive JObject) (s : State) : State :=
  mkState (errno s) (pending s) v (heap s) (statics s) (ncalls s) (trace s).
Definition set_heap (v : gmap positive (list byte)) (s : State) : State :=
  mkState (errno s) (pending s) (objs s) v (statics s) (ncalls s) (trace s).
Definition set_statics (v : Statics) (s : State) : State :=
  mkState (errno s) (pending s) (objs s) (heap s) v (ncalls s) (trace s).
Definition set_ncalls (v : nat) (s : State) : State :=
  mkState (errno s) (pending s) (objs s) (heap s) (statics s) v (trace s).
Definition log (e : Event) (s : State) : State :=
  mkState (errno s) (pending s) (objs s) (heap s) (statics s) (ncalls s)
          (trace s ++ [e]).

Definition set_errnoExceptionClass (v : option positive) (t : Statics) :=
  mkStatics v (fileDescriptorClass t) (fileDescriptorDescriptorField t)
            (constructor3 t) (constructor2 t).
Definition set_fileDescriptorClass (v : option positive) (t : Statics) :=
  mkStatics (errnoExceptionClass t) v (fileDescriptorDescriptorField t)
            (constructor3 t) (constructor2 t).
Definition set_fileDescriptorDescriptorField (v : option positive) (t : Statics) :=
  mkStatics (errnoExceptionClass t) (fileDescriptorClass t) v
            (constructor3 t) (constructor2 t).
Definition set_constructor3 (v : option positive) (t : Statics) :=
  mkStatics (errnoExceptionClass t) (fileDescriptorClass t)
            (fileDescriptorDescriptorField t) v (constructor2 t).
Definition set_constructor2 (v : option positive) (t : Statics) :=
  mkStatics (errnoExceptionClass t) (fileDescriptorClass t)
            (fileDescriptorDescriptorField t) (constructor3 t) v.

(** ** The monad of the bridge: state, [abort()], undefined behaviour, and a
    budget for the one loop of the file *)

Inductive Outcome (A : Type) :=
| Ret (a : A) (s : State)   (* the function returned *)
| Abort (s : State)         (* abort() was called *)
| Crash (s : State)         (* undefined behaviour: bad pointer, bad free *)
| OutOfFuel.                (* the retry loop used up its budget *)
Arguments Ret {A} a s.
Arguments Abort {A} s.
Arguments Crash {A} s.
Arguments OutOfFuel {A}.

Definition M (A : Type) : Type := State -> Outcome A.

Definition ret {A} (a : A) : M A := fun s => Ret a s.
Definition bind {A B} (m : M A) (k : A -> M B) : M B :=
  fun s => match m s with
           | Ret a s' => k a s'
           | Abort s' => Abort s'
           | Crash s' => Crash s'
           | OutOfFuel => OutOfFuel
           end.

Declare Scope bridge_scope.
Delimit Scope bridge_scope with bridge.
Notation "'let*' x := m 'in' k" := (bind m (fun x => k))
  (at level 10, x pattern, m at level 100, k at level 200) : bridge_scope.
Notation "m >> k" := (bind m (fun _ => k))
  (at level 90, right associativity) : bridge_scope.
Local Open Scope bridge_scope.

Definition get {A} (f : State -> A) : M A := fun s => Ret (f s) s.
Definition modify (f : State -> State) : M unit := fun s => Ret tt (f s).
Definition emit (e : Event) : M unit := modify (log e).
Definition abort {A} : M A := fun s => Abort (log EvAbort s).
Definition undefined {A} : M A := fun s => Crash s.

Definition final_state {A} (o : Outcome A) : option State :=
  match o with
  | Ret _ s | Abort s | Crash s => Some s
  | OutOfFuel => None
  end.

(** ** The C library and the JNI functions the file calls *)

Section Bridge.

Variable env : Env.

(** [errno] is read and written like a variable; every access is traced. *)
Definition read_errno (site : ErrnoSite) : M Z :=
  emit (EvErrnoRead site) >> get errno.
Definition write_errno (v : Z) : M unit :=
  emit (EvErrnoWrite v) >> modify (set_errno v).

(** A new block at an address no live block has. *)
Definition alloc_block (bs : list byte) : M positive :=
  let* h := get heap in
  let p := fresh (dom h) in
  modify (set_heap (<[p := bs]> h)) >> ret p.

(** [malloc] is taken to succeed (the file never tests its result); the
    block holds [size] bytes of unspecified content. *)
Definition malloc (size : Z) : M positive :=
  let* p := alloc_block (replicate (Z.to_nat size) (junk env)) in
  emit (EvMalloc size p) >> ret p.

(** [free] of a pointer that is not a live block is undefined behaviour. *)
Definition free (p : positive) : M unit :=
  let* h := get heap in
  match h !! p with
  | Some _ => emit (EvFree p) >> modify (set_heap (delete p h))
  | None => undefined
  end.

(** [freecon] of libselinux: [free], and nothing for [NULL]. *)
Definition freecon (p : option positive) : M unit :=
  match p with
  | None => emit (EvFreecon None)
  | Some q =>
      let* h := get heap in
      match h !! q with
      | Some _ => emit (EvFreecon p) >> modify (set_heap (delete q h))
      | None => undefined
      end
  end.

(** [memcpy (dst, src, n)]: the first [n] bytes of the block are replaced. *)
Definition memcpy (dst : positive) (src : list byte) (n : Z) : M unit :=
  let* h := get heap in
  match h !! dst with
  | Some b =>
      if (n <=? Z.of_nat (length b)) && (n <=? Z.of_nat (length src)) && (0 <=? n)
      then modify (set_heap (<[dst := take (Z.to_nat n) src ++ drop (Z.to_nat n) b]> h))
      else undefined
  | None => undefined
  end.

(** [dst[i] = v] *)
Definition store_byte (dst : positive) (i : Z) (v : byte) : M unit :=
  let* h := get heap in
  match h !! dst with
  | Some b =>
      if (0 <=? i) && (i <? Z.of_nat (length b))
      then modify (set_heap (<[dst := <[Z.to_nat i := v]> b]> h))
      else undefined
  | None => undefined
  end.

(** The bytes in front of the first terminator: what a callee reads through
    a [char *]; [None] when the block holds no terminator. *)
Fixpoint c_string (bs : list byte) : option (list byte) :=
  match bs with
  | [] => None
  | b :: rest =>
      if Byte.eqb b x00 then Some []
      else match c_string rest with
           | Some pre => Some (b :: pre)
           | None => None
           end
  end.

Definition load_string (p : option positive) : M (list byte) :=
  match p with
  | None => undefined
  | Some q =>
      let* h := get heap in
      match h !! q with
      | Some b => match c_string b with
                  | Some pre => ret pre
                  | None => undefined
                  end
      | None => undefined
      end
  end.

Definition strlen (p : option positive) : M Z :=
  let* pre := load_string p in
  ret (to_size_t env (Z.of_nat (length pre))).

(** *** JNI: exceptions *)

Definition ExceptionCheck : M bool :=
  emit EvExceptionCheck >>
  let* p := get pending in
  ret (match p with Some _ => true | None => false end).
Definition ExceptionOccurred : M (option positive) :=
  emit EvExceptionOccurred >> get pending.
Definition ExceptionClear : M unit :=
  emit EvExceptionClear >> modify (set_pending None).
Definition Throw (ref : positive) : M unit :=
  emit (EvThrow ref) >> modify (set_pending (Some ref)).

Definition new_object (o : JObject) : M positive :=
  let* os := get objs in
  let r := fresh (dom os) in
  modify (set_objs (<[r := o]> os)) >> ret r.

(** A managed allocation that fails leaves an [OutOfMemoryError] pending. *)
Definition raise_OutOfMemoryError : M unit :=
  let* r := new_object (RuntimeThrowable "java/lang/OutOfMemoryError") in
  modify (set_pending (Some r)).

(** [NewStringUTF]: the managed string, or [NULL] and a pending error. *)
Definition NewStringUTF (utf : string) : M (option string) :=
  emit (EvNewStringUTF utf) >>
  if NewStringUTF_ok env utf then ret (Some utf)
  else raise_OutOfMemoryError >> ret None.

(** [NewObject (cls, ctor, message, error [, cause])]: the object records the
    class, the constructor and the arguments it was built from. *)
Definition NewObject (cls ctor : positive) (message : option string)
    (error : Z) (cause : option positive) : M positive :=
  let* r := new_object (Constructed cls ctor message error cause) in
  emit (EvNewObject cls ctor r) >> ret r.

(** *** JNI: arrays and fields *)

(** A [java.io.FileDescriptor] object. *)
Record FileDescriptor := mkFd { descriptor : Z }.

Definition GetIntField (obj : FileDescriptor) (field : positive) : M Z :=
  emit (EvGetIntField field) >> ret (descriptor obj).

Definition GetByteArrayElements (javaBytes : list byte) : M (list byte) :=
  emit EvGetByteArrayElements >> ret javaBytes.
Definition GetArrayLength (javaBytes : list byte) : M Z :=
  emit EvGetArrayLength >> ret (to_jsize (Z.of_nat (length javaBytes))).
Definition ReleaseByteArrayElements : M unit :=
  emit EvReleaseByteArrayElements.

(** [NewByteArray]: a zeroed array of [len] bytes, or [NULL] and a pending
    error. A negative length is an error of the caller. *)
Definition NewByteArray (len : Z) : M (option (list byte)) :=
  emit (EvNewByteArray len) >>
  if len <? 0 then undefined
  else if NewByteArray_ok env len then ret (Some (replicate (Z.to_nat len) x00))
  else raise_OutOfMemoryError >> ret None.

(** [SetByteArrayRegion (array, 0, len, buf)] *)
Definition SetByteArrayRegion (array : list byte) (len : Z)
    (buf : option positive) : M (list byte) :=
  emit (EvSetByteArrayRegion len) >>
  match buf with
  | None => undefined
  | Some q =>
      let* h := get heap in
      match h !! q with
      | Some b =>
          if (len <=? Z.of_nat (length b)) && (len <=? Z.of_nat (length array))
          then ret (take (Z.to_nat len) b ++ drop (Z.to_nat len) array)
          else undefined
      | None => undefined
      end
  end.

(** *** libselinux *)

(** The arguments as the C code passes them: an [int], or a [char *]. The
    callee reads the string the pointer designates. *)
Inductive CArg :=
| CInt (z : Z)
| CStr (p : positive).

Fixpoint read_args (args : list CArg) : M (list NativeArg) :=
  match args with
  | [] => ret []
  | CInt z :: rest =>
      let* r := read_args rest in ret (ArgFd z :: r)
  | CStr p :: rest =>
      let* str := load_string (Some p) in
      let* r := read_args rest in ret (ArgStr str :: r)
  end.

(** One call of a libselinux function that has no out parameter. *)
Definition call_native (name : string) (cargs : list CArg) : M Z :=
  let* args := read_args cargs in
  let* n := get ncalls in
  emit (EvNative name n) >>
  modify (set_ncalls (S n)) >>
  let r := native env name args n in
  match errno_w r with
  | Some e => modify (set_errno e)
  | None => ret tt
  end >>
  ret (rc r).

(** One call of a get function: [context] is the local the out parameter
    points to; it changes only when the callee stores a string. *)
Definition call_native_get (name : string) (cargs : list CArg)
    (context : option positive) : M (Z * option positive) :=
  let* args := read_args cargs in
  let* n := get ncalls in
  emit (EvNative name n) >>
  modify (set_ncalls (S n)) >>
  let r := native env name args n in
  match errno_w r with
  | Some e => modify (set_errno e)
  | None => ret tt
  end >>
  match out r with
  | Some bs => let* p := alloc_block (bs ++ [x00]) in ret (rc r, Some p)
  | None => ret (rc r, context)
  end.

(** ** The functions of libselinux-jni.c, in the order of the file *)

(** [TEMP_FAILURE_RETRY (exp)]: [errno = 0] once, then [exp] again and again
    while [errno == EINTR]; the value of the last evaluation is the result.
    [L] is the type of the locals [exp] writes to. *)
Fixpoint retry_loop {L} (fuel : nat) (exp : L -> M (Z * L)) (l : L)
    : M (Z * L) :=
  match fuel with
  | O => fun _ => OutOfFuel
  | S fuel' =>
      let* (_rc, l') := exp l in
      let* e := read_errno RetryCondition in
      if e =? EINTR then retry_loop fuel' exp l' else ret (_rc, l')
  end.

Definition TEMP_FAILURE_RETRY {L} (fuel : nat) (exp : L -> M (Z * L)) (l : L)
    : M (Z * L) :=
  write_errno 0 >> retry_loop fuel exp l.

Definition findClass (name : string) : M positive :=
  emit (EvFindClass name) >>
  match FindClass env name with
  | None => abort
  | Some localClass =>
      emit (EvNewGlobalRef localClass) >>
      let globalClass := NewGlobalRef env localClass in
      emit EvDeleteLocalRef >>
      match globalClass with
      | None => abort
      | Some g => ret g
      end
  end.

Definition findField (clazz : positive) (name signature : string) : M positive :=
  emit (EvGetFieldID clazz name signature) >>
  match GetFieldID env clazz name signature with
  | None => abort
  | Some field => ret field
  end.

Definition findMethod (clazz : positive) (name signature : string) : M positive :=
  emit (EvGetMethodID clazz name signature) >>
  match GetMethodID env clazz name signature with
  | None => abort
  | Some method => ret method
  end.

Definition getErrnoExceptionClass : M positive :=
  let* st := get statics in
  match errnoExceptionClass st with
  | Some c => ret c
  | None =>
      let* c := findClass "android/system/ErrnoException" in
      modify (fun s => set_statics (set_errnoExceptionClass (Some c) (statics s)) s) >>
      ret c
  end.

Definition getFileDescriptorClass : M positive :=
  let* st := get statics in
  match fileDescriptorClass st with
  | Some c => ret c
  | None =>
      let* c := findClass "java/io/FileDescriptor" in
      modify (fun s => set_statics (set_fileDescriptorClass (Some c) (statics s)) s) >>
      ret c
  end.

Definition getFileDescriptorDescriptorField : M positive :=
  let* st := get statics in
  match fileDescriptorDescriptorField st with
  | Some f => ret f
  | None =>
      let* c := getFileDescriptorClass in
      let* f := findField c "descriptor" "I" in
      modify (fun s => set_statics
                         (set_fileDescriptorDescriptorField (Some f) (statics s)) s) >>
      ret f
  end.

Definition throwException (exceptionClass constructor3 constructor2 : positive)
    (functionName : string) (error : Z) : M unit :=
  let* check := ExceptionCheck in
  let* cause :=
    (if check : bool
     then let* c := ExceptionOccurred in ExceptionClear >> ret c
     else ret None) in
  let* detailMessage := NewStringUTF functionName in
  match detailMessage with
  | None => ExceptionClear
  | Some _ => ret tt
  end >>
  let* exception :=
    match cause with
    | Some c => NewObject exceptionClass constructor3 detailMessage error (Some c)
    | None => NewObject exceptionClass constructor2 detailMessage error None
    end in
  Throw exception >>
  emit EvDeleteLocalRef.

(** The two [static jmethodID] blocks of [throwErrnoException]. *)
Definition getConstructor3 : M positive :=
  let* st := get statics in
  match constructor3 st with
  | Some m => ret m
  | None =>
      let* c := getErrnoExceptionClass in
      let* m := findMethod c "<init>" "(Ljava/lang/String;ILjava/lang/Throwable;)V" in
      modify (fun s => set_statics (set_constructor3 (Some m) (statics s)) s) >>
      ret m
  end.

Definition getConstructor2 : M positive :=
  let* st := get statics in
  match constructor2 st with
  | Some m => ret m
  | None =>
      let* c := getErrnoExceptionClass in
      let* m := findMethod c "<init>" "(Ljava/lang/String;I)V" in
      modify (fun s => set_statics (set_constructor2 (Some m) (statics s)) s) >>
      ret m
  end.

Definition throwErrnoException (functionName : string) : M unit :=
  let* error := read_errno ThrowCapture in
  let* c3 := getConstructor3 in
  let* c2 := getConstructor2 in
  let* cls := getErrnoExceptionClass in
  throwException cls c3 c2 functionName error.

Definition mallocStringFromBytes (javaBytes : list byte) : M positive :=
  let* bytes := GetByteArrayElements javaBytes in
  let* javaLength := GetArrayLength javaBytes in
  let length := to_size_t env javaLength in
  let* string := malloc (to_size_t env (length + 1)) in
  memcpy string bytes length >>
  ReleaseByteArrayElements >>
  store_byte string length x00 >>
  ret string.

Definition newBytesFromString (string : option positive)
    : M (option (list byte)) :=
  let* length := strlen string in
  let javaLength := to_jsize length in
  let* javaBytes := NewByteArray javaLength in
  match javaBytes with
  | None => ret None
  | Some array =>
      let* filled := SetByteArrayRegion array javaLength string in
      ret (Some filled)
  end.

Definition Java_me_zhanghai_android_libselinux_SeLinux_fgetfilecon
    (fuel : nat) (javaFd : FileDescriptor) : M (option (list byte)) :=
  let* field := getFileDescriptorDescriptorField in
  let* fd := GetIntField javaFd field in
  let* (_, context) :=
    TEMP_FAILURE_RETRY fuel (call_native_get "fgetfilecon" [CInt fd]) None in
  let* e := read_errno ResultTest in
  if negb (e =? 0) then
    throwErrnoException "fgetfilecon" >> ret None
  else
    let* javaContext := newBytesFromString context in
    freecon context >>
    ret javaContext.

Definition Java_me_zhanghai_android_libselinux_SeLinux_fsetfilecon
    (fuel : nat) (javaFd : FileDescriptor) (javaContext : list byte) : M unit :=
  let* field := getFileDescriptorDescriptorField in
  let* fd := GetIntField javaFd field in
  let* context := mallocStringFromBytes javaContext in
  TEMP_FAILURE_RETRY fuel
    (fun _ : unit => let* r := call_native "fsetfilecon" [CInt fd; CStr context] in
                     ret (r, tt)) tt >>
  free context >>
  let* e := read_errno ResultTest in
  if negb (e =? 0) then throwErrnoException "fsetfilecon" else ret tt.

Definition doGetfilecon (fuel : nat) (javaPath : list byte)
    (isLgetfilecon : bool) : M (option (list byte)) :=
  let* path := mallocStringFromBytes javaPath in
  let* (_, context) :=
    TEMP_FAILURE_RETRY fuel
      (call_native_get (if isLgetfilecon then "lgetfilecon" else "getfilecon")
                       [CStr path]) None in
  free path >>
  let* e := read_errno ResultTest in
  if negb (e =? 0) then
    throwErrnoException (if isLgetfilecon then "lgetfilecon" else "getfilecon") >>
    ret None
  else
    let* javaContext := newBytesFromString context in
    freecon context >>
    ret javaContext.

Definition Java_me_zhanghai_android_libselinux_SeLinux_getfilecon
    (fuel : nat) (javaPath : list byte) : M (option (list byte)) :=
  doGetfilecon fuel javaPath false.

Definition Java_me_zhanghai_android_libselinux_SeLinux_is_1selinux_1enabled : M bool :=
  let* enabled := call_native "is_selinux_enabled" [] in
  let javaEnabled := negb (enabled =? 0) in
  ret javaEnabled.

Definition Java_me_zhanghai_android_libselinux_SeLinux_lgetfilecon
    (fuel : nat) (javaPath : list byte) : M (option (list byte)) :=
  doGetfilecon fuel javaPath true.

Definition doSetfilecon (fuel : nat) (javaPath javaContext : list byte)
    (isLsetfilecon : bool) : M unit :=
  let* path := mallocStringFromBytes javaPath in
  let* context := mallocStringFromBytes javaContext in
  TEMP_FAILURE_RETRY fuel
    (fun _ : unit =>
       let* r := call_native (if isLsetfilecon then "lsetfilecon" else "setfilecon")
                             [CStr path; CStr context] in
       ret (r, tt)) tt >>
  free path >>
  free context >>
  let* e := read_errno ResultTest in
  if negb (e =? 0)
  then throwErrnoException (if isLsetfilecon then "lsetfilecon" else "setfilecon")
  else ret tt.

Definition Java_me_zhanghai_android_libselinux_SeLinux_lsetfilecon
    (fuel : nat) (javaPath javaContext : list byte) : M unit :=
  doSetfilecon fuel javaPath javaContext true.

Definition Java_me_zhanghai_android_libselinux_SeLinux_security_1getenforce
    (fuel : nat) : M bool :=
  let* (enforce, _) :=
    TEMP_FAILURE_RETRY fuel
      (fun _ : unit => let* r := call_native "security_getenforce" [] in
                       ret (r, tt)) tt in
  let* unset :=
    (if enforce =? -1
     then let* e := read_errno NormalizeTest in ret (e =? 0)
     else ret false) in
  (if unset : bool then write_errno EIO else ret tt) >>
  let* e := read_errno ResultTest in
  (if negb (e =? 0) then throwErrnoException "security_getenforce" else ret tt) >>
  let javaEnforce := negb (enforce =? 0) in
  ret javaEnforce.

Definition Java_me_zhanghai_android_libselinux_SeLinux_setfilecon
    (fuel : nat) (javaPath javaContext : list byte) : M unit :=
  doSetfilecon fuel javaPath javaContext false.

End Bridge.

(** ** Vocabulary of the statements *)

(** *** The symbol cache *)

(** The five symbols the file resolves and keeps in [static] variables. *)
Inductive Symbol :=
| SymErrnoExceptionClass
| SymFileDescriptorClass
| SymDescriptorField
| SymConstructor3
| SymConstructor2.

(** The function of the file that resolves each symbol. *)
Definition resolve (env : Env) (sym : Symbol) : M positive :=
  match sym with
  | SymErrnoExceptionClass => getErrnoExceptionClass env
  | SymFileDescriptorClass => getFileDescriptorClass env
  | SymDescriptorField => getFileDescriptorDescriptorField env
  | SymConstructor3 => getConstructor3 env
  | SymConstructor2 => getConstructor2 env
  end.

(** The [static] variable that caches each symbol. *)
Definition cached (sym : Symbol) (st : Statics) : option positive :=
  match sym with
  | SymErrnoExceptionClass => errnoExceptionClass st
  | SymFileDescriptorClass => fileDescriptorClass st
  | SymDescriptorField => fileDescriptorDescriptorField st
  | SymConstructor3 => constructor3 st
  | SymConstructor2 => constructor2 st
  end.

Definition cached_or {A} (slot lookup : option A) : option A :=
  match slot with
  | Some h => Some h
  | None => lookup
  end.

(** What the runtime answers when asked for a class and a global reference
    to it. *)
Definition class_lookup (env : Env) (name : string) : option positive :=
  match FindClass env name with
  | Some l => NewGlobalRef env l
  | None => None
  end.

(** What the runtime answers when asked for a symbol; a member is asked for
    in its class, itself cached or looked up. [None]: the lookup fails. *)
Definition lookup (env : Env) (st : Statics) (sym : Symbol) : option positive :=
  match sym with
  | SymErrnoExceptionClass => class_lookup env "android/system/ErrnoException"
  | SymFileDescriptorClass => class_lookup env "java/io/FileDescriptor"
  | SymDescriptorField =>
      match cached_or (fileDescriptorClass st)
                      (class_lookup env "java/io/FileDescriptor") with
      | Some c => GetFieldID env c "descriptor" "I"
      | None => None
      end
  | SymConstructor3 =>
      match cached_or (errnoExceptionClass st)
                      (class_lookup env "android/system/ErrnoException") with
      | Some c => GetMethodID env c "<init>"
                    "(Ljava/lang/String;ILjava/lang/Throwable;)V"
      | None => None
      end
  | SymConstructor2 =>
      match cached_or (errnoExceptionClass st)
                      (class_lookup env "android/system/ErrnoException") with
      | Some c => GetMethodID env c "<init>" "(Ljava/lang/String;I)V"
      | None => None
      end
  end.

(** The events that ask the runtime for a symbol. *)
Definition is_lookup (e : Event) : bool :=
  match e with
  | EvFindClass _ | EvNewGlobalRef _ | EvGetFieldID _ _ _ | EvGetMethodID _ _ _ => true
  | _ => false
  end.

(** *** Sample worlds for the closed examples *)

(** A runtime that knows every symbol and a libselinux that answers [r i] to
    its [i]-th call. *)
Definition sample_env (r : nat -> NativeResp) : Env :=
  mkEnv (fun _ => Some 10%positive) (fun l => Some (Pos.succ l))
        (fun _ _ _ => Some 20%positive)
        (fun _ _ sig => if String.eqb sig "(Ljava/lang/String;I)V"
                        then Some 32%positive else Some 33%positive)
        (fun _ => true) (fun _ => true) (fun _ _ i => r i) xff true.

(** A runtime in which no symbol can be found. *)
Definition broken_env : Env :=
  mkEnv (fun _ => None) (fun _ => None) (fun _ _ _ => None) (fun _ _ _ => None)
        (fun _ => true) (fun _ => true)
        (fun _ _ _ => mkResp (-1) (Some 13) None) x00 true.

(** A process that has resolved nothing yet and has no pending exception. *)
Definition fresh_state : State :=
  mkState 0 None ∅ ∅ (mkStatics None None None None None) 0 [].

(** *** Marshalling *)

(** A managed array has at most [JSIZE_MAX] elements. *)
Definition valid_buffer (B : list byte) : Prop :=
  Z.of_nat (length B) <= JSIZE_MAX.

(** A native call that succeeds: it returns 0 and leaves [errno] alone. *)
Definition success : NativeResp := mkResp 0 None None.
(** A native call that fails with the error [e]. *)
Definition failure (e : Z) : NativeResp := mkResp (-1) (Some e) None.

(** *** Raising [ErrnoException] *)

(** The handle a resolution of [sym] yields: the cached one, or the answer
    of the runtime. *)
Definition symbol_value (env : Env) (st : Statics) (sym : Symbol) : option positive :=
  cached_or (cached sym st) (lookup env st sym).

(** The class of [ErrnoException] and its two constructors (with and without
    a cause), when all three resolve. *)
Definition errno_symbols (env : Env) (st : Statics)
    : option (positive * positive * positive) :=
  match symbol_value env st SymErrnoExceptionClass,
        symbol_value env st SymConstructor3,
        symbol_value env st SymConstructor2 with
  | Some cls, Some c3, Some c2 => Some (cls, c3, c2)
  | _, _, _ => None
  end.

(** The events that resolve symbols. *)
Definition is_cache_event (e : Event) : bool :=
  match e with
  | EvDeleteLocalRef => true
  | _ => is_lookup e
  end.

(** The trace of [s'] extends the trace of [s] by events that satisfy [P]. *)
Definition extends (P : Event -> bool) (s s' : State) : Prop :=
  exists evs, trace s' = trace s ++ evs /\ forallb P evs = true.

(** Whatever way [m] ends (return, abort, crash), the states before and
    after are related by [R]. *)
Definition run_rel {A} (R : State -> State -> Prop) (m : M A) : Prop :=
  forall s s', final_state (m s) = Some s' -> R s s'.

(** The message of the exception: the managed copy of the function name, or
    [NULL] when the runtime cannot build the string. *)
Definition detail_message (env : Env) (functionName : string) : option string :=
  if NewStringUTF_ok env functionName then Some functionName else None.

(** The constructor [throwException] picks: the one with a cause when an
    exception was pending, the one without otherwise. *)
Definition chosen_constructor (pend : option positive) (c3 c2 : positive) : positive :=
  match pend with
  | Some _ => c3
  | None => c2
  end.

Definition is_NewObject (e : Event) : bool :=
  match e with
  | EvNewObject _ _ _ => true
  | _ => false
  end.

(** [s'] differs from [s] by symbol resolutions only: same [errno], pending
    exception, objects, heap and call count; lookups added to the trace;
    every symbol has the value it had. *)
Definition cache_frame (env : Env) (s s' : State) : Prop :=
  errno s' = errno s /\ pending s' = pending s /\ objs s' = objs s /\
  heap s' = heap s /\ ncalls s' = ncalls s /\
  extends is_cache_event s s' /\
  (forall sym, symbol_value env (statics s') sym = symbol_value env (statics s) sym).

(** *** The exported functions on file contexts *)

Inductive Call :=
| Fgetfilecon (javaFd : FileDescriptor)
| Fsetfilecon (javaFd : FileDescriptor) (javaContext : list byte)
| Getfilecon (javaPath : list byte)
| Lgetfilecon (javaPath : list byte)
| Setfilecon (javaPath javaContext : list byte)
| Lsetfilecon (javaPath javaContext : list byte).

(** What a call hands back to the managed caller. *)
Inductive JValue :=
| JBytes (b : option (list byte))
| JVoid.

(** The exported function each call enters. *)
Definition run (env : Env) (fuel : nat) (c : Call) : M JValue :=
  match c with
  | Fgetfilecon fd =>
      let* r := Java_me_zhanghai_android_libselinux_SeLinux_fgetfilecon env fuel fd in
      ret (JBytes r)
  | Fsetfilecon fd ctx =>
      Java_me_zhanghai_android_libselinux_SeLinux_fsetfilecon env fuel fd ctx >>
      ret JVoid
  | Getfilecon p =>
      let* r := Java_me_zhanghai_android_libselinux_SeLinux_getfilecon env fuel p in
      ret (JBytes r)
  | Lgetfilecon p =>
      let* r := Java_me_zhanghai_android_libselinux_SeLinux_lgetfilecon env fuel p in
      ret (JBytes r)
  | Setfilecon p ctx =>
      Java_me_zhanghai_android_libselinux_SeLinux_setfilecon env fuel p ctx >>
      ret JVoid
  | Lsetfilecon p ctx =>
      Java_me_zhanghai_android_libselinux_SeLinux_lsetfilecon env fuel p ctx >>
      ret JVoid
  end.

(** The libselinux function behind each call; its name is the message of
    the exception. *)
Definition native_name (c : Call) : string :=
  match c with
  | Fgetfilecon _ => "fgetfilecon"
  | Fsetfilecon _ _ => "fsetfilecon"
  | Getfilecon _ => "getfilecon"
  | Lgetfilecon _ => "lgetfilecon"
  | Setfilecon _ _ => "setfilecon"
  | Lsetfilecon _ _ => "lsetfilecon"
  end.

Definition is_get (c : Call) : bool :=
  match c with
  | Fgetfilecon _ | Getfilecon _ | Lgetfilecon _ => true
  | _ => false
  end.

(** What a call returns when it has raised. *)
Definition failure_value (c : Call) : JValue :=
  if is_get c then JBytes None else JVoid.

(** *** The protocol of the specification (section 4.3), phase by phase,
    built from the functions of the file. [run_protocol] below shows that
    every exported function on file contexts is an instance of it. *)

(** Step 1: the inputs; the native arguments and the buffers allocated for
    them. *)
Definition marshal (env : Env) (c : Call) : M (list CArg * list positive) :=
  match c with
  | Fgetfilecon javaFd =>
      let* field := getFileDescriptorDescriptorField env in
      let* fd := GetIntField javaFd field in
      ret ([CInt fd], [])
  | Fsetfilecon javaFd javaContext =>
      let* field := getFileDescriptorDescriptorField env in
      let* fd := GetIntField javaFd field in
      let* context := mallocStringFromBytes env javaContext in
      ret ([CInt fd; CStr context], [context])
  | Getfilecon javaPath | Lgetfilecon javaPath =>
      let* path := mallocStringFromBytes env javaPath in
      ret ([CStr path], [path])
  | Setfilecon javaPath javaContext | Lsetfilecon javaPath javaContext =>
      let* path := mallocStringFromBytes env javaPath in
      let* context := mallocStringFromBytes env javaContext in
      ret ([CStr path; CStr context], [path; context])
  end.

(** Steps 2 and 3: [errno] is cleared and the native function is called
    under the retry macro; the result is the return value of the last call
    and the context it stored, if any. *)
Definition native_phase (env : Env) (fuel : nat) (c : Call) (args : list CArg)
    : M (Z * option positive) :=
  if is_get c
  then TEMP_FAILURE_RETRY fuel (call_native_get env (native_name c) args) None
  else
    let* (v, _) :=
      TEMP_FAILURE_RETRY fuel
        (fun _ : unit => let* r := call_native env (native_name c) args in
                         ret (r, tt)) tt in
    ret (v, None).

(** Step 4: the input buffers are freed. *)
Fixpoint release (bufs : list positive) : M unit :=
  match bufs with
  | [] => ret tt
  | p :: rest => free p >> release rest
  end.

(** Step 7: the context, if the call is a get, becomes a managed array and
    is handed back to libselinux. *)
Definition deliver (env : Env) (c : Call) (context : option positive) : M JValue :=
  if is_get c then
    let* javaContext := newBytesFromString env context in
    freecon context >> ret (JBytes javaContext)
  else ret JVoid.

(** Step 6: the exception is raised and the call returns. *)
Definition raise (env : Env) (c : Call) : M JValue :=
  throwErrnoException env (native_name c) >> ret (failure_value c).

(** Steps 5 to 7: [errno] is inspected; nonzero raises, zero delivers. *)
Definition conclude (env : Env) (c : Call) (context : option positive) : M JValue :=
  let* e := read_errno ResultTest in
  if negb (e =? 0) then raise env c else deliver env c context.

Definition protocol (env : Env) (fuel : nat) (c : Call) : M JValue :=
  let* (args, bufs) := marshal env c in
  let* (_, context) := native_phase env fuel c args in
  release bufs >>
  conclude env c context.

(** *** Classes of events *)

(** What marshalling the inputs can do. *)
Definition is_marshal_event (e : Event) : bool :=
  match e with
  | EvGetByteArrayElements | EvGetArrayLength | EvReleaseByteArrayElements
  | EvMalloc _ _ | EvGetIntField _ => true
  | _ => is_cache_event e
  end.

(** What the retry macro around a native call can do. *)
Definition is_native_event (e : Event) : bool :=
  match e with
  | EvErrnoWrite _ | EvNative _ _ | EvErrnoRead RetryCondition => true
  | _ => false
  end.

(** What raising the exception can do. *)
Definition is_raise_event (e : Event) : bool :=
  match e with
  | EvErrnoRead ThrowCapture | EvExceptionCheck | EvExceptionOccurred
  | EvExceptionClear | EvNewStringUTF _ | EvNewObject _ _ _ | EvThrow _
  | EvAbort => true
  | _ => is_cache_event e
  end.

(** What delivering a context to the caller can do. *)
Definition is_deliver_event (e : Event) : bool :=
  match e with
  | EvNewByteArray _ | EvSetByteArrayRegion _ | EvFreecon _ => true
  | _ => false
  end.

(** The buffers [malloc] returned and the buffers [free] was given, in the
    order of the trace. *)
Fixpoint mallocs (evs : list Event) : list positive :=
  match evs with
  | [] => []
  | EvMalloc _ p :: rest => p :: mallocs rest
  | _ :: rest => mallocs rest
  end.

Fixpoint frees (evs : list Event) : list positive :=
  match evs with
  | [] => []
  | EvFree p :: rest => p :: frees rest
  | _ :: rest => frees rest
  end.

(** The inspection of the result: [if (errno)]. *)
Definition is_result_test (e : Event) : bool :=
  match e with
  | EvErrnoRead ResultTest => true
  | _ => false
  end.

(** The events by which an exception object is built and thrown. *)
Definition is_throw (e : Event) : bool :=
  match e with
  | EvNewObject _ _ _ | EvThrow _ => true
  | _ => false
  end.

(** Blocks that are live in [s] are live, with the same contents, in [s']. *)
Definition heap_grows (s s' : State) : Prop := heap s ⊆ heap s'.

(** Addresses that are free in [s] are free in [s']. *)
Definition heap_shrinks (s s' : State) : Prop := heap s' ⊆ heap s.

(** What the native phase leaves alone: the pending exception, the managed
    objects, the cache and every live block. *)
Definition native_frame (s s' : State) : Prop :=
  pending s' = pending s /\ objs s' = objs s /\ statics s' = statics s /\
  heap_grows s s' /\ extends is_native_event s s'.

(** What marshalling leaves behind: the buffers [bufs], fresh, distinct and
    live, one [malloc] each; nothing else changes but the symbol cache. *)
Definition marshal_frame (env : Env) (bufs : list positive) (s s' : State) : Prop :=
  errno s' = errno s /\ pending s' = pending s /\ objs s' = objs s /\
  ncalls s' = ncalls s /\
  (forall sym, symbol_value env (statics s') sym = symbol_value env (statics s) sym) /\
  heap_grows s s' /\
  NoDup bufs /\
  (forall p, In p bufs -> heap s !! p = None /\ is_Some (heap s' !! p)) /\
  exists evs, trace s' = trace s ++ evs /\
              forallb is_marshal_event evs = true /\
              mallocs evs = bufs /\ frees evs = [] /\
              existsb is_result_test evs = false /\
              existsb is_throw evs = false.

(** What the steps after the native call leave alone: they allocate no
    native memory, and all they do is raise or deliver. *)
Definition epilogue_frame (s s' : State) : Prop :=
  heap_shrinks s s' /\
  extends (fun e => is_raise_event e || is_deliver_event e) s s'.

(** What delivering a result leaves alone. *)
Definition deliver_frame (s s' : State) : Prop :=
  errno s' = errno s /\ statics s' = statics s /\ extends is_deliver_event s s'.

(** The same world with another libselinux. *)
Definition with_native (env : Env)
    (n : string -> list NativeArg -> nat -> NativeResp) : Env :=
  mkEnv (FindClass env) (NewGlobalRef env) (GetFieldID env) (GetMethodID env)
        (NewStringUTF_ok env) (NewByteArray_ok env) n (junk env) (lp64 env).

(** [m] always ends: it has no loop that can use up a budget. *)
Definition no_loop {A} (m : M A) : Prop := forall s, m s <> OutOfFuel.

(** *** The enforcement-mode query *)

(** The native call of [security_getenforce] under the retry macro. *)
Definition getenforce_phase (env : Env) (fuel : nat) : M (Z * unit) :=
  TEMP_FAILURE_RETRY fuel
    (fun _ : unit => let* r := call_native env "security_getenforce" [] in
                     ret (r, tt)) tt.

(** *** The retry macro *)

(** A libselinux whose first call is interrupted ([EINTR]) and whose every
    later call succeeds, as C functions do: without touching [errno]. *)
Definition interrupted_once (i : nat) : NativeResp :=
  match i with
  | O => failure EINTR
  | S _ => success
  end.

(** Interrupted, then a success, then a failure with error 13. *)
Definition interrupted_then_ok_then_failing (i : nat) : NativeResp :=
  match i with
  | O => failure EINTR
  | S O => success
  | S (S _) => failure 13
  end.


(** *** What libselinux is handed *)

(** The bytes of a managed buffer in front of its first zero byte: the
    C string the marshalled copy of the buffer holds. *)
Fixpoint cut_at_zero (bs : list byte) : list byte :=
  match bs with
  | [] => []
  | b :: rest => if Byte.eqb b x00 then [] else b :: cut_at_zero rest
  end.

(** The arguments the native function of a call receives. *)
Definition native_args (c : Call) : list NativeArg :=
  match c with
  | Fgetfilecon javaFd => [ArgFd (descriptor javaFd)]
  | Fsetfilecon javaFd javaContext =>
      [ArgFd (descriptor javaFd); ArgStr (cut_at_zero javaContext)]
  | Getfilecon javaPath | Lgetfilecon javaPath => [ArgStr (cut_at_zero javaPath)]
  | Setfilecon javaPath javaContext | Lsetfilecon javaPath javaContext =>
      [ArgStr (cut_at_zero javaPath); ArgStr (cut_at_zero javaContext)]
  end.

(** The managed buffers of a call are arrays the runtime can hold. *)
Definition valid_call (c : Call) : Prop :=
  match c with
  | Fgetfilecon _ => True
  | Fsetfilecon _ javaContext => valid_buffer javaContext
  | Getfilecon javaPath | Lgetfilecon javaPath => valid_buffer javaPath
  | Setfilecon javaPath javaContext | Lsetfilecon javaPath javaContext =>
      valid_buffer javaPath /\ valid_buffer javaContext
  end.

(** *** What libselinux answers *)

(** libselinux is interrupted [N] times (each time it stores [EINTR] and no
    context) and then answers [r]. An answer that leaves [errno] alone ends
    the calls only when nothing was interrupted: after an interruption
    [errno] still holds [EINTR]. *)
Definition answers_after (env : Env) (c : Call) (s : State) (N : nat)
    (r : NativeResp) : Prop :=
  (forall i, (i < N)%nat ->
     errno_w (native env (native_name c) (native_args c) (ncalls s + i)) = Some EINTR /\
     out (native env (native_name c) (native_args c) (ncalls s + i)) = None) /\
  native env (native_name c) (native_args c) (ncalls s + N) = r /\
  match errno_w r with
  | Some e => e <> EINTR
  | None => N = 0%nat
  end.

(** [errno] after an answer to a call that was entered with [errno] at 0. *)
Definition final_errno (r : NativeResp) : Z :=
  match errno_w r with
  | Some e => e
  | None => 0
  end.

(** The native heap is what it was. *)
Definition same_heap (s s' : State) : Prop := heap s' = heap s.

(** Every cached symbol is still cached, with the same handle. *)
Definition cache_grows (s s' : State) : Prop :=
  forall sym h, cached sym (statics s) = Some h -> cached sym (statics s') = Some h.

(** The context local after the answer [r], and the heap: a get function
    receives the stored context in a new block. *)
Definition context_of (c : Call) (r : NativeResp) (h : gmap positive (list byte))
    : option positive :=
  if is_get c
  then match out r with
       | Some _ => Some (fresh (dom h))
       | None => None
       end
  else None.

Definition heap_with_context (c : Call) (r : NativeResp)
    (h : gmap positive (list byte)) : gmap positive (list byte) :=
  if is_get c
  then match out r with
       | Some bs => <[fresh (dom h) := bs ++ [x00]]> h
       | None => h
       end
  else h.

(** [errno] is not written and libselinux is not called. *)
Definition no_native (s s' : State) : Prop :=
  errno s' = errno s /\ ncalls s' = ncalls s.

(** *** [errno] on entry *)

Definition on_state {A} (f : State -> State) (o : Outcome A) : Outcome A :=
  match o with
  | Ret a s => Ret a (f s)
  | Abort s => Abort (f s)
  | Crash s => Crash (f s)
  | OutOfFuel => OutOfFuel
  end.

(** [m] neither reads nor writes [errno]: started with another [errno] it
    does the same and leaves that [errno] behind. *)
Definition errno_blind {A} (m : M A) : Prop :=
  forall e s, m (set_errno e s) = on_state (set_errno e) (m s).


(** *** The context local of a get function *)


(** * Verification *)

(** ** The two queries that take no argument *)

Lemma is_selinux_enabled_run (env : Env) (s : State) :
  Java_me_zhanghai_android_libselinux_SeLinux_is_1selinux_1enabled env s =
  let r := native env "is_selinux_enabled" [] (ncalls s) in
  Ret (negb (rc r =? 0))
      (let s1 := set_ncalls (S (ncalls s))
                            (log (EvNative "is_selinux_enabled" (ncalls s)) s) in
       match errno_w r with Some e => set_errno e s1 | None => s1 end).
Proof.
  unfold Java_me_zhanghai_android_libselinux_SeLinux_is_1selinux_1enabled,
    call_native, bind; simpl.
  destruct (errno_w _); reflexivity.
Qed.

(** C8. [is_selinux_enabled] never raises: whatever libselinux returns and
    whatever it does to [errno], the function returns a boolean, the
    pending-exception slot and the managed objects are as they were, and the
    only call that left the file is the query itself. *)
Theorem C8_is_selinux_enabled_never_raises (env : Env) (s : State) :
  exists (b : bool) (s' : State),
    Java_me_zhanghai_android_libselinux_SeLinux_is_1selinux_1enabled env s = Ret b s' /\
    pending s' = pending s /\
    objs s' = objs s /\
    trace s' = trace s ++ [EvNative "is_selinux_enabled" (ncalls s)].
Proof.
  rewrite is_selinux_enabled_run; cbv zeta.
  eexists; eexists; split; [reflexivity|].
  destruct (errno_w _); simpl; auto.
Qed.

(** C10. [is_selinux_enabled] returns true for every nonzero value of the
    native query, the error value -1 included, and false exactly for 0. *)
Theorem C10_is_selinux_enabled_nonzero_is_true (env : Env) (s : State) :
  let v := rc (native env "is_selinux_enabled" [] (ncalls s)) in
  exists (b : bool) (s' : State),
    Java_me_zhanghai_android_libselinux_SeLinux_is_1selinux_1enabled env s = Ret b s' /\
    (b = true <-> v <> 0) /\
    (b = false <-> v = 0) /\
    (v = -1 -> b = true).
Proof.
  intros v. rewrite is_selinux_enabled_run; cbv zeta.
  eexists; eexists; split; [reflexivity|]. fold v.
  destruct (Z.eqb_spec v 0) as [E|E]; simpl; repeat split; intros; try lia;
    try congruence.
Qed.

(** The error value of the native query at work. *)
Lemma C10_is_selinux_enabled_witness :
  exists (b : bool) (s' : State),
    Java_me_zhanghai_android_libselinux_SeLinux_is_1selinux_1enabled
      broken_env fresh_state = Ret b s' /\
    b = true.
Proof.
  destruct (C10_is_selinux_enabled_nonzero_is_true broken_env fresh_state)
    as (b & s' & H & _ & _ & H3).
  exists b, s'. split; [exact H|]. apply H3. reflexivity.
Defined.

(** ** The symbol cache *)

Ltac break_match :=
  match goal with
  | |- context [match ?x with _ => _ end] => destruct x eqn:?
  | H : context [match ?x with _ => _ end] |- _ => destruct x eqn:?
  end.

Ltac invert_outcome :=
  match goal with
  | H : Ret _ _ = Ret _ _ |- _ => inversion H; subst; clear H
  | H : Abort _ = Abort _ |- _ => inversion H; subst; clear H
  | H : Crash _ = Crash _ |- _ => inversion H; subst; clear H
  | H : Some _ = Some _ |- _ => inversion H; subst; clear H
  | H : (_, _) = (_, _) |- _ => inversion H; subst; clear H
  end.

Ltac unfold_cache :=
  unfold resolve, cached, lookup, cached_or, class_lookup,
    getConstructor3, getConstructor2, getFileDescriptorDescriptorField,
    getErrnoExceptionClass, getFileDescriptorClass,
    findClass, findField, findMethod, abort, bind, ret, get, modify, emit in *.

(** C7. Fail-fast, memoized symbol resolution, for each of the five symbols:
    - a symbol already in its [static] variable is returned as it is, and the
      state (the trace of runtime calls included) does not change;
    - on a first resolution, a lookup the runtime fails makes the process
      abort: no exception is raised, the last thing that happens is [abort];
    - on a first resolution that succeeds the handle is stored;
    - so a resolution that follows a successful one returns the same handle
      and performs no lookup. *)
Theorem C7_symbol_cache_fail_fast_and_memoized (env : Env) (sym : Symbol) (s : State) :
  (forall h, cached sym (statics s) = Some h -> resolve env sym s = Ret h s) /\
  (cached sym (statics s) = None -> lookup env (statics s) sym = None ->
   exists s', resolve env sym s = Abort s' /\
              pending s' = pending s /\ objs s' = objs s /\
              last (trace s') = Some EvAbort) /\
  (forall h, cached sym (statics s) = None -> lookup env (statics s) sym = Some h ->
   exists s', resolve env sym s = Ret h s' /\ cached sym (statics s') = Some h) /\
  (forall h s', resolve env sym s = Ret h s' ->
                resolve env sym s' = Ret h s' /\
                (cached sym (statics s) = None ->
                 exists evs, trace s' = trace s ++ evs /\ existsb is_lookup evs = true)).
Proof.
  destruct s as [e p o hp [c1 c2 c3 c4 c5] n tr].
  repeat split; destruct sym; unfold_cache; simpl in *; intros;
    repeat (break_match; simpl in *; try congruence; subst);
    repeat invert_outcome; simplify_eq; simpl in *; try congruence;
    try (eexists; repeat split; simpl; rewrite <- ?app_assoc;
         try reflexivity; try apply last_snoc;
         try (rewrite ?app_assoc; apply last_snoc); fail).
Qed.

(** The resolution of a symbol a broken runtime does not know. *)
Lemma C7_symbol_cache_witness :
  exists s', resolve broken_env SymConstructor3 fresh_state = Abort s' /\
             pending s' = None /\ last (trace s') = Some EvAbort.
Proof.
  destruct (C7_symbol_cache_fail_fast_and_memoized broken_env SymConstructor3
              fresh_state) as (_ & H & _).
  destruct (H eq_refl eq_refl) as (s' & H1 & H2 & _ & H4).
  exists s'. auto.
Defined.

(** ** Marshalling *)

Lemma to_jsize_small (z : Z) : 0 <= z <= JSIZE_MAX -> to_jsize z = z.
Proof.
  unfold to_jsize, JSIZE_MAX. intros H.
  rewrite Z.mod_small; lia.
Qed.

Lemma to_size_t_small (env : Env) (z : Z) :
  0 <= z <= JSIZE_MAX + 1 -> to_size_t env z = z.
Proof.
  unfold to_size_t, SIZE_WIDTH, JSIZE_MAX. intros H.
  destruct (lp64 env); rewrite Z.mod_small; lia.
Qed.

Lemma fresh_block (h : gmap positive (list byte)) : h !! fresh (dom h) = None.
Proof. apply not_elem_of_dom, is_fresh. Qed.

(** What [mallocStringFromBytes] does to the state. *)
Lemma mallocStringFromBytes_run (env : Env) (B : list byte) (s : State) :
  valid_buffer B ->
  let p := fresh (dom (heap s)) in
  mallocStringFromBytes env B s =
  Ret p (mkState (errno s) (pending s) (objs s) (<[p := B ++ [x00]]> (heap s))
                 (statics s) (ncalls s)
                 (trace s ++ [EvGetByteArrayElements; EvGetArrayLength;
                              EvMalloc (Z.of_nat (length B) + 1) p;
                              EvReleaseByteArrayElements])).
Proof.
  intros V p. unfold valid_buffer in V.
  unfold mallocStringFromBytes, GetByteArrayElements, GetArrayLength, malloc,
    alloc_block, memcpy, ReleaseByteArrayElements, store_byte, bind, ret, get,
    modify, emit. simpl.
  rewrite (to_jsize_small (Z.of_nat (length B))) by lia.
  rewrite (to_size_t_small env (Z.of_nat (length B))) by lia.
  rewrite (to_size_t_small env (Z.of_nat (length B) + 1)) by lia.
  fold p. rewrite lookup_insert_eq.
  rewrite length_replicate, Nat2Z.id.
  replace (Z.to_nat (Z.of_nat (length B) + 1)) with (S (length B)) by lia.
  assert (C1 : (Z.of_nat (length B) <=? Z.of_nat (S (length B))) &&
               (Z.of_nat (length B) <=? Z.of_nat (length B)) &&
               (0 <=? Z.of_nat (length B)) = true).
  { repeat (apply andb_true_intro; split); apply Z.leb_le; lia. }
  rewrite C1. simpl. rewrite lookup_insert_eq.
  change (junk env :: replicate (length B) (junk env))
    with (replicate (S (length B)) (junk env)).
  rewrite firstn_all, drop_replicate.
  replace (S (length B) - length B)%nat with 1%nat by lia. simpl.
  rewrite length_app. simpl.
  assert (C2 : (0 <=? Z.of_nat (length B)) &&
               (Z.of_nat (length B) <? Z.of_nat (length B + 1)) = true).
  { apply andb_true_intro; split; [apply Z.leb_le | apply Z.ltb_lt]; lia. }
  rewrite C2. unfold set_heap, log. simpl.
  rewrite !insert_insert_eq.
  rewrite insert_app_r_alt by lia. rewrite Nat.sub_diag. simpl.
  rewrite <- !app_assoc. reflexivity.
Qed.


Lemma c_string_split (bs pre : list byte) :
  c_string bs = Some pre ->
  exists rest, bs = pre ++ x00 :: rest /\ Forall (fun b => b <> x00) pre.
Proof.
  revert pre. induction bs as [|b bs IH]; simpl; intros pre H; [discriminate|].
  destruct (Byte.eqb b x00) eqn:E.
  - apply Byte.byte_dec_bl in E. subst b. inversion H; subst.
    exists bs. split; [reflexivity | constructor].
  - destruct (c_string bs) as [pre'|] eqn:C; [|discriminate].
    inversion H; subst. destruct (IH pre' eq_refl) as (rest & -> & F).
    exists rest. split; [reflexivity|]. constructor; [|exact F].
    intros ->. discriminate.
Qed.

Lemma c_string_terminated (B rest : list byte) :
  Forall (fun b => b <> x00) B -> c_string (B ++ x00 :: rest) = Some B.
Proof.
  induction 1 as [|b B Hb _ IH]; simpl; [reflexivity|].
  destruct (Byte.eqb b x00) eqn:E.
  - apply Byte.byte_dec_bl in E. contradiction.
  - rewrite IH. reflexivity.
Qed.

(** A terminated buffer always holds a C string: the bytes of [B] in front
    of the first zero byte of [B], all of [B] when it has none. *)
Lemma c_string_of_terminated (B : list byte) :
  exists pre, c_string (B ++ [x00]) = Some pre /\
              (length pre <= length B)%nat /\ take (length pre) B = pre.
Proof.
  induction B as [|b B (pre & C & L & T)]; simpl.
  - exists []. auto.
  - destruct (Byte.eqb b x00).
    + exists []. simpl. split; [reflexivity|]. split; [lia | reflexivity].
    + rewrite C. exists (b :: pre). simpl. split; [reflexivity|].
      split; [lia | f_equal; exact T].
Qed.

(** What [newBytesFromString] does on a block that holds the C string
    [pre], when the runtime can build the array. *)
Lemma newBytesFromString_run (env : Env) (p : positive) (blk pre : list byte)
    (s : State) :
  heap s !! p = Some blk ->
  c_string blk = Some pre ->
  valid_buffer pre ->
  NewByteArray_ok env (Z.of_nat (length pre)) = true ->
  newBytesFromString env (Some p) s =
  Ret (Some pre)
      (log (EvSetByteArrayRegion (Z.of_nat (length pre)))
           (log (EvNewByteArray (Z.of_nat (length pre))) s)).
Proof.
  intros Hp Hc V Ok. unfold valid_buffer in V.
  destruct (c_string_split _ _ Hc) as (rest & -> & _).
  unfold newBytesFromString, strlen, load_string, NewByteArray,
    SetByteArrayRegion, bind, ret, get, modify, emit. simpl.
  rewrite Hp, Hc. simpl.
  rewrite (to_size_t_small env (Z.of_nat (length pre))) by lia.
  rewrite (to_jsize_small (Z.of_nat (length pre))) by lia.
  destruct (Z.ltb_spec (Z.of_nat (length pre)) 0) as [?|_]; [lia|].
  rewrite Ok. simpl. rewrite Hp.
  rewrite length_replicate, length_app, Nat2Z.id.
  assert (C : (Z.of_nat (length pre) <=? Z.of_nat (length pre + length (x00 :: rest))) &&
              (Z.of_nat (length pre) <=? Z.of_nat (length pre)) = true).
  { apply andb_true_intro; split; apply Z.leb_le; lia. }
  rewrite C.
  rewrite take_app_length, drop_replicate, Nat.sub_diag. simpl.
  rewrite app_nil_r. reflexivity.
Qed.

(** C1, as the code has it. For every managed buffer [B] (of a length a
    managed array can have) [mallocStringFromBytes] returns a fresh block of
    exactly [length B + 1] bytes: the bytes of [B] and then the terminator.
    Converting that block back with [newBytesFromString] measures it up to
    its first zero byte: when the runtime can build the array, the result is
    the part of [B] in front of the first zero byte of [B], which is [B]
    itself when [B] holds no zero byte. *)
Theorem C1_marshal_round_trip (env : Env) (B : list byte) (s : State) :
  valid_buffer B ->
  exists (p : positive) (s1 : State) (blk pre : list byte),
    mallocStringFromBytes env B s = Ret p s1 /\
    heap s !! p = None /\
    heap s1 !! p = Some blk /\
    blk = B ++ [x00] /\
    length blk = S (length B) /\
    last blk = Some x00 /\
    c_string blk = Some pre /\
    take (length pre) B = pre /\
    (NewByteArray_ok env (Z.of_nat (length pre)) = true ->
     exists s2, newBytesFromString env (Some p) s1 = Ret (Some pre) s2) /\
    (Forall (fun b => b <> x00) B -> pre = B).
Proof.
  intros V.
  destruct (c_string_of_terminated B) as (pre & C & L & T).
  eexists; eexists; exists (B ++ [x00]), pre.
  split; [apply mallocStringFromBytes_run; exact V|].
  split; [apply fresh_block|].
  split; [simpl; apply lookup_insert_eq|].
  split; [reflexivity|].
  split; [rewrite length_app; simpl; lia|].
  split; [apply last_snoc|].
  split; [exact C|].
  split; [exact T|].
  split.
  - intros Ok. eexists.
    eapply newBytesFromString_run; eauto.
    + simpl. apply lookup_insert_eq.
    + unfold valid_buffer in *. lia.
  - intros F. rewrite (c_string_terminated B [] F) in C. congruence.
Qed.

(** A buffer without a zero byte goes through the round trip unchanged. *)
Lemma C1_marshal_round_trip_witness :
  exists (p : positive) (s1 s2 : State),
    mallocStringFromBytes (sample_env (fun _ => success)) [x61; x62] fresh_state
      = Ret p s1 /\
    length <$> (heap s1 !! p) = Some 3%nat /\
    newBytesFromString (sample_env (fun _ => success)) (Some p) s1
      = Ret (Some [x61; x62]) s2.
Proof.
  assert (V : valid_buffer [x61; x62]) by (unfold valid_buffer, JSIZE_MAX; simpl; lia).
  destruct (C1_marshal_round_trip (sample_env (fun _ => success)) [x61; x62]
              fresh_state V)
    as (p & s1 & blk & pre & H1 & _ & H3 & _ & H5 & _ & _ & _ & H9 & H10).
  assert (pre = [x61; x62]) as ->
    by (apply H10; repeat constructor; discriminate).
  destruct (H9 eq_refl) as (s2 & H).
  exists p, s1, s2. split; [exact H1|]. split; [|exact H].
  rewrite H3. simpl. f_equal. exact H5.
Defined.

(** C1 as stated fails: a buffer with a zero byte inside comes back cut at
    that byte. *)
Lemma C1_round_trip_counterexample :
  exists (p : positive) (s1 s2 : State) (B' : list byte),
    mallocStringFromBytes (sample_env (fun _ => success)) [x61; x00; x62]
                          fresh_state = Ret p s1 /\
    newBytesFromString (sample_env (fun _ => success)) (Some p) s1
      = Ret (Some B') s2 /\
    B' = [x61] /\ B' <> [x61; x00; x62].
Proof.
  eexists; eexists; eexists; eexists.
  split; [vm_compute; reflexivity|].
  split; [vm_compute; reflexivity|].
  split; [reflexivity | discriminate].
Qed.

(** ** Relating the states before and after a computation *)

#[local] Instance extends_preorder (P : Event -> bool) : PreOrder (extends P).
Proof.
  split.
  - intros s. exists []. rewrite app_nil_r. auto.
  - intros s1 s2 s3 (e1 & T1 & F1) (e2 & T2 & F2).
    exists (e1 ++ e2). rewrite T2, T1, app_assoc. split; [reflexivity|].
    rewrite forallb_app, F1, F2. reflexivity.
Qed.

Lemma extends_log (P : Event -> bool) (e : Event) (s : State) :
  P e = true -> extends P s (log e s).
Proof. intros H. exists [e]. simpl. rewrite H. auto. Qed.

Lemma extends_same (P : Event -> bool) (s s' : State) :
  trace s' = trace s -> extends P s s'.
Proof. intros H. exists []. rewrite app_nil_r. auto. Qed.

Section RunRel.
Context (R : State -> State -> Prop) `{!PreOrder R}.

Lemma run_rel_ret {A} (a : A) : run_rel R (ret a).
Proof. intros s s' H. inversion H; subst. reflexivity. Qed.

Lemma run_rel_get {A} (f : State -> A) : run_rel R (get f).
Proof. intros s s' H. inversion H; subst. reflexivity. Qed.

Lemma run_rel_undefined {A} : run_rel R (@undefined A).
Proof. intros s s' H. inversion H; subst. reflexivity. Qed.

Lemma run_rel_modify (f : State -> State) :
  (forall s, R s (f s)) -> run_rel R (modify f).
Proof. intros F s s' H. inversion H; subst. apply F. Qed.

Lemma run_rel_abort {A} :
  (forall s, R s (log EvAbort s)) -> run_rel R (@abort A).
Proof. intros F s s' H. inversion H; subst. apply F. Qed.

Lemma run_rel_bind {A B} (m : M A) (k : A -> M B) :
  run_rel R m -> (forall a, run_rel R (k a)) -> run_rel R (bind m k).
Proof.
  intros Hm Hk s s' H. unfold bind in H.
  destruct (m s) as [a s1| s1 | s1 |] eqn:E; simpl in H.
  - transitivity s1; [apply Hm; rewrite E; reflexivity | eapply Hk; exact H].
  - inversion H; subst. apply Hm. rewrite E. reflexivity.
  - inversion H; subst. apply Hm. rewrite E. reflexivity.
  - discriminate.
Qed.

Lemma run_rel_out_of_fuel {A} : run_rel R (fun _ => @OutOfFuel A).
Proof. intros s s' H. discriminate. Qed.
End RunRel.

Lemma run_rel_ret_state {A} (R : State -> State -> Prop) (m : M A) a s s' :
  run_rel R m -> m s = Ret a s' -> R s s'.
Proof. intros H E. apply H. rewrite E. reflexivity. Qed.

(** ** Raising the exception *)

Ltac cache_simpl :=
  unfold log, set_errno, set_pending, set_objs, set_heap, set_statics,
    set_ncalls, set_errnoExceptionClass, set_fileDescriptorClass,
    set_fileDescriptorDescriptorField, set_constructor3, set_constructor2 in *;
  cbn [errno pending objs heap statics ncalls trace
       errnoExceptionClass fileDescriptorClass fileDescriptorDescriptorField
       constructor3 constructor2] in *.

Ltac split_conj := repeat match goal with |- _ /\ _ => split end.

(** Projections of updated states, without unfolding the maps. *)
Ltac state_simpl :=
  cbn [errno pending objs heap statics ncalls trace
       set_errno set_pending set_objs set_heap set_statics set_ncalls log
       modify emit ret get bind final_state
       errnoExceptionClass fileDescriptorClass fileDescriptorDescriptorField
       constructor3 constructor2 fst snd] in *;
  rewrite <- ?app_assoc; cbn [app] in *.

Lemma fresh_object (o : gmap positive JObject) : o !! fresh (dom o) = None.
Proof. apply not_elem_of_dom, is_fresh. Qed.

(** What [throwException] does, whatever is pending and whether or not the
    message string can be built. *)
Lemma throwException_run (env : Env) (cls c3 c2 : positive) (fn : string)
    (err : Z) (s : State) :
  exists (x : positive) (s' : State) (pre : list Event),
    throwException env cls c3 c2 fn err s = Ret tt s' /\
    pending s' = Some x /\
    objs s !! x = None /\
    objs s ⊆ objs s' /\
    objs s' !! x = Some (Constructed cls (chosen_constructor (pending s) c3 c2)
                                     (detail_message env fn) err (pending s)) /\
    trace s' = trace s ++ pre ++
               [EvNewObject cls (chosen_constructor (pending s) c3 c2) x;
                EvThrow x; EvDeleteLocalRef] /\
    (pending s <> None -> In EvExceptionClear pre) /\
    existsb is_NewObject pre = false /\
    errno s' = errno s /\ heap s' = heap s /\ statics s' = statics s /\
    ncalls s' = ncalls s.
Proof.
  destruct s as [e p o hp st n tr].
  unfold throwException, ExceptionCheck, ExceptionOccurred, ExceptionClear,
    NewStringUTF, NewObject, Throw, raise_OutOfMemoryError, new_object,
    detail_message, chosen_constructor, bind, ret, get, modify, emit.
  assert (F2 : forall (a : JObject) (x := fresh (dom (<[fresh (dom o) := a]> o))),
             o !! x = None /\ forall b, o ⊆ <[x := b]> (<[fresh (dom o) := a]> o)).
  { intros a x.
    pose proof (fresh_object (<[fresh (dom o) := a]> o)) as Hx. fold x in Hx.
    apply lookup_insert_None in Hx as [Hx _].
    split; [exact Hx|]. intros b.
    transitivity (<[fresh (dom o) := a]> o).
    - apply insert_subseteq, fresh_object.
    - apply insert_subseteq, fresh_object. }
  destruct p as [c|]; destruct (NewStringUTF_ok env fn); state_simpl.
  - eexists; eexists;
      exists [EvExceptionCheck; EvExceptionOccurred; EvExceptionClear; EvNewStringUTF fn].
    split; [reflexivity|]. state_simpl. split_conj; try reflexivity;
      try apply fresh_object; try apply lookup_insert_eq; try (simpl; tauto).
    apply insert_subseteq, fresh_object.
  - eexists; eexists;
      exists [EvExceptionCheck; EvExceptionOccurred; EvExceptionClear;
              EvNewStringUTF fn; EvExceptionClear].
    split; [reflexivity|]. state_simpl. split_conj; try reflexivity;
      try apply lookup_insert_eq; try apply F2; try (simpl; tauto).
  - eexists; eexists; exists [EvExceptionCheck; EvNewStringUTF fn].
    split; [reflexivity|]. state_simpl. split_conj; try reflexivity;
      try apply fresh_object; try apply lookup_insert_eq; try congruence.
    apply insert_subseteq, fresh_object.
  - eexists; eexists; exists [EvExceptionCheck; EvNewStringUTF fn; EvExceptionClear].
    split; [reflexivity|]. state_simpl. split_conj; try reflexivity;
      try apply lookup_insert_eq; try apply F2; try congruence.
Qed.

Lemma cache_frame_refl (env : Env) (s : State) : cache_frame env s s.
Proof. unfold cache_frame. split_conj; try reflexivity. Qed.

Lemma cache_frame_trans (env : Env) (s1 s2 s3 : State) :
  cache_frame env s1 s2 -> cache_frame env s2 s3 -> cache_frame env s1 s3.
Proof.
  unfold cache_frame.
  intros (E1 & P1 & O1 & H1 & N1 & X1 & S1) (E2 & P2 & O2 & H2 & N2 & X2 & S2).
  split_conj; try congruence.
  etransitivity; eassumption.
Qed.

Ltac unfold_symbols :=
  unfold symbol_value, cached, lookup, cached_or, class_lookup in *.

Lemma findClass_value (env : Env) (name : string) (g : positive) (s : State) :
  class_lookup env name = Some g ->
  exists evs,
    findClass env name s =
      Ret g (mkState (errno s) (pending s) (objs s) (heap s) (statics s)
                     (ncalls s) (trace s ++ evs)) /\
    forallb is_cache_event evs = true.
Proof.
  unfold class_lookup, findClass, bind, ret, emit, modify, abort. intros H.
  destruct (FindClass env name) as [l|]; [|discriminate].
  rewrite H. exists [EvFindClass name; EvNewGlobalRef l; EvDeleteLocalRef].
  cache_simpl. rewrite <- !app_assoc. split; reflexivity.
Qed.

Lemma getErrnoExceptionClass_value (env : Env) (s : State) (h : positive) :
  symbol_value env (statics s) SymErrnoExceptionClass = Some h ->
  exists s', getErrnoExceptionClass env s = Ret h s' /\ cache_frame env s s'.
Proof.
  unfold getErrnoExceptionClass, bind, get, ret, modify. unfold_symbols. intros H.
  destruct (errnoExceptionClass (statics s)) as [c|] eqn:E.
  - inversion H; subst. exists s. split; [reflexivity | apply cache_frame_refl].
  - destruct (findClass_value env _ h s H) as (evs & -> & F).
    eexists. split; [reflexivity|]. unfold cache_frame. cache_simpl.
    split_conj; try reflexivity.
    + exists evs. auto.
    + intros []; unfold_symbols; cache_simpl; rewrite ?E, ?H; reflexivity.
Qed.

Lemma getFileDescriptorClass_value (env : Env) (s : State) (h : positive) :
  symbol_value env (statics s) SymFileDescriptorClass = Some h ->
  exists s', getFileDescriptorClass env s = Ret h s' /\ cache_frame env s s'.
Proof.
  unfold getFileDescriptorClass, bind, get, ret, modify. unfold_symbols. intros H.
  destruct (fileDescriptorClass (statics s)) as [c|] eqn:E.
  - inversion H; subst. exists s. split; [reflexivity | apply cache_frame_refl].
  - destruct (findClass_value env _ h s H) as (evs & -> & F).
    eexists. split; [reflexivity|]. unfold cache_frame. cache_simpl.
    split_conj; try reflexivity.
    + exists evs. auto.
    + intros []; unfold_symbols; cache_simpl; rewrite ?E, ?H; reflexivity.
Qed.

(** The value of a member is looked up in the value of its class. *)
Lemma member_class (env : Env) (st : Statics) (sym : Symbol) (h : positive) :
  symbol_value env st sym = Some h ->
  cached sym st = None ->
  match sym with
  | SymDescriptorField =>
      exists c, symbol_value env st SymFileDescriptorClass = Some c /\
                GetFieldID env c "descriptor" "I" = Some h
  | SymConstructor3 =>
      exists c, symbol_value env st SymErrnoExceptionClass = Some c /\
                GetMethodID env c "<init>"
                  "(Ljava/lang/String;ILjava/lang/Throwable;)V" = Some h
  | SymConstructor2 =>
      exists c, symbol_value env st SymErrnoExceptionClass = Some c /\
                GetMethodID env c "<init>" "(Ljava/lang/String;I)V" = Some h
  | _ => True
  end.
Proof.
  unfold_symbols. intros H C. rewrite C in H.
  destruct sym; auto; cbn in C.
  - destruct (fileDescriptorClass st); [eauto|].
    destruct (FindClass env _); [|discriminate].
    destruct (NewGlobalRef env _); [eauto | discriminate].
  - destruct (errnoExceptionClass st); [eauto|].
    destruct (FindClass env _); [|discriminate].
    destruct (NewGlobalRef env _); [eauto | discriminate].
  - destruct (errnoExceptionClass st); [eauto|].
    destruct (FindClass env _); [|discriminate].
    destruct (NewGlobalRef env _); [eauto | discriminate].
Qed.

Lemma getFileDescriptorDescriptorField_value (env : Env) (s : State) (h : positive) :
  symbol_value env (statics s) SymDescriptorField = Some h ->
  exists s', getFileDescriptorDescriptorField env s = Ret h s' /\
             cache_frame env s s'.
Proof.
  intros H. unfold getFileDescriptorDescriptorField.
  unfold bind at 1. unfold get at 1.
  destruct (fileDescriptorDescriptorField (statics s)) as [f|] eqn:E.
  - unfold symbol_value, cached_or in H. cbn in H. rewrite E in H.
    inversion H; subst. exists s. split; [reflexivity | apply cache_frame_refl].
  - destruct (member_class env _ _ _ H E) as (c & Vc & Vf).
    destruct (getFileDescriptorClass_value env s c Vc) as (s1 & R1 & F1).
    unfold bind, findField, emit, modify, ret. rewrite R1, Vf.
    eexists. split; [reflexivity|].
    eapply cache_frame_trans; [exact F1|].
    destruct F1 as (_ & _ & _ & _ & _ & _ & S1).
    unfold cache_frame. cache_simpl. split_conj; try reflexivity.
    + exists [EvGetFieldID c "descriptor" "I"]. auto.
    + pose proof (S1 SymDescriptorField) as Sf. rewrite H in Sf.
      pose proof (S1 SymFileDescriptorClass) as Sc. rewrite Vc in Sc.
      intros []; revert Sf Sc; unfold_symbols; cache_simpl;
        destruct (fileDescriptorClass (statics s1));
        destruct (fileDescriptorDescriptorField (statics s1));
        intros; simplify_eq; try reflexivity; try congruence.
Qed.

Lemma getConstructor3_value (env : Env) (s : State) (h : positive) :
  symbol_value env (statics s) SymConstructor3 = Some h ->
  exists s', getConstructor3 env s = Ret h s' /\ cache_frame env s s'.
Proof.
  intros H. unfold getConstructor3.
  unfold bind at 1. unfold get at 1.
  destruct (constructor3 (statics s)) as [f|] eqn:E.
  - unfold symbol_value, cached_or in H. cbn in H. rewrite E in H.
    inversion H; subst. exists s. split; [reflexivity | apply cache_frame_refl].
  - destruct (member_class env _ _ _ H E) as (c & Vc & Vf).
    destruct (getErrnoExceptionClass_value env s c Vc) as (s1 & R1 & F1).
    unfold bind, findMethod, emit, modify, ret. rewrite R1, Vf.
    eexists. split; [reflexivity|].
    eapply cache_frame_trans; [exact F1|].
    destruct F1 as (_ & _ & _ & _ & _ & _ & S1).
    unfold cache_frame. cache_simpl. split_conj; try reflexivity.
    + eexists [_]. split; reflexivity.
    + pose proof (S1 SymConstructor3) as Sf. rewrite H in Sf.
      pose proof (S1 SymErrnoExceptionClass) as Sc. rewrite Vc in Sc.
      intros []; revert Sf Sc; unfold_symbols; cache_simpl;
        destruct (errnoExceptionClass (statics s1));
        destruct (constructor3 (statics s1));
        intros; simplify_eq; try reflexivity; try congruence.
Qed.

Lemma getConstructor2_value (env : Env) (s : State) (h : positive) :
  symbol_value env (statics s) SymConstructor2 = Some h ->
  exists s', getConstructor2 env s = Ret h s' /\ cache_frame env s s'.
Proof.
  intros H. unfold getConstructor2.
  unfold bind at 1. unfold get at 1.
  destruct (constructor2 (statics s)) as [f|] eqn:E.
  - unfold symbol_value, cached_or in H. cbn in H. rewrite E in H.
    inversion H; subst. exists s. split; [reflexivity | apply cache_frame_refl].
  - destruct (member_class env _ _ _ H E) as (c & Vc & Vf).
    destruct (getErrnoExceptionClass_value env s c Vc) as (s1 & R1 & F1).
    unfold bind, findMethod, emit, modify, ret. rewrite R1, Vf.
    eexists. split; [reflexivity|].
    eapply cache_frame_trans; [exact F1|].
    destruct F1 as (_ & _ & _ & _ & _ & _ & S1).
    unfold cache_frame. cache_simpl. split_conj; try reflexivity.
    + eexists [_]. split; reflexivity.
    + pose proof (S1 SymConstructor2) as Sf. rewrite H in Sf.
      pose proof (S1 SymErrnoExceptionClass) as Sc. rewrite Vc in Sc.
      intros []; revert Sf Sc; unfold_symbols; cache_simpl;
        destruct (errnoExceptionClass (statics s1));
        destruct (constructor2 (statics s1));
        intros; simplify_eq; try reflexivity; try congruence.
Qed.

(** A symbol that has a value resolves to it; the resolution touches nothing
    but the cache and leaves the value of every symbol as it was. *)
Lemma resolve_value (env : Env) (sym : Symbol) (s : State) (h : positive) :
  symbol_value env (statics s) sym = Some h ->
  exists s', resolve env sym s = Ret h s' /\ cache_frame env s s'.
Proof.
  destruct sym; simpl;
    auto using getErrnoExceptionClass_value, getFileDescriptorClass_value,
      getFileDescriptorDescriptorField_value, getConstructor3_value,
      getConstructor2_value.
Qed.

(** The three resolutions at the head of [throwErrnoException]: when the
    symbols resolve they return them and touch nothing but the cache. *)
Lemma resolve_errno_symbols (env : Env) (s : State) (cls c3 c2 : positive) :
  errno_symbols env (statics s) = Some (cls, c3, c2) ->
  exists sa sb sc,
    getConstructor3 env s = Ret c3 sa /\
    getConstructor2 env sa = Ret c2 sb /\
    getErrnoExceptionClass env sb = Ret cls sc /\
    cache_frame env s sc.
Proof.
  intros H. unfold errno_symbols in H.
  destruct (symbol_value env (statics s) SymErrnoExceptionClass) as [cls'|] eqn:V1;
    [|discriminate].
  destruct (symbol_value env (statics s) SymConstructor3) as [c3'|] eqn:V3;
    [|discriminate].
  destruct (symbol_value env (statics s) SymConstructor2) as [c2'|] eqn:V2;
    [|discriminate].
  inversion H; subst; clear H.
  destruct (getConstructor3_value env s c3 V3) as (sa & Ra & Fa).
  pose proof Fa as (_ & _ & _ & _ & _ & _ & Sa). rewrite <- Sa in V2, V1.
  destruct (getConstructor2_value env sa c2 V2) as (sb & Rb & Fb).
  pose proof Fb as (_ & _ & _ & _ & _ & _ & Sb). rewrite <- Sb in V1.
  destruct (getErrnoExceptionClass_value env sb cls V1) as (sc & Rc & Fc).
  exists sa, sb, sc. split_conj; auto.
  eauto using cache_frame_trans.
Qed.

(** [throwErrnoException] is [throwException] on the resolved symbols, with
    the value [errno] had on entry. *)
Lemma throwErrnoException_run (env : Env) (fn : string) (s : State)
    (cls c3 c2 : positive) :
  errno_symbols env (statics s) = Some (cls, c3, c2) ->
  exists sc,
    throwErrnoException env fn s = throwException env cls c3 c2 fn (errno s) sc /\
    cache_frame env (log (EvErrnoRead ThrowCapture) s) sc.
Proof.
  intros H.
  destruct (resolve_errno_symbols env (log (EvErrnoRead ThrowCapture) s) cls c3 c2 H)
    as (sa & sb & sc & Ra & Rb & Rc & F).
  exists sc. split; [|exact F].
  unfold throwErrnoException, read_errno, bind, emit, modify, get.
  rewrite Ra, Rb, Rc. reflexivity.
Qed.

(** What [throwErrnoException] leaves behind when the symbols resolve. *)
Lemma throwErrnoException_pending (env : Env) (fn : string) (s : State)
    (cls c3 c2 : positive) :
  errno_symbols env (statics s) = Some (cls, c3, c2) ->
  exists (x : positive) (s' : State) (evs : list Event),
    throwErrnoException env fn s = Ret tt s' /\
    pending s' = Some x /\
    objs s !! x = None /\
    objs s' !! x = Some (Constructed cls (chosen_constructor (pending s) c3 c2)
                           (detail_message env fn) (errno s) (pending s)) /\
    errno s' = errno s /\
    trace s' = trace s ++ evs /\ In (EvThrow x) evs.
Proof.
  intros Y.
  destruct (throwErrnoException_run env fn s cls c3 c2 Y) as (sc & -> & Fc).
  destruct Fc as (Ec & Pc & Oc & _ & _ & (evsc & Tc & _) & _). cache_simpl.
  destruct (throwException_run env cls c3 c2 fn (errno s) sc)
    as (x & s' & pre & RX & PX & NX & IX & OX & TX & _ & _ & EX & _).
  rewrite Pc, Oc in *.
  eexists x, s', _. split_conj; try eassumption; try reflexivity.
  - congruence.
  - rewrite TX, Tc, <- !app_assoc. reflexivity.
  - repeat (apply in_or_app; right). cbn. auto.
Qed.

(** ** Every exported function on file contexts follows the protocol *)

Lemma bind_bind {A B C} (m : M A) (f : A -> M B) (g : B -> M C) (s : State) :
  bind (bind m f) g s = bind m (fun a => bind (f a) g) s.
Proof. unfold bind. destruct (m s); reflexivity. Qed.

Lemma bind_ret_l {A B} (a : A) (f : A -> M B) (s : State) :
  bind (ret a) f s = f a s.
Proof. reflexivity. Qed.

Lemma bind_cong {A B} (m : M A) (f g : A -> M B) (s : State) :
  (forall a s', f a s' = g a s') -> bind m f s = bind m g s.
Proof. intros H. unfold bind. destruct (m s); auto. Qed.

(** Both sides run the same computations in the same order. *)
Ltac same_steps :=
  repeat first
    [ reflexivity
    | progress cbv beta iota
    | progress cbn [release]
    | rewrite bind_bind
    | rewrite bind_ret_l
    | match goal with
      | |- bind ?m _ ?s = bind ?m _ ?s => apply bind_cong; intros ? ?
      end
    | match goal with
      | |- context [let (_, _) := ?p in _] => destruct p
      | |- context [if ?b then _ else _] => destruct b
      end ].

Lemma run_protocol (env : Env) (fuel : nat) (c : Call) (s : State) :
  run env fuel c s = protocol env fuel c s.
Proof.
  destruct c;
    unfold run, protocol, marshal, native_phase, conclude, raise, deliver,
      Java_me_zhanghai_android_libselinux_SeLinux_fgetfilecon,
      Java_me_zhanghai_android_libselinux_SeLinux_fsetfilecon,
      Java_me_zhanghai_android_libselinux_SeLinux_getfilecon,
      Java_me_zhanghai_android_libselinux_SeLinux_lgetfilecon,
      Java_me_zhanghai_android_libselinux_SeLinux_setfilecon,
      Java_me_zhanghai_android_libselinux_SeLinux_lsetfilecon,
      doGetfilecon, doSetfilecon,
      failure_value, native_name, is_get;
    same_steps.
Qed.

(** ** What each phase can do to the state *)

#[local] Instance heap_grows_preorder : PreOrder heap_grows.
Proof.
  unfold heap_grows. split; [intros s; reflexivity|].
  intros s1 s2 s3 H1 H2. etransitivity; eassumption.
Qed.

#[local] Instance heap_shrinks_preorder : PreOrder heap_shrinks.
Proof.
  unfold heap_shrinks. split; [intros s; reflexivity|].
  intros s1 s2 s3 H1 H2. etransitivity; eassumption.
Qed.

(** Decomposes a [run_rel] goal along the structure of the computation. *)
Ltac run_rel_structure :=
  repeat match goal with
    | |- run_rel _ (ret _) => apply run_rel_ret; solve [typeclasses eauto]
    | |- run_rel _ (get _) => apply run_rel_get; solve [typeclasses eauto]
    | |- run_rel _ undefined => apply run_rel_undefined; solve [typeclasses eauto]
    | |- run_rel _ (fun _ => OutOfFuel) => apply run_rel_out_of_fuel
    | |- run_rel _ (bind _ _) =>
        apply run_rel_bind; [typeclasses eauto | | intros ?]
    | |- run_rel _ (modify _) => apply run_rel_modify; intros ?
    | |- run_rel _ abort => apply run_rel_abort; intros ?
    | |- run_rel _ (match ?x with _ => _ end) => destruct x
    end.

#[local] Instance native_frame_preorder : PreOrder native_frame.
Proof.
  unfold native_frame. split.
  - intros s. split_conj; reflexivity.
  - intros s1 s2 s3 (P1 & O1 & S1 & H1 & X1) (P2 & O2 & S2 & H2 & X2).
    split_conj; try congruence; etransitivity; eassumption.
Qed.

Ltac native_frame_leaf :=
  unfold native_frame, heap_grows; cache_simpl; split_conj;
  try first [ reflexivity
            | apply extends_log; reflexivity
            | apply extends_same; reflexivity ].

Lemma read_args_same (args : list CArg) : run_rel eq (read_args args).
Proof.
  induction args as [|[z|p] args IH]; cbn [read_args].
  - run_rel_structure.
  - run_rel_structure; try exact IH.
  - unfold load_string. run_rel_structure; try exact IH.
Qed.

Lemma read_args_frame (args : list CArg) :
  run_rel native_frame (read_args args).
Proof.
  intros s s' H. apply read_args_same in H. subst. reflexivity.
Qed.

Lemma alloc_block_frame (bs : list byte) : run_rel native_frame (alloc_block bs).
Proof.
  intros s s' H. unfold alloc_block, bind, get, modify, ret in H.
  cbn in H. inversion H; subst; clear H. native_frame_leaf.
  apply insert_subseteq, fresh_block.
Qed.

Lemma call_native_frame (env : Env) (name : string) (args : list CArg) :
  run_rel native_frame (call_native env name args).
Proof.
  unfold call_native, emit.
  apply run_rel_bind; [typeclasses eauto | apply read_args_frame | intros ?].
  run_rel_structure; native_frame_leaf.
Qed.

Lemma call_native_get_frame (env : Env) (name : string) (args : list CArg)
    (context : option positive) :
  run_rel native_frame (call_native_get env name args context).
Proof.
  unfold call_native_get, emit.
  apply run_rel_bind; [typeclasses eauto | apply read_args_frame | intros ?].
  run_rel_structure; try apply alloc_block_frame; native_frame_leaf.
Qed.

Lemma retry_loop_rel {L} (R : State -> State -> Prop) `{!PreOrder R}
    (exp : L -> M (Z * L)) :
  (forall l, run_rel R (exp l)) ->
  run_rel R (read_errno RetryCondition) ->
  forall fuel l, run_rel R (retry_loop fuel exp l).
Proof.
  intros He Hr. induction fuel as [|fuel IH]; intros l; cbn [retry_loop].
  - apply run_rel_out_of_fuel.
  - apply run_rel_bind; [typeclasses eauto | apply He | intros [v l']].
    apply run_rel_bind; [typeclasses eauto | apply Hr | intros e].
    destruct (e =? EINTR); [apply IH | apply run_rel_ret; typeclasses eauto].
Qed.

Lemma TEMP_FAILURE_RETRY_frame {L} (exp : L -> M (Z * L)) (fuel : nat) (l : L) :
  (forall l, run_rel native_frame (exp l)) ->
  run_rel native_frame (TEMP_FAILURE_RETRY fuel exp l).
Proof.
  intros He. unfold TEMP_FAILURE_RETRY, write_errno, emit.
  apply run_rel_bind; [typeclasses eauto | | intros _].
  - run_rel_structure; native_frame_leaf.
  - apply retry_loop_rel; [typeclasses eauto | exact He |].
    unfold read_errno, emit. run_rel_structure; native_frame_leaf.
Qed.

Lemma native_phase_frame (env : Env) (fuel : nat) (c : Call) (args : list CArg) :
  run_rel native_frame (native_phase env fuel c args).
Proof.
  unfold native_phase. destruct (is_get c).
  - apply TEMP_FAILURE_RETRY_frame. intros l. apply call_native_get_frame.
  - apply run_rel_bind; [typeclasses eauto | | intros [v u]].
    + apply TEMP_FAILURE_RETRY_frame. intros _.
      apply run_rel_bind; [typeclasses eauto | apply call_native_frame | intros r].
      apply run_rel_ret; typeclasses eauto.
    + apply run_rel_ret; typeclasses eauto.
Qed.

(** A resolution that returns has returned the value of the symbol. *)
Lemma resolve_sound (env : Env) (sym : Symbol) (s s' : State) (h : positive) :
  resolve env sym s = Ret h s' -> symbol_value env (statics s) sym = Some h.
Proof.
  destruct s as [e p o hp [k1 k2 k3 k4 k5] n tr].
  unfold symbol_value. destruct sym; unfold_cache; simpl; intros H;
    repeat (break_match; simpl in *; try congruence; subst);
    repeat invert_outcome; simplify_eq; try reflexivity; try congruence.
Qed.

Lemma resolve_ret_frame (env : Env) (sym : Symbol) (s s' : State) (h : positive) :
  resolve env sym s = Ret h s' -> cache_frame env s s'.
Proof.
  intros H. pose proof (resolve_sound _ _ _ _ _ H) as V.
  destruct (resolve_value env sym s h V) as (s'' & R & F).
  rewrite R in H. inversion H; subst. exact F.
Qed.

(** ** Marshalling the inputs *)

(** Whenever [mallocStringFromBytes] returns, it has allocated one fresh
    block and changed nothing else. *)
Lemma mallocStringFromBytes_ret (env : Env) (B : list byte) (s s1 : State)
    (p : positive) :
  mallocStringFromBytes env B s = Ret p s1 ->
  p = fresh (dom (heap s)) /\
  exists n blk,
    s1 = mkState (errno s) (pending s) (objs s) (<[p := blk]> (heap s))
                 (statics s) (ncalls s)
                 (trace s ++ [EvGetByteArrayElements; EvGetArrayLength;
                              EvMalloc n p; EvReleaseByteArrayElements]).
Proof.
  unfold mallocStringFromBytes, GetByteArrayElements, GetArrayLength, malloc,
    alloc_block, memcpy, ReleaseByteArrayElements, store_byte, emit, bind, ret,
    get, modify.
  cache_simpl. rewrite lookup_insert_eq.
  match goal with |- context [if ?c then _ else _] => destruct c end;
    [|unfold undefined; discriminate].
  cache_simpl. rewrite lookup_insert_eq.
  match goal with |- context [if ?c then _ else _] => destruct c end;
    [|unfold undefined; discriminate].
  intros H. inversion H; subst; clear H. split; [reflexivity|].
  eexists; eexists. rewrite !insert_insert_eq, <- !app_assoc. reflexivity.
Qed.

Lemma marshal_frame_malloc (env : Env) (B : list byte) (s s1 : State) (p : positive) :
  mallocStringFromBytes env B s = Ret p s1 -> marshal_frame env [p] s s1.
Proof.
  intros H. apply mallocStringFromBytes_ret in H as (-> & n & blk & ->).
  unfold marshal_frame, heap_grows. cache_simpl. split_conj; try reflexivity.
  - apply insert_subseteq, fresh_block.
  - apply NoDup_singleton.
  - intros p [<-|[]]. split; [apply fresh_block|].
    rewrite lookup_insert_eq. eauto.
  - eexists. split_conj; reflexivity.
Qed.

Lemma mallocs_app (l1 l2 : list Event) : mallocs (l1 ++ l2) = mallocs l1 ++ mallocs l2.
Proof.
  induction l1 as [|e l1 IH]; [reflexivity|].
  destruct e; cbn [mallocs app]; rewrite ?IH; reflexivity.
Qed.

Lemma frees_app (l1 l2 : list Event) : frees (l1 ++ l2) = frees l1 ++ frees l2.
Proof.
  induction l1 as [|e l1 IH]; [reflexivity|].
  destruct e; cbn [frees app]; rewrite ?IH; reflexivity.
Qed.

(** No event of class [P] is of class [Q]. *)
Lemma class_excludes (P Q : Event -> bool) (evs : list Event) :
  (forall e, P e = true -> Q e = false) ->
  forallb P evs = true -> existsb Q evs = false.
Proof.
  intros D. induction evs as [|e evs IH]; [reflexivity|].
  cbn. intros H. apply andb_prop in H as [He H].
  rewrite (D e He), (IH H). reflexivity.
Qed.

Lemma class_no_mallocs (P : Event -> bool) (evs : list Event) :
  (forall n p, P (EvMalloc n p) = false) ->
  forallb P evs = true -> mallocs evs = [].
Proof.
  intros D. induction evs as [|e evs IH]; [reflexivity|].
  cbn [forallb]. intros H. apply andb_prop in H as [He H].
  destruct e; cbn [mallocs]; auto. rewrite D in He. discriminate.
Qed.

Lemma class_no_frees (P : Event -> bool) (evs : list Event) :
  (forall p, P (EvFree p) = false) ->
  forallb P evs = true -> frees evs = [].
Proof.
  intros D. induction evs as [|e evs IH]; [reflexivity|].
  cbn [forallb]. intros H. apply andb_prop in H as [He H].
  destruct e; cbn [frees]; auto. rewrite D in He. discriminate.
Qed.

Lemma class_weaken (P Q : Event -> bool) (evs : list Event) :
  (forall e, P e = true -> Q e = true) ->
  forallb P evs = true -> forallb Q evs = true.
Proof. rewrite !forallb_forall. auto. Qed.

Lemma cache_is_marshal (e : Event) : is_cache_event e = true -> is_marshal_event e = true.
Proof. destruct e; cbn; auto. Qed.

Lemma marshal_frame_app (env : Env) (b1 b2 : list positive) (s sa s1 : State) :
  marshal_frame env b1 s sa -> marshal_frame env b2 sa s1 ->
  marshal_frame env (b1 ++ b2) s s1.
Proof.
  unfold marshal_frame, heap_grows.
  intros (E1 & P1 & O1 & N1 & S1 & H1 & D1 & L1 & evs1 & T1 & C1 & M1 & F1 & R1 & W1)
         (E2 & P2 & O2 & N2 & S2 & H2 & D2 & L2 & evs2 & T2 & C2 & M2 & F2 & R2 & W2).
  split_conj; try congruence.
  - etransitivity; eassumption.
  - apply NoDup_app. split_conj; auto.
    intros p I1 I2. apply list_elem_of_In in I1, I2.
    destruct (L1 p I1) as [_ [b Hb]]. destruct (L2 p I2) as [Hn _]. congruence.
  - intros p I. apply in_app_or in I as [I|I].
    + destruct (L1 p I) as [Hn [b Hb]]. split; [exact Hn|].
      exists b. eapply lookup_weaken; eassumption.
    + destruct (L2 p I) as [Hn Hs]. split; [|exact Hs].
      eapply lookup_weaken_None; eassumption.
  - exists (evs1 ++ evs2). rewrite T2, T1, <- app_assoc.
    rewrite forallb_app, mallocs_app, frees_app, !existsb_app.
    rewrite C1, C2, M1, M2, F1, F2, R1, R2, W1, W2.
    split_conj; reflexivity.
Qed.

Lemma marshal_frame_cache (env : Env) (s s' : State) :
  cache_frame env s s' -> marshal_frame env [] s s'.
Proof.
  unfold marshal_frame, cache_frame, heap_grows.
  intros (E & P & O & H & N & (evs & T & C) & S).
  split_conj; auto.
  - rewrite H. reflexivity.
  - constructor.
  - intros p [].
  - exists evs. split_conj; auto.
    + eapply class_weaken; [apply cache_is_marshal | exact C].
    + eapply class_no_mallocs; [|exact C]. reflexivity.
    + eapply class_no_frees; [|exact C]. reflexivity.
    + eapply class_excludes; [|exact C]. intros []; cbn; congruence.
    + eapply class_excludes; [|exact C]. intros []; cbn; congruence.
Qed.

Lemma marshal_frame_GetIntField (env : Env) (f : positive) (s : State) :
  marshal_frame env [] s (log (EvGetIntField f) s).
Proof.
  unfold marshal_frame, heap_grows. cache_simpl. split_conj; try reflexivity.
  - constructor.
  - intros p [].
  - eexists. split_conj; reflexivity.
Qed.

(** Whenever marshalling returns, it has left the buffers it returns and
    nothing else. *)
Lemma marshal_ret (env : Env) (c : Call) (s s1 : State)
    (args : list CArg) (bufs : list positive) :
  marshal env c s = Ret (args, bufs) s1 -> marshal_frame env bufs s s1.
Proof.
  destruct c; unfold marshal, GetIntField, emit, modify, bind, ret; intros H.
  - destruct (getFileDescriptorDescriptorField env s) as [f sa| | |] eqn:G;
      try discriminate.
    inversion H; subst; clear H.
    apply (resolve_ret_frame env SymDescriptorField) in G.
    apply (marshal_frame_app env [] [] s sa);
      [apply marshal_frame_cache, G | apply marshal_frame_GetIntField].
  - destruct (getFileDescriptorDescriptorField env s) as [f sa| | |] eqn:G;
      try discriminate.
    destruct (mallocStringFromBytes env javaContext _) as [p sb| | |] eqn:A;
      try discriminate.
    inversion H; subst; clear H.
    apply (resolve_ret_frame env SymDescriptorField) in G.
    apply marshal_frame_malloc in A.
    apply (marshal_frame_app env [] [p] s sa); [apply marshal_frame_cache, G|].
    apply (marshal_frame_app env [] [p] sa (log (EvGetIntField f) sa) s1);
      [apply marshal_frame_GetIntField | exact A].
  - destruct (mallocStringFromBytes env javaPath s) as [p sa| | |] eqn:A;
      try discriminate.
    inversion H; subst; clear H. apply marshal_frame_malloc in A. exact A.
  - destruct (mallocStringFromBytes env javaPath s) as [p sa| | |] eqn:A;
      try discriminate.
    inversion H; subst; clear H. apply marshal_frame_malloc in A. exact A.
  - destruct (mallocStringFromBytes env javaPath s) as [p sa| | |] eqn:A;
      try discriminate.
    destruct (mallocStringFromBytes env javaContext sa) as [q sb| | |] eqn:B;
      try discriminate.
    inversion H; subst; clear H.
    apply marshal_frame_malloc in A, B.
    apply (marshal_frame_app env [p] [q] s sa); assumption.
  - destruct (mallocStringFromBytes env javaPath s) as [p sa| | |] eqn:A;
      try discriminate.
    destruct (mallocStringFromBytes env javaContext sa) as [q sb| | |] eqn:B;
      try discriminate.
    inversion H; subst; clear H.
    apply marshal_frame_malloc in A, B.
    apply (marshal_frame_app env [p] [q] s sa); assumption.
Qed.

(** ** Releasing the inputs *)

Lemma release_run (bufs : list positive) (s : State) :
  NoDup bufs ->
  (forall p, In p bufs -> is_Some (heap s !! p)) ->
  exists s3,
    release bufs s = Ret tt s3 /\
    errno s3 = errno s /\ pending s3 = pending s /\ objs s3 = objs s /\
    statics s3 = statics s /\ ncalls s3 = ncalls s /\
    heap_shrinks s s3 /\
    (forall p, In p bufs -> heap s3 !! p = None) /\
    trace s3 = trace s ++ map EvFree bufs.
Proof.
  revert s. induction bufs as [|p bufs IH]; intros s D L; cbn [release map].
  - exists s. unfold heap_shrinks. split_conj; try reflexivity.
    + intros p [].
    + rewrite app_nil_r. reflexivity.
  - apply NoDup_cons in D as [Np D].
    destruct (L p (or_introl eq_refl)) as [b Hb].
    unfold free, emit. unfold bind, get, modify. cbv beta iota. rewrite Hb.
    cbv beta iota.
    match goal with |- context [release bufs ?x] => set (s1 := x) end.
    destruct (IH s1 D) as (s3 & R & E & P & O & S & N & H & F & T).
    { intros q Iq. subst s1. cache_simpl.
      destruct (L q (or_intror Iq)) as [b' Hb'].
      exists b'. rewrite lookup_delete_ne; [exact Hb'|].
      intros ->. apply Np. apply list_elem_of_In. exact Iq. }
    exists s3. unfold heap_shrinks in *. subst s1. cache_simpl.
    split_conj; try congruence.
    + etransitivity; [exact H | apply delete_subseteq].
    + intros q [<-|Iq]; [|auto].
      eapply lookup_weaken_None; [|exact H]. apply lookup_delete_eq.
    + rewrite T, <- app_assoc. reflexivity.
Qed.

(** ** After the native call *)

#[local] Instance epilogue_frame_preorder : PreOrder epilogue_frame.
Proof.
  unfold epilogue_frame. split.
  - intros s. split; reflexivity.
  - intros s1 s2 s3 [H1 X1] [H2 X2]. split; etransitivity; eassumption.
Qed.

#[local] Instance deliver_frame_preorder : PreOrder deliver_frame.
Proof.
  unfold deliver_frame. split.
  - intros s. split_conj; reflexivity.
  - intros s1 s2 s3 (E1 & S1 & X1) (E2 & S2 & X2).
    split_conj; try congruence. etransitivity; eassumption.
Qed.

Ltac epilogue_leaf :=
  unfold epilogue_frame, deliver_frame, heap_shrinks; cache_simpl; split_conj;
  try first [ reflexivity
            | apply extends_log; reflexivity
            | apply extends_same; reflexivity ].

Lemma freecon_epilogue (p : option positive) : run_rel epilogue_frame (freecon p).
Proof.
  intros s s' H. destruct p as [q|]; unfold freecon, bind, get, emit, modify in H.
  - destruct (heap s !! q); inversion H; subst; [|reflexivity].
    epilogue_leaf. apply delete_subseteq.
  - inversion H; subst. epilogue_leaf.
Qed.

Lemma freecon_deliver (p : option positive) : run_rel deliver_frame (freecon p).
Proof.
  intros s s' H. destruct p as [q|]; unfold freecon, bind, get, emit, modify in H.
  - destruct (heap s !! q); inversion H; subst; [|reflexivity].
    epilogue_leaf.
  - inversion H; subst. epilogue_leaf.
Qed.

Lemma newBytesFromString_epilogue (env : Env) (p : option positive) :
  run_rel epilogue_frame (newBytesFromString env p).
Proof.
  unfold newBytesFromString, strlen, load_string, NewByteArray,
    SetByteArrayRegion, raise_OutOfMemoryError, new_object, emit.
  run_rel_structure; epilogue_leaf.
Qed.

Lemma newBytesFromString_deliver (env : Env) (p : option positive) :
  run_rel deliver_frame (newBytesFromString env p).
Proof.
  unfold newBytesFromString, strlen, load_string, NewByteArray,
    SetByteArrayRegion, raise_OutOfMemoryError, new_object, emit.
  run_rel_structure; epilogue_leaf.
Qed.

Lemma throwErrnoException_epilogue (env : Env) (fn : string) :
  run_rel epilogue_frame (throwErrnoException env fn).
Proof.
  unfold throwErrnoException, throwException, getConstructor3, getConstructor2,
    getErrnoExceptionClass, findClass, findMethod, read_errno,
    ExceptionCheck, ExceptionOccurred, ExceptionClear, NewStringUTF, NewObject,
    Throw, raise_OutOfMemoryError, new_object, emit.
  run_rel_structure; epilogue_leaf.
Qed.

(** ** Computations without a loop end *)

Lemma no_loop_ret {A} (a : A) : no_loop (ret a).
Proof. intros s. discriminate. Qed.

Lemma no_loop_get {A} (f : State -> A) : no_loop (get f).
Proof. intros s. discriminate. Qed.

Lemma no_loop_modify (f : State -> State) : no_loop (modify f).
Proof. intros s. discriminate. Qed.

Lemma no_loop_undefined {A} : no_loop (@undefined A).
Proof. intros s. discriminate. Qed.

Lemma no_loop_abort {A} : no_loop (@abort A).
Proof. intros s. discriminate. Qed.

Lemma no_loop_bind {A B} (m : M A) (k : A -> M B) :
  no_loop m -> (forall a, no_loop (k a)) -> no_loop (bind m k).
Proof.
  intros Hm Hk s. unfold bind. specialize (Hm s).
  destruct (m s); try discriminate; [apply Hk | congruence].
Qed.

Ltac no_loop_structure :=
  repeat match goal with
    | |- no_loop (ret _) => apply no_loop_ret
    | |- no_loop (get _) => apply no_loop_get
    | |- no_loop undefined => apply no_loop_undefined
    | |- no_loop abort => apply no_loop_abort
    | |- no_loop (modify _) => apply no_loop_modify
    | |- no_loop (bind _ _) => apply no_loop_bind; [| intros ?]
    | |- no_loop (match ?x with _ => _ end) => destruct x
    end.

Lemma throwErrnoException_no_loop (env : Env) (fn : string) :
  no_loop (throwErrnoException env fn).
Proof.
  unfold throwErrnoException, throwException, getConstructor3, getConstructor2,
    getErrnoExceptionClass, findClass, findMethod, read_errno,
    ExceptionCheck, ExceptionOccurred, ExceptionClear, NewStringUTF, NewObject,
    Throw, raise_OutOfMemoryError, new_object, emit.
  no_loop_structure.
Qed.

Lemma deliver_no_loop (env : Env) (c : Call) (context : option positive) :
  no_loop (deliver env c context).
Proof.
  unfold deliver, newBytesFromString, strlen, load_string, NewByteArray,
    SetByteArrayRegion, raise_OutOfMemoryError, new_object, freecon, emit.
  no_loop_structure.
Qed.

Lemma no_loop_final {A} (m : M A) (s : State) :
  no_loop m -> exists s', final_state (m s) = Some s'.
Proof.
  intros H. specialize (H s). destruct (m s); cbn; eauto. congruence.
Qed.

(** ** From the native call to the result *)

(** Once the inputs are marshalled and the native call has returned, what
    is left of an exported function is: the frees, the inspection of
    [errno], and raising or delivering. *)
Lemma after_native (env : Env) (fuel : nat) (c : Call) (s s1 s2 : State)
    (args : list CArg) (bufs : list positive) (v : Z) (ctx : option positive) :
  marshal env c s = Ret (args, bufs) s1 ->
  native_phase env fuel c args s1 = Ret (v, ctx) s2 ->
  exists s3,
    run env fuel c s =
      (if negb (errno s2 =? 0) then raise env c else deliver env c ctx)
        (log (EvErrnoRead ResultTest) s3) /\
    marshal_frame env bufs s s1 /\
    native_frame s1 s2 /\
    errno s3 = errno s2 /\ pending s3 = pending s2 /\ objs s3 = objs s2 /\
    statics s3 = statics s2 /\ ncalls s3 = ncalls s2 /\
    heap_shrinks s2 s3 /\
    (forall p, In p bufs -> heap s3 !! p = None) /\
    trace s3 = trace s2 ++ map EvFree bufs.
Proof.
  intros H1 H2.
  pose proof (marshal_ret _ _ _ _ _ _ H1) as F1.
  pose proof (run_rel_ret_state _ _ _ _ _ (native_phase_frame env fuel c args) H2)
    as F2.
  destruct (release_run bufs s2) as (s3 & R & E & P & O & S & N & H & L & T).
  { apply F1. }
  { intros p I. destruct F1 as (_ & _ & _ & _ & _ & _ & _ & L & _).
    destruct (L p I) as [_ [b Hb]]. exists b.
    destruct F2 as (_ & _ & _ & G & _). eapply lookup_weaken; eassumption. }
  exists s3. split_conj; auto.
  rewrite run_protocol. unfold protocol, conclude, read_errno, emit.
  unfold bind at 1. rewrite H1. unfold bind at 1. rewrite H2.
  unfold bind at 1. rewrite R.
  unfold bind, modify, get. cbv beta iota. cache_simpl. rewrite E. reflexivity.
Qed.

(** The failure path: [errno] is nonzero after the native call. *)
Lemma failure_path (env : Env) (fuel : nat) (c : Call) (s s1 s2 : State)
    (args : list CArg) (bufs : list positive) (v : Z) (ctx : option positive)
    (cls c3 c2 : positive) :
  marshal env c s = Ret (args, bufs) s1 ->
  native_phase env fuel c args s1 = Ret (v, ctx) s2 ->
  errno s2 <> 0 ->
  errno_symbols env (statics s) = Some (cls, c3, c2) ->
  exists (x : positive) (s' : State) (evs : list Event),
    run env fuel c s = Ret (failure_value c) s' /\
    pending s' = Some x /\
    objs s !! x = None /\
    objs s' !! x = Some (Constructed cls (chosen_constructor (pending s) c3 c2)
                           (detail_message env (native_name c)) (errno s2)
                           (pending s)) /\
    errno s' = errno s2 /\
    trace s' = trace s ++ evs /\ In (EvThrow x) evs.
Proof.
  intros H1 H2 E Y.
  destruct (after_native _ _ _ _ _ _ _ _ _ _ H1 H2)
    as (s3 & R & F1 & F2 & E3 & P3 & O3 & S3 & N3 & H3 & L3 & T3).
  destruct F1 as (E1 & P1 & O1 & N1 & Y1 & G1 & D1 & L1 & evs1 & T1 & _).
  destruct F2 as (P2 & O2 & S2 & G2 & evs2 & T2 & _).
  rewrite R. destruct (Z.eqb_spec (errno s2) 0) as [|_]; [contradiction|].
  cbn [negb]. unfold raise.
  set (s4 := log (EvErrnoRead ResultTest) s3).
  assert (Y4 : errno_symbols env (statics s4) = Some (cls, c3, c2)).
  { subst s4. cache_simpl. rewrite S3, S2. unfold errno_symbols in *.
    rewrite !Y1. exact Y. }
  destruct (throwErrnoException_run env (native_name c) s4 cls c3 c2 Y4)
    as (sc & RT & Fc).
  destruct Fc as (Ec & Pc & Oc & _ & _ & (evsc & Tc & _) & _).
  destruct (throwException_run env cls c3 c2 (native_name c) (errno s4) sc)
    as (x & s' & pre & RX & PX & NX & IX & OX & TX & _ & _ & EX & _).
  unfold bind. rewrite RT, RX. cbv beta iota.
  subst s4. cache_simpl.
  rewrite Pc, Oc, P3, O3, P2, O2, P1, O1, E3 in *.
  eexists x, s', _. split_conj; try eassumption; try reflexivity.
  - congruence.
  - rewrite TX, Tc, T3, T2, T1, <- !app_assoc. reflexivity.
  - repeat (apply in_or_app; right). cbn. auto.
Qed.

Lemma frees_map_EvFree (bufs : list positive) : frees (map EvFree bufs) = bufs.
Proof. induction bufs as [|p bufs IH]; cbn; [|rewrite IH]; reflexivity. Qed.

Lemma mallocs_map_EvFree (bufs : list positive) : mallocs (map EvFree bufs) = [].
Proof. induction bufs as [|p bufs IH]; cbn; auto. Qed.

Lemma existsb_map_EvFree (Q : Event -> bool) (bufs : list positive) :
  (forall p, Q (EvFree p) = false) -> existsb Q (map EvFree bufs) = false.
Proof.
  intros H. induction bufs as [|p bufs IH]; cbn; [|rewrite H, IH]; reflexivity.
Qed.

Lemma raise_epilogue (env : Env) (c : Call) : run_rel epilogue_frame (raise env c).
Proof.
  unfold raise. apply run_rel_bind; [typeclasses eauto | | intros _].
  - apply throwErrnoException_epilogue.
  - apply run_rel_ret; typeclasses eauto.
Qed.

Lemma deliver_epilogue (env : Env) (c : Call) (ctx : option positive) :
  run_rel epilogue_frame (deliver env c ctx).
Proof.
  unfold deliver. destruct (is_get c).
  - apply run_rel_bind; [typeclasses eauto | | intros r].
    + apply newBytesFromString_epilogue.
    + apply run_rel_bind; [typeclasses eauto | | intros _].
      * apply freecon_epilogue.
      * apply run_rel_ret; typeclasses eauto.
  - apply run_rel_ret; typeclasses eauto.
Qed.

Lemma deliver_deliver (env : Env) (c : Call) (ctx : option positive) :
  run_rel deliver_frame (deliver env c ctx).
Proof.
  unfold deliver. destruct (is_get c).
  - apply run_rel_bind; [typeclasses eauto | | intros r].
    + apply newBytesFromString_deliver.
    + apply run_rel_bind; [typeclasses eauto | | intros _].
      * apply freecon_deliver.
      * apply run_rel_ret; typeclasses eauto.
  - apply run_rel_ret; typeclasses eauto.
Qed.

Lemma raise_no_loop (env : Env) (c : Call) : no_loop (raise env c).
Proof.
  unfold raise. apply no_loop_bind; [apply throwErrnoException_no_loop|].
  intros _. apply no_loop_ret.
Qed.

(** The shape of every run that gets past the native call, however it ends:
    the buffers are allocated and freed in front of the inspection of
    [errno]; after it there is only raising or delivering. *)
Lemma run_shape (env : Env) (fuel : nat) (c : Call) (s s1 s2 : State)
    (args : list CArg) (bufs : list positive) (v : Z) (ctx : option positive) :
  marshal env c s = Ret (args, bufs) s1 ->
  native_phase env fuel c args s1 = Ret (v, ctx) s2 ->
  exists (s' : State) (before after : list Event),
    final_state (run env fuel c s) = Some s' /\
    trace s' = trace s ++ before ++ EvErrnoRead ResultTest :: after /\
    NoDup bufs /\
    mallocs before = bufs /\ frees before = bufs /\
    existsb is_result_test before = false /\
    existsb is_throw before = false /\
    forallb (fun e => is_raise_event e || is_deliver_event e) after = true /\
    (forall p, In p bufs -> heap s' !! p = None) /\
    (errno s2 = 0 -> forallb is_deliver_event after = true /\ errno s' = 0).
Proof.
  intros H1 H2.
  destruct (after_native _ _ _ _ _ _ _ _ _ _ H1 H2)
    as (s3 & R & F1 & F2 & E3 & P3 & O3 & S3 & N3 & H3 & L3 & T3).
  destruct F1 as (E1 & P1 & O1 & N1 & Y1 & G1 & D1 & L1 & evs1 & T1 & C1 & M1 &
                  Fr1 & R1 & W1).
  destruct F2 as (P2 & O2 & S2 & G2 & evs2 & T2 & C2).
  set (s4 := log (EvErrnoRead ResultTest) s3) in *.
  set (tail := if negb (errno s2 =? 0) then raise env c else deliver env c ctx) in *.
  assert (NL : no_loop tail).
  { subst tail. destruct (negb _); [apply raise_no_loop | apply deliver_no_loop]. }
  destruct (no_loop_final tail s4 NL) as (s' & Fs).
  assert (EF : epilogue_frame s4 s').
  { subst tail. destruct (negb _);
      [eapply raise_epilogue | eapply deliver_epilogue]; exact Fs. }
  destruct EF as (Hs & evs4 & T4 & C4).
  exists s', (evs1 ++ evs2 ++ map EvFree bufs), evs4.
  rewrite R. split_conj; auto.
  - rewrite T4. subst s4. cache_simpl.
    rewrite T3, T2, T1, <- !app_assoc. reflexivity.
  - rewrite !mallocs_app, M1, mallocs_map_EvFree.
    rewrite (class_no_mallocs is_native_event evs2); [|reflexivity|exact C2].
    rewrite !app_nil_r. reflexivity.
  - rewrite !frees_app, Fr1, frees_map_EvFree.
    rewrite (class_no_frees is_native_event evs2); [|reflexivity|exact C2].
    reflexivity.
  - rewrite !existsb_app, R1, existsb_map_EvFree by reflexivity.
    rewrite (class_excludes is_native_event is_result_test evs2); auto.
    intros [| | | | | | | | | | | | | | | | | | | | |[]| |]; cbn; congruence.
  - rewrite !existsb_app, W1, existsb_map_EvFree by reflexivity.
    rewrite (class_excludes is_native_event is_throw evs2); auto.
    intros []; cbn; congruence.
  - intros p I. eapply lookup_weaken_None; [|exact Hs].
    subst s4. cache_simpl. auto.
  - intros Z0. subst tail. rewrite Z0 in Fs. cbn [Z.eqb negb] in Fs.
    apply deliver_deliver in Fs. destruct Fs as (Ed & _ & evsd & Td & Cd).
    rewrite T4 in Td. apply app_inv_head in Td. subst evsd.
    split; [exact Cd|]. rewrite Ed. subst s4. cache_simpl. congruence.
Qed.

(** [mallocStringFromBytes] neither aborts nor loops. *)
Lemma mallocStringFromBytes_outcome (env : Env) (B : list byte) (s : State) :
  match mallocStringFromBytes env B s with
  | Ret _ _ | Crash _ => True
  | Abort _ | OutOfFuel => False
  end.
Proof.
  unfold mallocStringFromBytes, GetByteArrayElements, GetArrayLength, malloc,
    alloc_block, memcpy, ReleaseByteArrayElements, store_byte, emit, bind, ret,
    get, modify.
  cache_simpl. rewrite lookup_insert_eq.
  match goal with |- context [if ?c then _ else _] => destruct c end;
    [|exact I].
  cache_simpl. rewrite lookup_insert_eq.
  match goal with |- context [if ?c then _ else _] => destruct c end; exact I.
Qed.

(** The set functions, when [errno] is zero after the native call. *)
Lemma success_set (env : Env) (fuel : nat) (c : Call) (s s1 s2 : State)
    (args : list CArg) (bufs : list positive) (v : Z) (ctx : option positive) :
  marshal env c s = Ret (args, bufs) s1 ->
  native_phase env fuel c args s1 = Ret (v, ctx) s2 ->
  errno s2 = 0 ->
  is_get c = false ->
  exists s', run env fuel c s = Ret JVoid s' /\
             pending s' = pending s /\ objs s' = objs s /\ errno s' = 0.
Proof.
  intros H1 H2 Z0 G.
  destruct (after_native _ _ _ _ _ _ _ _ _ _ H1 H2)
    as (s3 & R & F1 & F2 & E3 & P3 & O3 & _).
  destruct F1 as (_ & P1 & O1 & _). destruct F2 as (P2 & O2 & _).
  rewrite R, Z0. cbn [Z.eqb negb]. unfold deliver. rewrite G.
  eexists. split; [reflexivity|]. cache_simpl. split_conj; congruence.
Qed.

(** ** The exported functions on file contexts *)

(** C5. For each of the six functions that get or set a context: let the
    inputs be marshalled and the native call, retries included, have
    returned, leaving [errno] at [E].
    - If [E] is nonzero and the symbols of [ErrnoException] resolve, the
      function returns with a new [ErrnoException] pending whose error code
      is [E], whose message is the name of the native function of that
      variant ([getfilecon] or [lgetfilecon], ...) when the runtime can
      build the string, and whose cause is what was pending on entry.
    - If [E] is zero, the function ends without building or throwing any
      exception; the set functions return with the pending slot as it
      was. *)
Theorem C5_errno_decides_the_exception (env : Env) (fuel : nat) (c : Call)
    (s s1 s2 : State) (args : list CArg) (bufs : list positive) (v : Z)
    (ctx : option positive) :
  marshal env c s = Ret (args, bufs) s1 ->
  native_phase env fuel c args s1 = Ret (v, ctx) s2 ->
  (errno s2 <> 0 ->
   forall cls c3 c2,
     errno_symbols env (statics s) = Some (cls, c3, c2) ->
     exists (x : positive) (s' : State) (evs : list Event),
       run env fuel c s = Ret (failure_value c) s' /\
       pending s' = Some x /\
       objs s' !! x = Some (Constructed cls (chosen_constructor (pending s) c3 c2)
                              (detail_message env (native_name c)) (errno s2)
                              (pending s)) /\
       (NewStringUTF_ok env (native_name c) = true ->
        detail_message env (native_name c) = Some (native_name c)) /\
       trace s' = trace s ++ evs /\ In (EvThrow x) evs) /\
  (errno s2 = 0 ->
   exists (s' : State) (evs : list Event),
     final_state (run env fuel c s) = Some s' /\
     trace s' = trace s ++ evs /\
     existsb is_throw evs = false /\
     (is_get c = false ->
      run env fuel c s = Ret JVoid s' /\ pending s' = pending s)).
Proof.
  intros H1 H2. split.
  - intros E cls c3 c2 Y.
    destruct (failure_path _ _ _ _ _ _ _ _ _ _ cls c3 c2 H1 H2 E Y)
      as (x & s' & evs & R & P & _ & O & _ & T & I).
    exists x, s', evs. split_conj; auto.
    unfold detail_message. intros ->. reflexivity.
  - intros Z0.
    destruct (run_shape _ _ _ _ _ _ _ _ _ _ H1 H2)
      as (s' & before & after & F & T & _ & _ & _ & _ & W & _ & _ & D).
    destruct (D Z0) as [Cd _].
    exists s', (before ++ EvErrnoRead ResultTest :: after).
    split_conj; auto.
    + rewrite existsb_app, W. cbn.
      apply (class_excludes is_deliver_event); [|exact Cd].
      intros []; cbn; congruence.
    + intros G.
      destruct (success_set _ _ _ _ _ _ _ _ _ _ H1 H2 Z0 G) as (s'' & R & P & _).
      rewrite R in F. cbn in F. inversion F; subst. auto.
Qed.

(** [lgetfilecon] that fails with error 13: the exception names
    [lgetfilecon], not [getfilecon], and carries 13. *)
Lemma C5_errno_decides_the_exception_witness :
  exists (x : positive) (s' : State),
    run (sample_env (fun _ => failure 13)) 1 (Lgetfilecon [x2f; x61]) fresh_state
      = Ret (JBytes None) s' /\
    pending s' = Some x /\
    objs s' !! x = Some (Constructed 11 32 (Some "lgetfilecon") 13 None).
Proof.
  edestruct (C5_errno_decides_the_exception (sample_env (fun _ => failure 13)) 1
               (Lgetfilecon [x2f; x61]) fresh_state) as [Hf _].
  { vm_compute. reflexivity. }
  { vm_compute. reflexivity. }
  destruct (Hf ltac:(vm_compute; discriminate) 11%positive 33%positive 32%positive
              eq_refl) as (x & s' & evs & R & P & O & _).
  exists x, s'. split_conj; [exact R | exact P | exact O].
Defined.

Lemma getFileDescriptorDescriptorField_events (env : Env) :
  run_rel (extends is_raise_event) (getFileDescriptorDescriptorField env).
Proof.
  unfold getFileDescriptorDescriptorField, getFileDescriptorClass, findClass,
    findField, emit.
  run_rel_structure;
    first [ apply extends_log; reflexivity | apply extends_same; reflexivity ].
Qed.

(** Marshalling aborts only while it resolves the descriptor field, before
    any buffer is allocated. *)
Lemma marshal_abort (env : Env) (fuel : nat) (c : Call) (s sa : State) :
  marshal env c s = Abort sa ->
  run env fuel c s = Abort sa /\
  exists evs, trace sa = trace s ++ evs /\ mallocs evs = [] /\ frees evs = [].
Proof.
  intros H. split.
  { rewrite run_protocol. unfold protocol, bind. rewrite H. reflexivity. }
  assert (G : forall sb, getFileDescriptorDescriptorField env s = Abort sb ->
                         exists evs, trace sb = trace s ++ evs /\
                                     mallocs evs = [] /\ frees evs = []).
  { intros sb Hb.
    destruct (getFileDescriptorDescriptorField_events env s sb) as (evs & T & C).
    { rewrite Hb. reflexivity. }
    exists evs. split_conj; auto.
    - eapply class_no_mallocs; [|exact C]. reflexivity.
    - eapply class_no_frees; [|exact C]. reflexivity. }
  destruct c; unfold marshal, GetIntField, emit, modify, bind, ret in H.
  - destruct (getFileDescriptorDescriptorField env s) eqn:E; try discriminate.
    inversion H; subst. auto.
  - destruct (getFileDescriptorDescriptorField env s) eqn:E; try discriminate.
    + match type of H with context [mallocStringFromBytes env ?B ?st] =>
        pose proof (mallocStringFromBytes_outcome env B st) as Hm;
        destruct (mallocStringFromBytes env B st); try discriminate; destruct Hm
      end.
    + inversion H; subst. auto.
  - pose proof (mallocStringFromBytes_outcome env javaPath s) as Hm.
    destruct (mallocStringFromBytes env javaPath s); try discriminate; destruct Hm.
  - pose proof (mallocStringFromBytes_outcome env javaPath s) as Hm.
    destruct (mallocStringFromBytes env javaPath s); try discriminate; destruct Hm.
  - pose proof (mallocStringFromBytes_outcome env javaPath s) as Hm.
    destruct (mallocStringFromBytes env javaPath s) as [p sb|sb|sb|];
      try discriminate; try destruct Hm.
    pose proof (mallocStringFromBytes_outcome env javaContext sb) as Hn.
    destruct (mallocStringFromBytes env javaContext sb); try discriminate;
      destruct Hn.
  - pose proof (mallocStringFromBytes_outcome env javaPath s) as Hm.
    destruct (mallocStringFromBytes env javaPath s) as [p sb|sb|sb|];
      try discriminate; try destruct Hm.
    pose proof (mallocStringFromBytes_outcome env javaContext sb) as Hn.
    destruct (mallocStringFromBytes env javaContext sb); try discriminate;
      destruct Hn.
Qed.

(** C6. For each of the six functions, the native buffers allocated for the
    inputs are exactly the buffers [bufs] that marshalling returns, one
    [malloc] each. On every path on which the native call returns, whatever
    [errno] says and however the function ends after that (return,
    exception, abort), each of them is freed exactly once, and every [free]
    comes in front of the inspection [if (errno)]; nothing is allocated or
    freed after it, and the buffers are no longer live at the end. The only
    exit in front of the native call is an abort while the descriptor field
    is resolved, and nothing has been allocated then. *)
Theorem C6_inputs_freed_once_before_inspection (env : Env) (fuel : nat) (c : Call)
    (s : State) :
  (forall (s1 s2 : State) (args : list CArg) (bufs : list positive) (v : Z)
          (ctx : option positive),
     marshal env c s = Ret (args, bufs) s1 ->
     native_phase env fuel c args s1 = Ret (v, ctx) s2 ->
     exists (s' : State) (before after : list Event),
       final_state (run env fuel c s) = Some s' /\
       trace s' = trace s ++ before ++ EvErrnoRead ResultTest :: after /\
       NoDup bufs /\
       mallocs before = bufs /\ frees before = bufs /\
       existsb is_result_test before = false /\
       mallocs after = [] /\ frees after = [] /\
       (forall p, In p bufs -> heap s' !! p = None)) /\
  (forall sa : State,
     marshal env c s = Abort sa ->
     run env fuel c s = Abort sa /\
     exists evs, trace sa = trace s ++ evs /\ mallocs evs = [] /\ frees evs = []).
Proof.
  split.
  - intros s1 s2 args bufs v ctx H1 H2.
    destruct (run_shape _ _ _ _ _ _ _ _ _ _ H1 H2)
      as (s' & before & after & F & T & D & M & Fr & R & _ & C & L & _).
    exists s', before, after. split_conj; auto.
    + eapply class_no_mallocs; [|exact C]. reflexivity.
    + eapply class_no_frees; [|exact C]. reflexivity.
  - intros sa H. apply marshal_abort. exact H.
Qed.

(** [lsetfilecon] that fails: both buffers are freed, once, and the process
    holds no native block when the exception is pending. *)
Lemma C6_inputs_freed_once_before_inspection_witness :
  exists (s' : State) (before after : list Event),
    final_state (run (sample_env (fun _ => failure 13)) 1
                     (Lsetfilecon [x2f; x61] [x75]) fresh_state) = Some s' /\
    trace s' = trace fresh_state ++ before ++ EvErrnoRead ResultTest :: after /\
    mallocs before = [1%positive; 2%positive] /\
    frees before = [1%positive; 2%positive] /\
    frees after = [] /\
    heap s' !! 1%positive = None /\ heap s' !! 2%positive = None.
Proof.
  destruct (C6_inputs_freed_once_before_inspection
              (sample_env (fun _ => failure 13)) 1
              (Lsetfilecon [x2f; x61] [x75]) fresh_state) as [H _].
  edestruct H as (s' & before & after & F & T & _ & M & Fr & _ & _ & Fa & L).
  { vm_compute. reflexivity. }
  { vm_compute. reflexivity. }
  exists s', before, after. split_conj; auto.
  - apply L. left. reflexivity.
  - apply L. right. left. reflexivity.
Defined.

Lemma run_after_release (env : Env) (fuel : nat) (c : Call) (s s1 s2 s3 : State)
    (args : list CArg) (bufs : list positive) (v : Z) (ctx : option positive) :
  marshal env c s = Ret (args, bufs) s1 ->
  native_phase env fuel c args s1 = Ret (v, ctx) s2 ->
  release bufs s2 = Ret tt s3 ->
  run env fuel c s =
    (if negb (errno s3 =? 0) then raise env c else deliver env c ctx)
      (log (EvErrnoRead ResultTest) s3).
Proof.
  intros H1 H2 R.
  rewrite run_protocol. unfold protocol, conclude, read_errno, emit.
  unfold bind at 1. rewrite H1. unfold bind at 1. rewrite H2.
  unfold bind at 1. rewrite R.
  unfold bind, modify, get. cbv beta iota. cache_simpl. reflexivity.
Qed.

(** C9. The return value of the native function plays no part. Take two
    libselinux that differ in any way, return value included, but leave the
    same [errno], the same stored context and the same state when the call
    under the retry macro returns: each of the six functions then does the
    same thing. What decides is [errno] alone: if it is zero nothing is
    raised (even when the native function returned its failure value); if it
    is nonzero, and the symbols of [ErrnoException] resolve, the exception
    with that code is raised (even when the native function returned 0). *)
Theorem C9_return_value_plays_no_part (env : Env)
    (other : string -> list NativeArg -> nat -> NativeResp)
    (fuel fuel' : nat) (c : Call) (s s1 s2 : State) (args : list CArg)
    (bufs : list positive) (v v' : Z) (ctx : option positive) :
  marshal env c s = Ret (args, bufs) s1 ->
  native_phase env fuel c args s1 = Ret (v, ctx) s2 ->
  native_phase (with_native env other) fuel' c args s1 = Ret (v', ctx) s2 ->
  run (with_native env other) fuel' c s = run env fuel c s /\
  (errno s2 = 0 ->
   exists (s' : State) (evs : list Event),
     final_state (run env fuel c s) = Some s' /\
     trace s' = trace s ++ evs /\
     existsb is_throw evs = false) /\
  (errno s2 <> 0 ->
   forall cls c3 c2,
     errno_symbols env (statics s) = Some (cls, c3, c2) ->
     exists (x : positive) (s' : State),
       run env fuel c s = Ret (failure_value c) s' /\
       pending s' = Some x /\
       objs s' !! x = Some (Constructed cls (chosen_constructor (pending s) c3 c2)
                              (detail_message env (native_name c)) (errno s2)
                              (pending s))).
Proof.
  intros H1 H2 H2'. split_conj.
  - assert (H1' : marshal (with_native env other) c s = Ret (args, bufs) s1)
      by exact H1.
    pose proof (marshal_ret _ _ _ _ _ _ H1) as F1.
    pose proof (run_rel_ret_state _ _ _ _ _ (native_phase_frame env fuel c args) H2)
      as F2.
    destruct F1 as (_ & _ & _ & _ & _ & _ & D & L & _).
    destruct (release_run bufs s2 D) as (s3 & R & _).
    { intros p I. destruct (L p I) as [_ [b Hb]]. exists b.
      destruct F2 as (_ & _ & _ & G & _). eapply lookup_weaken; eassumption. }
    rewrite (run_after_release _ _ _ _ _ _ _ _ _ _ _ H1 H2 R).
    rewrite (run_after_release _ _ _ _ _ _ _ _ _ _ _ H1' H2' R).
    reflexivity.
  - intros Z0.
    destruct (run_shape _ _ _ _ _ _ _ _ _ _ H1 H2)
      as (s' & before & after & F & T & _ & _ & _ & _ & W & _ & _ & D).
    destruct (D Z0) as [Cd _].
    exists s', (before ++ EvErrnoRead ResultTest :: after).
    split_conj; auto.
    rewrite existsb_app, W. cbn.
    apply (class_excludes is_deliver_event); [|exact Cd].
    intros []; cbn; congruence.
  - intros E cls c3 c2 Y.
    destruct (failure_path _ _ _ _ _ _ _ _ _ _ cls c3 c2 H1 H2 E Y)
      as (x & s' & evs & R & P & _ & O & _).
    exists x, s'. auto.
Qed.

(** A libselinux that returns -1 and leaves [errno] alone, next to one that
    returns 0: [setfilecon] treats both as a success. A libselinux that
    returns 0 and sets [errno] to 13: [setfilecon] raises. *)
Lemma C9_return_value_plays_no_part_witness :
  (run (with_native (sample_env (fun _ => mkResp (-1) None None))
                    (fun _ _ _ => mkResp 0 None None))
       1 (Setfilecon [x2f; x61] [x75]) fresh_state
   = run (sample_env (fun _ => mkResp (-1) None None))
         1 (Setfilecon [x2f; x61] [x75]) fresh_state /\
   exists s' evs,
     final_state (run (sample_env (fun _ => mkResp (-1) None None))
                      1 (Setfilecon [x2f; x61] [x75]) fresh_state) = Some s' /\
     trace s' = trace fresh_state ++ evs /\ existsb is_throw evs = false) /\
  (exists x s',
     run (sample_env (fun _ => mkResp 0 (Some 13) None))
         1 (Setfilecon [x2f; x61] [x75]) fresh_state = Ret JVoid s' /\
     pending s' = Some x /\
     objs s' !! x = Some (Constructed 11 32 (Some "setfilecon") 13 None)).
Proof.
  split.
  - edestruct (C9_return_value_plays_no_part
                 (sample_env (fun _ => mkResp (-1) None None))
                 (fun _ _ _ => mkResp 0 None None) 1 1
                 (Setfilecon [x2f; x61] [x75]) fresh_state) as (E & Z0 & _).
    { vm_compute. reflexivity. }
    { vm_compute. reflexivity. }
    { vm_compute. reflexivity. }
    split; [exact E|]. apply Z0. reflexivity.
  - edestruct (C9_return_value_plays_no_part
                 (sample_env (fun _ => mkResp 0 (Some 13) None))
                 (fun _ _ _ => mkResp 0 (Some 13) None) 1 1
                 (Setfilecon [x2f; x61] [x75]) fresh_state) as (_ & _ & N0).
    { vm_compute. reflexivity. }
    { vm_compute. reflexivity. }
    { vm_compute. reflexivity. }
    destruct (N0 ltac:(vm_compute; discriminate) 11%positive 33%positive
                 32%positive eq_refl) as (x & s' & R & P & O).
    exists x, s'. split_conj; [exact R | exact P | exact O].
Defined.

(** ** The enforcement-mode query *)

Lemma getenforce_phase_frame (env : Env) (fuel : nat) :
  run_rel native_frame (getenforce_phase env fuel).
Proof.
  unfold getenforce_phase. apply TEMP_FAILURE_RETRY_frame. intros _.
  apply run_rel_bind; [typeclasses eauto | apply call_native_frame | intros r].
  apply run_rel_ret; typeclasses eauto.
Qed.

(** What is left of [security_getenforce] once the native call has
    returned [v]. *)
Lemma getenforce_after (env : Env) (fuel : nat) (s s1 : State) (v : Z) :
  getenforce_phase env fuel s = Ret (v, tt) s1 ->
  Java_me_zhanghai_android_libselinux_SeLinux_security_1getenforce env fuel s =
  (let* unset :=
     (if v =? -1
      then let* e := read_errno NormalizeTest in ret (e =? 0)
      else ret false) in
   (if unset : bool then write_errno EIO else ret tt) >>
   let* e := read_errno ResultTest in
   (if negb (e =? 0) then throwErrnoException env "security_getenforce"
    else ret tt) >>
   ret (negb (v =? 0))) s1.
Proof.
  intros H.
  unfold Java_me_zhanghai_android_libselinux_SeLinux_security_1getenforce.
  unfold getenforce_phase in H.
  unfold bind at 1. rewrite H. reflexivity.
Qed.

(** The value [security_getenforce] returns is decided by the native value. *)
Lemma getenforce_value (env : Env) (fuel : nat) (s s1 s' : State) (v : Z) (b : bool) :
  getenforce_phase env fuel s = Ret (v, tt) s1 ->
  Java_me_zhanghai_android_libselinux_SeLinux_security_1getenforce env fuel s
    = Ret b s' ->
  b = negb (v =? 0).
Proof.
  intros H R. rewrite (getenforce_after _ _ _ _ _ H) in R.
  unfold bind in R.
  repeat match type of R with
         | context [match ?m ?st with _ => _ end] =>
             lazymatch type of (m st) with
             | Outcome _ => destruct (m st); try discriminate
             end
         end.
  inversion R. reflexivity.
Qed.

(** The failure path of [security_getenforce]: [errno] is nonzero after the
    native call, or the call returned -1. The error code is [errno], or
    [EIO] when [errno] was unset. *)
Lemma getenforce_failure (env : Env) (fuel : nat) (s s1 : State) (v : Z)
    (cls c3 c2 : positive) :
  getenforce_phase env fuel s = Ret (v, tt) s1 ->
  errno s1 <> 0 \/ v = -1 ->
  errno_symbols env (statics s) = Some (cls, c3, c2) ->
  exists (x : positive) (s' : State),
    Java_me_zhanghai_android_libselinux_SeLinux_security_1getenforce env fuel s
      = Ret (negb (v =? 0)) s' /\
    errno s' = (if errno s1 =? 0 then EIO else errno s1) /\
    pending s' = Some x /\
    objs s' !! x = Some (Constructed cls (chosen_constructor (pending s) c3 c2)
                           (detail_message env "security_getenforce")
                           (if errno s1 =? 0 then EIO else errno s1)
                           (pending s)) /\
    (errno s1 = 0 -> In (EvErrnoWrite EIO) (trace s')).
Proof.
  intros H C Y.
  pose proof (run_rel_ret_state _ _ _ _ _ (getenforce_phase_frame env fuel) H)
    as (P1 & O1 & S1 & _ & _).
  rewrite (getenforce_after _ _ _ _ _ H).
  unfold bind, read_errno, write_errno, emit, bind, modify, get, ret.
  assert (T : forall s4 : State,
             errno s4 = (if errno s1 =? 0 then EIO else errno s1) ->
             pending s4 = pending s -> objs s4 = objs s ->
             statics s4 = statics s ->
             (errno s1 = 0 -> In (EvErrnoWrite EIO) (trace s4)) ->
             exists x s',
               match throwErrnoException env "security_getenforce" s4 with
               | Ret _ s'0 => Ret (negb (v =? 0)) s'0
               | Abort s'0 => Abort s'0
               | Crash s'0 => Crash s'0
               | OutOfFuel => OutOfFuel
               end = Ret (negb (v =? 0)) s' /\
               errno s' = (if errno s1 =? 0 then EIO else errno s1) /\
               pending s' = Some x /\
               objs s' !! x =
                 Some (Constructed cls (chosen_constructor (pending s) c3 c2)
                         (detail_message env "security_getenforce")
                         (if errno s1 =? 0 then EIO else errno s1) (pending s)) /\
               (errno s1 = 0 -> In (EvErrnoWrite EIO) (trace s'))).
  { intros s4 E4 P4 O4 S4 W4.
    destruct (throwErrnoException_pending env "security_getenforce" s4 cls c3 c2)
      as (x & s' & evs & R & P & _ & O & E & Tr & _).
    { rewrite S4. exact Y. }
    rewrite R. exists x, s'. rewrite P4, E4 in O.
    split_conj; auto; try congruence.
    intros Z0. rewrite Tr. apply in_or_app. left. auto. }
  destruct (Z.eqb_spec v (-1)) as [->|Nv]; cbv beta iota; cache_simpl;
    destruct (Z.eqb_spec (errno s1) 0) as [Z0|Nz]; cbv beta iota; cache_simpl;
    cbn [EIO Z.eqb negb]; cbv beta iota.
  - apply T; cache_simpl; auto. intros _. apply in_or_app. left.
    apply in_or_app. right. cbn. auto.
  - destruct (Z.eqb_spec (errno s1) 0) as [|_]; [contradiction|].
    cbn [negb]. apply T; cache_simpl; auto. contradiction.
  - destruct C; contradiction.
  - destruct (Z.eqb_spec (errno s1) 0) as [|_]; [contradiction|].
    cbn [negb]. apply T; cache_simpl; auto. contradiction.
Qed.

(** C3. Let the native query, retries included, have returned [v].
    - [v = 1] with [errno] unset: the function returns true and raises
      nothing;
    - [v = 0] with [errno] unset: it returns false and raises nothing;
    - [v = -1] with [errno] unset: [errno] is set to [EIO] and, when the
      symbols of [ErrnoException] resolve, an [ErrnoException] with error
      code [EIO] is pending when the function returns;
    - whenever the function returns, the value is true exactly when [v] is
      not 0. *)
Theorem C3_getenforce_tri_state (env : Env) (fuel : nat) (s s1 : State) (v : Z) :
  getenforce_phase env fuel s = Ret (v, tt) s1 ->
  (errno s1 = 0 -> v = 1 ->
   exists s',
     Java_me_zhanghai_android_libselinux_SeLinux_security_1getenforce env fuel s
       = Ret true s' /\
     pending s' = pending s /\ objs s' = objs s /\ errno s' = 0) /\
  (errno s1 = 0 -> v = 0 ->
   exists s',
     Java_me_zhanghai_android_libselinux_SeLinux_security_1getenforce env fuel s
       = Ret false s' /\
     pending s' = pending s /\ objs s' = objs s /\ errno s' = 0) /\
  (errno s1 = 0 -> v = -1 ->
   forall cls c3 c2,
     errno_symbols env (statics s) = Some (cls, c3, c2) ->
     exists (x : positive) (s' : State) (b : bool),
       Java_me_zhanghai_android_libselinux_SeLinux_security_1getenforce env fuel s
         = Ret b s' /\
       errno s' = EIO /\
       pending s' = Some x /\
       objs s' !! x = Some (Constructed cls (chosen_constructor (pending s) c3 c2)
                              (detail_message env "security_getenforce") EIO
                              (pending s)) /\
       In (EvErrnoWrite EIO) (trace s')) /\
  (forall b s',
     Java_me_zhanghai_android_libselinux_SeLinux_security_1getenforce env fuel s
       = Ret b s' ->
     b = negb (v =? 0)).
Proof.
  intros H.
  pose proof (run_rel_ret_state _ _ _ _ _ (getenforce_phase_frame env fuel) H)
    as (P1 & O1 & S1 & _ & _).
  split_conj.
  - intros Z0 ->. rewrite (getenforce_after _ _ _ _ _ H).
    unfold bind, read_errno, write_errno, emit, bind, modify, get, ret.
    cbn [Z.eqb]. cbv beta iota. cache_simpl. rewrite Z0. cbn [Z.eqb negb].
    eexists. split; [reflexivity|]. cache_simpl. auto.
  - intros Z0 ->. rewrite (getenforce_after _ _ _ _ _ H).
    unfold bind, read_errno, write_errno, emit, bind, modify, get, ret.
    cbn [Z.eqb]. cbv beta iota. cache_simpl. rewrite Z0. cbn [Z.eqb negb].
    eexists. split; [reflexivity|]. cache_simpl. auto.
  - intros Z0 -> cls c3 c2 Y.
    destruct (getenforce_failure env fuel s s1 (-1) cls c3 c2 H (or_intror eq_refl) Y)
      as (x & s' & R & E & P & O & W).
    rewrite Z0 in E, O. cbn [Z.eqb] in E, O.
    exists x, s', true. split_conj; auto.
  - intros b s' R. exact (getenforce_value _ _ _ _ _ _ _ H R).
Qed.

(** The three answers of a libselinux that leaves [errno] alone. *)
Lemma C3_getenforce_tri_state_witness :
  (exists s',
     Java_me_zhanghai_android_libselinux_SeLinux_security_1getenforce
       (sample_env (fun _ => mkResp 1 None None))
                1 fresh_state = Ret true s' /\ pending s' = None) /\
  (exists s',
     Java_me_zhanghai_android_libselinux_SeLinux_security_1getenforce
       (sample_env (fun _ => mkResp 0 None None))
                1 fresh_state = Ret false s' /\ pending s' = None) /\
  (exists x s' b,
     Java_me_zhanghai_android_libselinux_SeLinux_security_1getenforce
       (sample_env (fun _ => mkResp (-1) None None))
       1 fresh_state = Ret b s' /\
     errno s' = EIO /\ pending s' = Some x /\
     objs s' !! x = Some (Constructed 11 32 (Some "security_getenforce") EIO None)).
Proof.
  split_conj.
  - edestruct (C3_getenforce_tri_state (sample_env (fun _ => mkResp 1 None None))
                 1 fresh_state) as (H1 & _).
    { vm_compute. reflexivity. }
    destruct (H1 eq_refl eq_refl) as (s' & R & P & _). exists s'. auto.
  - edestruct (C3_getenforce_tri_state (sample_env (fun _ => mkResp 0 None None))
                 1 fresh_state) as (_ & H0 & _).
    { vm_compute. reflexivity. }
    destruct (H0 eq_refl eq_refl) as (s' & R & P & _). exists s'. auto.
  - edestruct (C3_getenforce_tri_state (sample_env (fun _ => mkResp (-1) None None))
                 1 fresh_state) as (_ & _ & Hm & _).
    { vm_compute. reflexivity. }
    destruct (Hm eq_refl eq_refl 11%positive 33%positive 32%positive eq_refl)
      as (x & s' & b & R & E & P & O & _).
    exists x, s', b. split_conj; [exact R | exact E | exact P | exact O].
Defined.

(** ** The retry macro *)

(** The macro clears [errno] once, in front of the loop, and the loop goes on
    while [errno == EINTR] whatever the call returned. Once a call has been
    interrupted, calls that leave [errno] alone, as successful calls do,
    never end the loop. *)
Lemma retry_loop_stale (env : Env) (name : string) (cargs : list CArg)
    (nargs : list NativeArg) (h : gmap positive (list byte)) (fuel : nat) :
  (forall s', heap s' = h -> read_args cargs s' = Ret nargs s') ->
  forall s,
    heap s = h ->
    errno s = EINTR ->
    (forall i, (ncalls s <= i)%nat -> errno_w (native env name nargs i) = None) ->
    retry_loop fuel
      (fun _ : unit => let* r := call_native env name cargs in ret (r, tt)) tt s
    = OutOfFuel.
Proof.
  intros HR. induction fuel as [|fuel IH]; intros s Hh He Hn; [reflexivity|].
  cbn [retry_loop]. unfold call_native, read_errno, emit.
  unfold bind, modify, get, ret. rewrite (HR s Hh). cbv beta iota.
  rewrite (Hn (ncalls s) (le_n _)). cbv beta iota. cache_simpl.
  rewrite He. cbn [EINTR Z.eqb Pos.eqb]. cbv beta iota.
  apply IH; cache_simpl; auto.
  all: intros i Hi; apply Hn; lia.
Qed.

Lemma TEMP_FAILURE_RETRY_stale (env : Env) (name : string) (cargs : list CArg)
    (nargs : list NativeArg) (fuel : nat) (s : State) :
  (forall s', heap s' = heap s -> read_args cargs s' = Ret nargs s') ->
  errno_w (native env name nargs (ncalls s)) = Some EINTR ->
  (forall i, (ncalls s < i)%nat -> errno_w (native env name nargs i) = None) ->
  TEMP_FAILURE_RETRY fuel
    (fun _ : unit => let* r := call_native env name cargs in ret (r, tt)) tt s
  = OutOfFuel.
Proof.
  intros HR H0 Hn. unfold TEMP_FAILURE_RETRY, write_errno, emit.
  unfold bind at 1. unfold bind at 1. unfold modify at 1 2. cbv beta iota.
  destruct fuel as [|fuel]; [reflexivity|].
  cbn [retry_loop]. unfold call_native, read_errno, emit.
  unfold bind, modify, get, ret. rewrite HR by reflexivity. cbv beta iota.
  cache_simpl. rewrite H0. cbv beta iota. cache_simpl.
  cbn [EINTR Z.eqb Pos.eqb]. cbv beta iota.
  apply (retry_loop_stale env name cargs nargs (heap s)); cache_simpl; auto.
  all: intros i Hi; apply Hn; lia.
Qed.

(** C2 at work on the code. [setfilecon] on a libselinux whose first call is
    interrupted and whose later calls succeed never returns, whatever the
    budget of the loop: [errno] is still [EINTR] after each success. On a
    libselinux that is not interrupted the same call returns with nothing
    raised after one native call. And when the third call fails with error
    13, that failure is what the caller gets, although the second call had
    succeeded. *)
Theorem C2_stale_errno_keeps_retrying :
  (forall fuel,
     run (sample_env interrupted_once) fuel (Setfilecon [x2f; x61] [x75]) fresh_state
     = OutOfFuel) /\
  (exists s',
     run (sample_env (fun _ => success)) 1 (Setfilecon [x2f; x61] [x75]) fresh_state
       = Ret JVoid s' /\
     pending s' = None /\ ncalls s' = 1%nat) /\
  (exists x s',
     run (sample_env interrupted_then_ok_then_failing) 3
         (Setfilecon [x2f; x61] [x75]) fresh_state = Ret JVoid s' /\
     pending s' = Some x /\
     objs s' !! x = Some (Constructed 11 32 (Some "setfilecon") 13 None) /\
     ncalls s' = 3%nat).
Proof.
  split_conj.
  - intros fuel. rewrite run_protocol. unfold protocol. unfold bind at 1.
    remember (marshal (sample_env interrupted_once) (Setfilecon [x2f; x61] [x75])
                      fresh_state) as m eqn:Hm.
    vm_compute in Hm. subst m. cbv beta iota.
    unfold bind at 1. unfold native_phase. cbn [is_get]. unfold bind at 1.
    rewrite (TEMP_FAILURE_RETRY_stale _ _ _
               [ArgStr [x2f; x61]; ArgStr [x75]]); [reflexivity | | | ].
    + intros [e p o h st n t] Hs. cbn [heap] in Hs. subst h.
      vm_compute. reflexivity.
    + reflexivity.
    + intros [|i] Hi; [cbn in Hi; lia | reflexivity].
  - eexists. split_conj; vm_compute; reflexivity.
  - eexists; eexists. split_conj; vm_compute; reflexivity.
Qed.

Lemma retry_loop_S {L} (fuel : nat) (exp : L -> M (Z * L)) (l : L) :
  retry_loop (S fuel) exp l =
  (let* (_rc, l') := exp l in
   let* e := read_errno RetryCondition in
   if e =? EINTR then retry_loop fuel exp l' else ret (_rc, l')).
Proof. reflexivity. Qed.

(** What the macro does achieve: when the call that ends a run of [N]
    interruptions stores a value other than [EINTR] in [errno] itself (a
    failure, or a callee that clears [errno]), the loop ends there, after
    [N + 1] calls, with the return value of that last call. *)
Lemma retry_loop_interrupted (env : Env) (name : string) (cargs : list CArg)
    (nargs : list NativeArg) (h : gmap positive (list byte)) (extra : nat) (N : nat) :
  (forall s', heap s' = h -> read_args cargs s' = Ret nargs s') ->
  forall s e,
    heap s = h ->
    (forall i, (i < N)%nat ->
               errno_w (native env name nargs (ncalls s + i)) = Some EINTR) ->
    errno_w (native env name nargs (ncalls s + N)) = Some e ->
    e <> EINTR ->
    exists s',
      retry_loop (S N + extra)
        (fun _ : unit => let* r := call_native env name cargs in ret (r, tt)) tt s
      = Ret (rc (native env name nargs (ncalls s + N)), tt) s' /\
      errno s' = e /\ ncalls s' = (ncalls s + S N)%nat /\ heap s' = h /\
      pending s' = pending s /\ objs s' = objs s.
Proof.
  intros HR. induction N as [|N IH]; intros s e Hh Hint Hend Hne.
  - cbn [Nat.add retry_loop]. unfold call_native, read_errno, emit.
    unfold bind, modify, get, ret. rewrite (HR s Hh). cbv beta iota.
    rewrite Nat.add_0_r in *. rewrite Hend. cbv beta iota. cache_simpl.
    destruct (Z.eqb_spec e EINTR) as [|_]; [contradiction|].
    eexists. split; [reflexivity|]. cache_simpl. split_conj; auto. lia.
  - change (S (S N) + extra)%nat with (S (S N + extra)). rewrite retry_loop_S.
    unfold call_native, read_errno, emit.
    unfold bind, modify, get, ret. rewrite (HR s Hh). cbv beta iota.
    pose proof (Hint 0%nat ltac:(lia)) as H0. rewrite Nat.add_0_r in H0.
    rewrite H0. cbv beta iota. cache_simpl.
    cbn [EINTR Z.eqb Pos.eqb]. cbv beta iota.
    match goal with
    | |- context [retry_loop _ _ _ ?st] => set (s1 := st)
    end.
    destruct (IH s1 e) as (s' & R & E & Nc & Hp & P & O); subst s1; cache_simpl;
      auto.
    + intros i Hi. replace (S (ncalls s) + i)%nat with (ncalls s + S i)%nat by lia.
      apply Hint. lia.
    + replace (S (ncalls s) + N)%nat with (ncalls s + S N)%nat by lia. exact Hend.
    + exists s'. cache_simpl.
      replace (S (ncalls s) + N)%nat with (ncalls s + S N)%nat in R by lia.
      split_conj; auto. lia.
Qed.

(** ** The failure path of every exported function *)

(** C4. Every exported function that can fail raises through
    [throwErrnoException]. When the symbols of [ErrnoException] resolve:
    - [throwErrnoException] returns with a new exception object [x] pending,
      built from the value [errno] had on entry. If an exception [e] was
      pending, [x] was built by the three-argument constructor with that very
      reference [e] as its cause, and the pending slot was cleared
      ([ExceptionClear]) before [NewObject] ran. If nothing was pending, [x]
      was built by the two-argument constructor and has no cause. The
      objects that existed before are untouched;
    - for each of the six functions on file contexts, and for
      [security_getenforce], what is chained is what was pending when the
      function was entered. *)
Theorem C4_raise_chains_pending_exception (env : Env) (cls c3 c2 : positive) :
  (forall (fn : string) (s : State),
     errno_symbols env (statics s) = Some (cls, c3, c2) ->
     exists (x ctor : positive) (cause : option positive) (s' : State)
            (pre : list Event),
       throwErrnoException env fn s = Ret tt s' /\
       pending s' = Some x /\
       objs s !! x = None /\
       objs s ⊆ objs s' /\
       objs s' !! x = Some (Constructed cls ctor (detail_message env fn)
                                        (errno s) cause) /\
       trace s' = trace s ++ pre ++
                  [EvNewObject cls ctor x; EvThrow x; EvDeleteLocalRef] /\
       existsb is_NewObject pre = false /\
       (forall e, pending s = Some e ->
                  ctor = c3 /\ cause = Some e /\ In EvExceptionClear pre) /\
       (pending s = None -> ctor = c2 /\ cause = None)) /\
  (forall (fuel : nat) (c : Call) (s s1 s2 : State) (args : list CArg)
          (bufs : list positive) (v : Z) (ctx : option positive),
     marshal env c s = Ret (args, bufs) s1 ->
     native_phase env fuel c args s1 = Ret (v, ctx) s2 ->
     errno s2 <> 0 ->
     errno_symbols env (statics s) = Some (cls, c3, c2) ->
     exists (x : positive) (s' : State),
       run env fuel c s = Ret (failure_value c) s' /\
       pending s' = Some x /\
       objs s !! x = None /\
       objs s' !! x = Some (Constructed cls (chosen_constructor (pending s) c3 c2)
                              (detail_message env (native_name c)) (errno s2)
                              (pending s))) /\
  (forall (fuel : nat) (s s1 : State) (v : Z),
     getenforce_phase env fuel s = Ret (v, tt) s1 ->
     errno s1 <> 0 \/ v = -1 ->
     errno_symbols env (statics s) = Some (cls, c3, c2) ->
     exists (x : positive) (s' : State) (code : Z),
       Java_me_zhanghai_android_libselinux_SeLinux_security_1getenforce env fuel s
         = Ret (negb (v =? 0)) s' /\
       pending s' = Some x /\
       objs s' !! x = Some (Constructed cls (chosen_constructor (pending s) c3 c2)
                              (detail_message env "security_getenforce") code
                              (pending s))).
Proof.
  split_conj.
  - intros fn s H.
    destruct (throwErrnoException_run env fn s cls c3 c2 H) as (sc & -> & F).
    destruct F as (Fe & Fp & Fo & _ & _ & (evs & Ft & Fc) & _). cache_simpl.
    destruct (throwException_run env cls c3 c2 fn (errno s) sc)
      as (x & s' & pre & R & P & N & I & O & T & C & X & _).
    rewrite Fp, Fo in *.
    exists x, (chosen_constructor (pending s) c3 c2), (pending s), s',
      (EvErrnoRead ThrowCapture :: evs ++ pre).
    split_conj; auto.
    + rewrite T, Ft. rewrite <- !app_assoc. cbn [app].
      rewrite <- !app_assoc. reflexivity.
    + cbn [existsb is_NewObject orb]. rewrite existsb_app, X, orb_false_r.
      apply (class_excludes is_cache_event); [|exact Fc].
      intros []; cbn; congruence.
    + intros e E. rewrite E in *. split_conj; auto.
      right. apply in_or_app. right. apply C. discriminate.
    + intros E. rewrite E. auto.
  - intros fuel c s s1 s2 args bufs v ctx H1 H2 E Y.
    destruct (failure_path _ _ _ _ _ _ _ _ _ _ cls c3 c2 H1 H2 E Y)
      as (x & s' & evs & R & P & N & O & _).
    exists x, s'. auto.
  - intros fuel s s1 v H C Y.
    destruct (getenforce_failure env fuel s s1 v cls c3 c2 H C Y)
      as (x & s' & R & _ & P & O & _).
    exists x, s'. eauto.
Qed.

(** An exception pending on entry becomes the cause of the one raised. *)
Lemma C4_raise_chains_pending_exception_witness :
  let s := set_objs {[ 7%positive := RuntimeThrowable "java/io/IOException" ]}
             (set_pending (Some 7%positive) (set_errno 13 fresh_state)) in
  exists (x : positive) (s' : State),
    throwErrnoException (sample_env (fun _ => success)) "setfilecon" s = Ret tt s' /\
    pending s' = Some x /\
    objs s' !! x = Some (Constructed 11 33 (Some "setfilecon") 13 (Some 7%positive)) /\
    objs s' !! 7%positive = Some (RuntimeThrowable "java/io/IOException").
Proof.
  intros s.
  destruct (C4_raise_chains_pending_exception (sample_env (fun _ => success))
              11 33 32) as (H & _).
  destruct (H "setfilecon" s eq_refl)
    as (x & ctor & cause & s' & pre & R & P & _ & I & O & _ & _ & Hp & _).
  destruct (Hp 7%positive eq_refl) as (-> & -> & _).
  exists x, s'. split_conj; auto.
  eapply lookup_weaken; [|exact I]. reflexivity.
Defined.


(** * Further properties of the bridge *)

(** ** What libselinux is handed *)

Lemma c_string_cut (B rest : list byte) :
  c_string (B ++ x00 :: rest) = Some (cut_at_zero B).
Proof.
  induction B as [|b B IH]; cbn [app c_string cut_at_zero].
  - reflexivity.
  - destruct (Byte.eqb b x00); [reflexivity|]. rewrite IH. reflexivity.
Qed.

Lemma cut_at_zero_length (B : list byte) : (length (cut_at_zero B) <= length B)%nat.
Proof.
  induction B as [|b B IH]; cbn [cut_at_zero length]; [lia|].
  destruct (Byte.eqb b x00); cbn [length]; lia.
Qed.

(** Reading the arguments looks at the heap only, and only at the blocks
    the pointers designate. *)
Lemma read_args_mono (cargs : list CArg) (nargs : list NativeArg) (s s' : State) :
  read_args cargs s = Ret nargs s ->
  heap s ⊆ heap s' ->
  read_args cargs s' = Ret nargs s'.
Proof.
  revert nargs. induction cargs as [|[z|p] cargs IH]; intros nargs H G;
    cbn [read_args] in *.
  - inversion H. reflexivity.
  - unfold bind, ret in *.
    destruct (read_args cargs s) as [l sx| | |] eqn:E; try discriminate.
    assert (sx = s)
      by (symmetry; apply (read_args_same cargs s sx); rewrite E; reflexivity).
    subst sx.
    rewrite (IH l eq_refl G). inversion H. reflexivity.
  - unfold load_string, get in *. unfold bind, ret in *. cbv beta iota in *.
    destruct (heap s !! p) as [b|] eqn:Hp; [|discriminate H].
    rewrite (lookup_weaken _ _ _ _ Hp G).
    destruct (c_string b) as [pre|]; [|discriminate H]. cbv beta iota in *.
    destruct (read_args cargs s) as [l sx| | |] eqn:E; try discriminate.
    assert (sx = s)
      by (symmetry; apply (read_args_same cargs s sx); rewrite E; reflexivity).
    subst sx.
    rewrite (IH l eq_refl G). inversion H. reflexivity.
Qed.

Lemma load_string_block (s : State) (p : positive) (B : list byte) :
  heap s !! p = Some (B ++ [x00]) ->
  load_string (Some p) s = Ret (cut_at_zero B) s.
Proof.
  intros H. unfold load_string, get. unfold bind, ret. cbv beta iota.
  rewrite H, c_string_cut. reflexivity.
Qed.

(** After marshalling, the pointers handed to libselinux designate the C
    strings of the managed buffers, and the heap differs from what it was by
    the marshalled buffers only. *)
Lemma marshal_blocks (env : Env) (c : Call) (s s1 : State)
    (args : list CArg) (bufs : list positive) :
  valid_call c ->
  marshal env c s = Ret (args, bufs) s1 ->
  read_args args s1 = Ret (native_args c) s1 /\
  (forall p, ~ In p bufs -> heap s1 !! p = heap s !! p).
Proof.
  intros V H.
  assert (One : forall (B : list byte) (sa : State),
            valid_buffer B ->
            exists p sb,
              mallocStringFromBytes env B sa = Ret p sb /\
              heap sa !! p = None /\
              heap sb = <[p := B ++ [x00]]> (heap sa)).
  { intros B sa VB. eexists; eexists.
    split; [apply (mallocStringFromBytes_run env B sa VB)|].
    split; [apply fresh_block | reflexivity]. }
  destruct c; cbn [valid_call native_args] in *;
    unfold marshal, GetIntField, emit, modify in H; unfold bind, ret in H.
  - destruct (getFileDescriptorDescriptorField env s) as [f sa| | |] eqn:G;
      try discriminate.
    inversion H; subst; clear H.
    apply (resolve_ret_frame env SymDescriptorField) in G.
    destruct G as (_ & _ & _ & Hh & _). cache_simpl.
    split; [reflexivity | intros p _; congruence].
  - destruct (getFileDescriptorDescriptorField env s) as [f sa| | |] eqn:G;
      try discriminate.
    apply (resolve_ret_frame env SymDescriptorField) in G.
    destruct G as (_ & _ & _ & Hh & _).
    destruct (One javaContext (log (EvGetIntField f) sa) V)
      as (p & sb & R & Np & Hb).
    rewrite R in H. inversion H; subst; clear H. cache_simpl.
    split.
    + cbn [read_args]. unfold bind, ret.
      rewrite (load_string_block s1 p javaContext)
        by (rewrite Hb; apply lookup_insert_eq).
      reflexivity.
    + intros q Nq. rewrite Hb, lookup_insert_ne, Hh; [reflexivity|].
      intros ->. apply Nq. left. reflexivity.
  - destruct (One javaPath s V) as (p & sb & R & Np & Hb).
    rewrite R in H. inversion H; subst; clear H.
    split.
    + cbn [read_args]. unfold bind, ret.
      rewrite (load_string_block s1 p javaPath)
        by (rewrite Hb; apply lookup_insert_eq).
      reflexivity.
    + intros q Nq. rewrite Hb, lookup_insert_ne; [reflexivity|].
      intros ->. apply Nq. left. reflexivity.
  - destruct (One javaPath s V) as (p & sb & R & Np & Hb).
    rewrite R in H. inversion H; subst; clear H.
    split.
    + cbn [read_args]. unfold bind, ret.
      rewrite (load_string_block s1 p javaPath)
        by (rewrite Hb; apply lookup_insert_eq).
      reflexivity.
    + intros q Nq. rewrite Hb, lookup_insert_ne; [reflexivity|].
      intros ->. apply Nq. left. reflexivity.
  - destruct V as [VP VC].
    destruct (One javaPath s VP) as (p & sa & Ra & Np & Ha).
    rewrite Ra in H.
    destruct (One javaContext sa VC) as (q & sb & Rb & Nq & Hb).
    rewrite Rb in H. inversion H; subst; clear H.
    assert (Dpq : q <> p).
    { intros ->. rewrite Ha, lookup_insert_eq in Nq. discriminate. }
    split.
    + cbn [read_args]. unfold bind, ret.
      rewrite (load_string_block s1 p javaPath)
        by (rewrite Hb, lookup_insert_ne, Ha by exact Dpq; apply lookup_insert_eq).
      rewrite (load_string_block s1 q javaContext)
        by (rewrite Hb; apply lookup_insert_eq).
      reflexivity.
    + intros k Nk. rewrite Hb, lookup_insert_ne, Ha, lookup_insert_ne;
        [reflexivity| |]; intros ->; apply Nk; cbn; auto.
  - destruct V as [VP VC].
    destruct (One javaPath s VP) as (p & sa & Ra & Np & Ha).
    rewrite Ra in H.
    destruct (One javaContext sa VC) as (q & sb & Rb & Nq & Hb).
    rewrite Rb in H. inversion H; subst; clear H.
    assert (Dpq : q <> p).
    { intros ->. rewrite Ha, lookup_insert_eq in Nq. discriminate. }
    split.
    + cbn [read_args]. unfold bind, ret.
      rewrite (load_string_block s1 p javaPath)
        by (rewrite Hb, lookup_insert_ne, Ha by exact Dpq; apply lookup_insert_eq).
      rewrite (load_string_block s1 q javaContext)
        by (rewrite Hb; apply lookup_insert_eq).
      reflexivity.
    + intros k Nk. rewrite Hb, lookup_insert_ne, Ha, lookup_insert_ne;
        [reflexivity| |]; intros ->; apply Nk; cbn; auto.
Qed.

Lemma run_rel_weaken {A} (R R' : State -> State -> Prop) (m : M A) :
  (forall s s', R s s' -> R' s s') -> run_rel R m -> run_rel R' m.
Proof. intros W H s s' F. apply W, H, F. Qed.

Lemma call_native_agree (env : Env)
    (other : string -> list NativeArg -> nat -> NativeResp)
    (name : string) (cargs : list CArg) (nargs : list NativeArg) (s : State) :
  read_args cargs s = Ret nargs s ->
  (forall i, other name nargs i = native env name nargs i) ->
  call_native (with_native env other) name cargs s = call_native env name cargs s.
Proof.
  intros R A. unfold call_native, emit.
  unfold bind, get, modify, ret. cbv beta iota. rewrite R.
  change (native (with_native env other)) with other. rewrite A. reflexivity.
Qed.

Lemma call_native_get_agree (env : Env)
    (other : string -> list NativeArg -> nat -> NativeResp)
    (name : string) (cargs : list CArg) (nargs : list NativeArg)
    (context : option positive) (s : State) :
  read_args cargs s = Ret nargs s ->
  (forall i, other name nargs i = native env name nargs i) ->
  call_native_get (with_native env other) name cargs context s
  = call_native_get env name cargs context s.
Proof.
  intros R A. unfold call_native_get, emit.
  unfold bind, get, modify, ret. cbv beta iota. rewrite R.
  change (native (with_native env other)) with other. rewrite A. reflexivity.
Qed.

(** Two expressions that agree on every state in which the blocks of [h] are
    live run the same under the retry loop. *)
Lemma retry_loop_agree {L} (exp exp' : L -> M (Z * L))
    (h : gmap positive (list byte)) :
  (forall l s, h ⊆ heap s -> exp' l s = exp l s) ->
  (forall l, run_rel heap_grows (exp l)) ->
  forall fuel l s, h ⊆ heap s ->
    retry_loop fuel exp' l s = retry_loop fuel exp l s.
Proof.
  intros A G. induction fuel as [|fuel IH]; intros l s Hs; [reflexivity|].
  rewrite !retry_loop_S. unfold bind at 1 3. rewrite (A l s Hs).
  destruct (exp l s) as [[v l'] sa|sa|sa|] eqn:E; try reflexivity.
  assert (Ha : h ⊆ heap sa).
  { etransitivity; [exact Hs|]. apply (G l s sa). rewrite E. reflexivity. }
  unfold read_errno, emit. unfold bind, modify, get. cbv beta iota.
  destruct (_ =? EINTR); [|reflexivity].
  apply IH. exact Ha.
Qed.

Lemma native_phase_agree (env : Env)
    (other : string -> list NativeArg -> nat -> NativeResp)
    (fuel : nat) (c : Call) (args : list CArg) (nargs : list NativeArg) (s : State) :
  read_args args s = Ret nargs s ->
  (forall i, other (native_name c) nargs i = native env (native_name c) nargs i) ->
  native_phase (with_native env other) fuel c args s = native_phase env fuel c args s.
Proof.
  intros R A. unfold native_phase, TEMP_FAILURE_RETRY, write_errno, emit.
  destruct (is_get c).
  - unfold bind at 1 2 3 4. unfold modify. cbv beta iota.
    apply (retry_loop_agree _ _ (heap s)).
    + intros l sx Hx. apply (call_native_get_agree _ _ _ _ nargs); [|exact A].
      eapply read_args_mono; eassumption.
    + intros l. eapply run_rel_weaken; [|apply call_native_get_frame].
      intros sa sb F. apply F.
    + reflexivity.
  - unfold bind at 1 5. unfold bind at 1 2 4 5. unfold modify. cbv beta iota.
    rewrite (retry_loop_agree
               (fun _ : unit => let* r := call_native env (native_name c) args in
                                ret (r, tt))
               (fun _ : unit =>
                  let* r := call_native (with_native env other) (native_name c) args in
                  ret (r, tt)) (heap s)); [reflexivity | | | reflexivity].
    + intros l sx Hx. unfold bind.
      rewrite (call_native_agree _ _ _ _ nargs); [reflexivity | | exact A].
      eapply read_args_mono; eassumption.
    + intros l. apply run_rel_bind; [typeclasses eauto | | intros r].
      * eapply run_rel_weaken; [|apply call_native_frame].
        intros sa sb F. apply F.
      * apply run_rel_ret; typeclasses eauto.
Qed.

Lemma bind_cong_ret {A B} (m : M A) (f g : A -> M B) (s : State) :
  (forall a s', m s = Ret a s' -> f a s' = g a s') -> bind m f s = bind m g s.
Proof. intros H. unfold bind. destruct (m s); auto. Qed.

(** X1. Each exported function on file contexts consults libselinux through its
    own native function only, and only at the descriptor and the C strings
    of its managed arguments (a buffer is cut at its first zero byte):
    whatever else libselinux would answer, to other functions or to other
    arguments, the run is the same. *)
Theorem only_the_named_function_is_consulted (env : Env)
    (other : string -> list NativeArg -> nat -> NativeResp)
    (fuel : nat) (c : Call) (s : State) :
  valid_call c ->
  (forall i, other (native_name c) (native_args c) i
             = native env (native_name c) (native_args c) i) ->
  run (with_native env other) fuel c s = run env fuel c s.
Proof.
  intros V A. rewrite !run_protocol. unfold protocol.
  change (marshal (with_native env other) c) with (marshal env c).
  apply bind_cong_ret. intros [args bufs] s1 H1.
  destruct (marshal_blocks env c s s1 args bufs V H1) as [R _].
  unfold bind. cbv beta iota.
  rewrite (native_phase_agree env other fuel c args (native_args c) s1 R A).
  reflexivity.
Qed.

(** [lsetfilecon] does not depend on what [setfilecon] would do. *)
Lemma only_the_named_function_is_consulted_witness :
  run (with_native (sample_env (fun _ => failure 13))
         (fun name _ _ => if String.eqb name "lsetfilecon" then failure 13
                          else mkResp 0 (Some 99) (Some [x41])))
      1 (Lsetfilecon [x2f; x61; x00; x62] [x75]) fresh_state
  = run (sample_env (fun _ => failure 13))
        1 (Lsetfilecon [x2f; x61; x00; x62] [x75]) fresh_state.
Proof.
  apply only_the_named_function_is_consulted.
  - split; unfold valid_buffer, JSIZE_MAX; cbn; lia.
  - intros i. reflexivity.
Defined.

(** ** The retry macro, continued *)

(** Whenever the loop returns, [errno] is not [EINTR]. *)
Lemma retry_loop_post {L} (exp : L -> M (Z * L)) (fuel : nat) :
  forall l s r s', retry_loop fuel exp l s = Ret r s' -> errno s' <> EINTR.
Proof.
  induction fuel as [|fuel IH]; intros l s r s' H; [discriminate|].
  rewrite retry_loop_S in H. unfold bind at 1 in H.
  destruct (exp l s) as [[v l'] sa|sa|sa|]; try discriminate.
  unfold read_errno, emit in H. unfold bind, modify, get, ret in H.
  cbv beta iota in H. cache_simpl.
  destruct (Z.eqb_spec (errno sa) EINTR) as [E|E].
  - eapply IH. exact H.
  - inversion H; subst. cache_simpl. exact E.
Qed.

Lemma native_phase_post (env : Env) (fuel : nat) (c : Call) (args : list CArg)
    (s s' : State) (r : Z * option positive) :
  native_phase env fuel c args s = Ret r s' -> errno s' <> EINTR.
Proof.
  unfold native_phase, TEMP_FAILURE_RETRY. destruct (is_get c); intros H.
  - unfold bind at 1 in H.
    destruct (write_errno 0 s) as [u sa|sa|sa|]; try discriminate.
    eapply retry_loop_post. exact H.
  - unfold bind at 1 in H. unfold bind at 1 in H.
    destruct (write_errno 0 s) as [u sa|sa|sa|]; try discriminate.
    destruct (retry_loop fuel _ tt sa) as [[v u'] sb|sb|sb|] eqn:E;
      try discriminate.
    inversion H; subst. eapply retry_loop_post. exact E.
Qed.

Lemma getenforce_phase_post (env : Env) (fuel : nat) (s s' : State) (r : Z * unit) :
  getenforce_phase env fuel s = Ret r s' -> errno s' <> EINTR.
Proof.
  unfold getenforce_phase, TEMP_FAILURE_RETRY. intros H.
  unfold bind at 1 in H.
  destruct (write_errno 0 s) as [u sa|sa|sa|]; try discriminate.
  eapply retry_loop_post. exact H.
Qed.

(** X2. An interruption never reaches the caller: the [ErrnoException] an
    exported function raises never carries [EINTR] (nor 0). *)
Theorem raised_code_is_never_EINTR (env : Env) (fuel : nat) (cls c3 c2 : positive) :
  (forall (c : Call) (s s1 s2 : State) (args : list CArg) (bufs : list positive)
          (v : Z) (ctx : option positive),
     marshal env c s = Ret (args, bufs) s1 ->
     native_phase env fuel c args s1 = Ret (v, ctx) s2 ->
     errno s2 <> 0 ->
     errno_symbols env (statics s) = Some (cls, c3, c2) ->
     exists (x : positive) (s' : State) (ctor : positive) (msg : option string)
            (code : Z) (cause : option positive),
       run env fuel c s = Ret (failure_value c) s' /\
       pending s' = Some x /\
       objs s' !! x = Some (Constructed cls ctor msg code cause) /\
       code <> EINTR /\ code <> 0) /\
  (forall (s s1 : State) (v : Z),
     getenforce_phase env fuel s = Ret (v, tt) s1 ->
     errno s1 <> 0 \/ v = -1 ->
     errno_symbols env (statics s) = Some (cls, c3, c2) ->
     exists (x : positive) (s' : State) (ctor : positive) (msg : option string)
            (code : Z) (cause : option positive),
       Java_me_zhanghai_android_libselinux_SeLinux_security_1getenforce env fuel s
         = Ret (negb (v =? 0)) s' /\
       pending s' = Some x /\
       objs s' !! x = Some (Constructed cls ctor msg code cause) /\
       code <> EINTR /\ code <> 0).
Proof.
  split.
  - intros c s s1 s2 args bufs v ctx H1 H2 E Y.
    destruct (failure_path _ _ _ _ _ _ _ _ _ _ cls c3 c2 H1 H2 E Y)
      as (x & s' & evs & R & P & _ & O & _).
    do 6 eexists. split_conj; try eassumption.
    eapply native_phase_post. exact H2.
  - intros s s1 v H C Y.
    destruct (getenforce_failure env fuel s s1 v cls c3 c2 H C Y)
      as (x & s' & R & _ & P & O & _).
    do 6 eexists. split_conj; try eassumption.
    + destruct (Z.eqb_spec (errno s1) 0); [discriminate|].
      eapply getenforce_phase_post. exact H.
    + destruct (Z.eqb_spec (errno s1) 0); [discriminate | assumption].
Qed.

(** A call that is interrupted twice and then fails with [EACCES] (13):
    the exception carries 13. *)
Lemma raised_code_is_never_EINTR_witness :
  exists (x : positive) (s' : State) (ctor : positive) (msg : option string)
         (code : Z) (cause : option positive),
    run (sample_env (fun i => if (i <? 2)%nat then failure EINTR else failure 13))
        5 (Getfilecon [x2f; x61]) fresh_state = Ret (JBytes None) s' /\
    pending s' = Some x /\
    objs s' !! x = Some (Constructed 11 ctor msg code cause) /\
    code <> EINTR /\ ncalls s' = 3%nat.
Proof.
  destruct (raised_code_is_never_EINTR
              (sample_env (fun i => if (i <? 2)%nat then failure EINTR else failure 13))
              5 11 33 32) as [H _].
  edestruct (H (Getfilecon [x2f; x61]) fresh_state)
    as (x & s' & ctor & msg & code & cause & R & P & O & N & _).
  { vm_compute. reflexivity. }
  { vm_compute. reflexivity. }
  { vm_compute. discriminate. }
  { reflexivity. }
  exists x, s', ctor, msg, code, cause. split_conj; auto.
  vm_compute in R. inversion R. reflexivity.
Defined.

(** ** The native phase, from what libselinux answers *)

Lemma call_native_step (env : Env) (name : string) (cargs : list CArg)
    (nargs : list NativeArg) (s : State) :
  read_args cargs s = Ret nargs s ->
  let r := native env name nargs (ncalls s) in
  exists s',
    call_native env name cargs s = Ret (rc r) s' /\
    errno s' = match errno_w r with Some e => e | None => errno s end /\
    ncalls s' = S (ncalls s) /\ heap s' = heap s /\
    pending s' = pending s /\ objs s' = objs s /\ statics s' = statics s.
Proof.
  intros R r. unfold call_native, emit.
  unfold bind, get, modify, ret. cbv beta iota. rewrite R. fold r.
  destruct (errno_w r); eexists; (split; [reflexivity|]); cache_simpl;
    split_conj; reflexivity.
Qed.

Lemma call_native_get_step (env : Env) (name : string) (cargs : list CArg)
    (nargs : list NativeArg) (l : option positive) (s : State) :
  read_args cargs s = Ret nargs s ->
  let r := native env name nargs (ncalls s) in
  exists s',
    call_native_get env name cargs l s
    = Ret (rc r, match out r with
                 | Some _ => Some (fresh (dom (heap s)))
                 | None => l
                 end) s' /\
    errno s' = match errno_w r with Some e => e | None => errno s end /\
    ncalls s' = S (ncalls s) /\
    heap s' = match out r with
              | Some bs => <[fresh (dom (heap s)) := bs ++ [x00]]> (heap s)
              | None => heap s
              end /\
    pending s' = pending s /\ objs s' = objs s /\ statics s' = statics s.
Proof.
  intros R r. unfold call_native_get, alloc_block, emit.
  unfold bind, get, modify, ret. cbv beta iota. rewrite R. fold r.
  destruct (errno_w r); destruct (out r); eexists; (split; [reflexivity|]);
    cache_simpl; split_conj; reflexivity.
Qed.

(** The retry loop over an expression that makes one native call per
    evaluation: [resp i] is the answer to call number [i]; an answer that
    stores no context leaves the locals and the heap alone. *)
Lemma retry_loop_answers {L} (exp : L -> M (Z * L)) (resp : nat -> NativeResp)
    (h : gmap positive (list byte))
    (newl : NativeResp -> L -> L)
    (newh : NativeResp -> gmap positive (list byte)) (extra : nat) :
  (forall r l, out r = None -> newl r l = l /\ newh r = h) ->
  (forall l s, heap s = h ->
     exists s',
       exp l s = Ret (rc (resp (ncalls s)), newl (resp (ncalls s)) l) s' /\
       errno s' = match errno_w (resp (ncalls s)) with
                  | Some e => e
                  | None => errno s
                  end /\
       ncalls s' = S (ncalls s) /\ heap s' = newh (resp (ncalls s)) /\
       pending s' = pending s /\ objs s' = objs s /\ statics s' = statics s) ->
  forall (N : nat) (r : NativeResp) (s : State) (l : L),
    heap s = h ->
    (forall i, (i < N)%nat -> errno_w (resp (ncalls s + i)%nat) = Some EINTR /\
                              out (resp (ncalls s + i)%nat) = None) ->
    resp (ncalls s + N)%nat = r ->
    match errno_w r with
    | Some e => e <> EINTR
    | None => errno s <> EINTR /\ N = 0%nat
    end ->
    exists s',
      retry_loop (S N + extra) exp l s = Ret (rc r, newl r l) s' /\
      errno s' = match errno_w r with Some e => e | None => errno s end /\
      ncalls s' = (ncalls s + S N)%nat /\ heap s' = newh r /\
      pending s' = pending s /\ objs s' = objs s /\ statics s' = statics s.
Proof.
  intros Hnone Hstep. induction N as [|N IH]; intros r s l Hh Hint Hend Hfin.
  - rewrite Nat.add_0_r in Hend.
    destruct (Hstep l s Hh) as (s1 & E & Er & Nc & Hp & P & O & St).
    rewrite Hend in *.
    change (S 0 + extra)%nat with (S extra). rewrite retry_loop_S.
    unfold bind at 1. rewrite E. cbv beta iota.
    unfold read_errno, emit. unfold bind, modify, get, ret. cbv beta iota.
    cache_simpl.
    assert (Ne : errno s1 <> EINTR).
    { rewrite Er. destruct (errno_w r); [exact Hfin | apply Hfin]. }
    destruct (Z.eqb_spec (errno s1) EINTR) as [|_]; [contradiction|].
    eexists. split; [reflexivity|]. cache_simpl. split_conj; auto. lia.
  - destruct (Hstep l s Hh) as (s1 & E & Er & Nc & Hp & P & O & St).
    destruct (Hint 0%nat ltac:(lia)) as [I0 O0]. rewrite Nat.add_0_r in I0, O0.
    rewrite I0 in Er. destruct (Hnone _ l O0) as [Hl Hh'].
    rewrite Hl, Hh' in *.
    change (S (S N) + extra)%nat with (S (S N + extra)). rewrite retry_loop_S.
    unfold bind at 1. rewrite E. cbv beta iota.
    unfold read_errno, emit. unfold bind, modify, get, ret. cbv beta iota.
    cache_simpl. rewrite Er. cbn [EINTR Z.eqb Pos.eqb]. cbv beta iota.
    match goal with
    | |- context [retry_loop _ _ _ ?st] => set (s2 := st)
    end.
    assert (Hfin' : match errno_w r with
                    | Some e => e <> EINTR
                    | None => errno s2 <> EINTR /\ N = 0%nat
                    end).
    { destruct (errno_w r); [exact Hfin|]. destruct Hfin as [_ ?]. lia. }
    destruct (IH r s2 l) as (s' & R & E' & Nc' & Hp' & P' & O' & St');
      subst s2; cache_simpl; auto.
    + intros i Hi. rewrite Nc.
      replace (S (ncalls s) + i)%nat with (ncalls s + S i)%nat by lia.
      apply Hint. lia.
    + rewrite Nc. rewrite <- Hend. f_equal. lia.
    + exists s'. split; [exact R|]. split_conj; try congruence; try lia.
      destruct (errno_w r); [exact E'|]. destruct Hfin as [_ ?]. lia.
Qed.

Lemma read_args_heap (cargs : list CArg) (nargs : list NativeArg) (s s' : State) :
  read_args cargs s = Ret nargs s ->
  heap s' = heap s ->
  read_args cargs s' = Ret nargs s'.
Proof.
  intros R H. apply (read_args_mono cargs nargs s s' R). rewrite H. reflexivity.
Qed.

(** The native phase when libselinux is interrupted [N] times and then
    answers [r]: [N + 1] calls, the last one decides. *)
Lemma native_phase_answers (env : Env) (c : Call) (s s1 : State)
    (args : list CArg) (bufs : list positive) (N : nat) (r : NativeResp)
    (extra : nat) :
  valid_call c ->
  marshal env c s = Ret (args, bufs) s1 ->
  answers_after env c s N r ->
  exists s2,
    native_phase env (S N + extra) c args s1
    = Ret (rc r, context_of c r (heap s1)) s2 /\
    errno s2 = final_errno r /\
    ncalls s2 = (ncalls s + S N)%nat /\
    heap s2 = heap_with_context c r (heap s1) /\
    pending s2 = pending s /\ objs s2 = objs s /\ statics s2 = statics s1.
Proof.
  intros V H1 (Hint & Hend & Hfin).
  destruct (marshal_blocks env c s s1 args bufs V H1) as [R _].
  destruct (marshal_ret _ _ _ _ _ _ H1) as (_ & P1 & O1 & N1 & _).
  unfold native_phase, context_of, heap_with_context, final_errno,
    TEMP_FAILURE_RETRY, write_errno, emit.
  set (s0 := set_errno 0 (log (EvErrnoWrite 0) s1)).
  assert (Fin : match errno_w r with
                | Some e => e <> EINTR
                | None => errno s0 <> EINTR /\ N = 0%nat
                end).
  { destruct (errno_w r); [exact Hfin|]. split; [discriminate | exact Hfin]. }
  destruct (is_get c).
  - destruct (retry_loop_answers
                (call_native_get env (native_name c) args)
                (native env (native_name c) (native_args c))
                (heap s1)
                (fun r l => match out r with
                            | Some _ => Some (fresh (dom (heap s1)))
                            | None => l
                            end)
                (fun r => match out r with
                          | Some bs => <[fresh (dom (heap s1)) := bs ++ [x00]]> (heap s1)
                          | None => heap s1
                          end)
                extra) with (N := N) (r := r) (s := s0) (l := @None positive)
      as (s2 & E & Er & Nc & Hp & P & O & St).
    + intros r' l ->. split; reflexivity.
    + intros l sx Hx.
      destruct (call_native_get_step env (native_name c) args (native_args c) l sx)
        as (sy & E & Er & Nc & Hp & P & O & St).
      { apply (read_args_heap args _ s1 sx R Hx). }
      rewrite Hx in *. eauto 10.
    + reflexivity.
    + subst s0. cache_simpl. rewrite N1. exact Hint.
    + subst s0. cache_simpl. rewrite N1. exact Hend.
    + exact Fin.
    + exists s2. unfold bind at 1 2. unfold modify. cbv beta iota. fold s0.
      split; [rewrite E; destruct (out r); reflexivity|].
      subst s0. cache_simpl. split_conj; congruence.
  - destruct (retry_loop_answers
                (fun _ : unit => let* v := call_native env (native_name c) args in
                                 ret (v, tt))
                (native env (native_name c) (native_args c))
                (heap s1) (fun _ l => l) (fun _ => heap s1) extra)
      with (N := N) (r := r) (s := s0) (l := tt)
      as (s2 & E & Er & Nc & Hp & P & O & St).
    + intros r' l _. split; reflexivity.
    + intros l sx Hx.
      destruct (call_native_step env (native_name c) args (native_args c) sx)
        as (sy & E & Er & Nc & Hp & P & O & St).
      { apply (read_args_heap args _ s1 sx R Hx). }
      exists sy. unfold bind, ret. rewrite E. destruct l.
      split_conj; auto. congruence.
    + reflexivity.
    + subst s0. cache_simpl. rewrite N1. exact Hint.
    + subst s0. cache_simpl. rewrite N1. exact Hend.
    + exact Fin.
    + exists s2. unfold bind at 1. unfold bind at 1 2. unfold modify.
      cbv beta iota. fold s0. rewrite E. unfold ret.
      split; [reflexivity|].
      subst s0. cache_simpl. split_conj; congruence.
Qed.

(** ** The heap, block by block *)

Lemma release_heap (bufs : list positive) :
  forall s s3, release bufs s = Ret tt s3 ->
               forall q, ~ In q bufs -> heap s3 !! q = heap s !! q.
Proof.
  induction bufs as [|p bufs IH]; intros s s3 H q Nq; cbn [release] in H.
  - inversion H. reflexivity.
  - unfold free, emit in H. unfold bind, get, modify in H. cbv beta iota in H.
    destruct (heap s !! p) eqn:Hp; [|discriminate H].
    rewrite (IH _ _ H q) by (intros I; apply Nq; right; exact I).
    cache_simpl. apply lookup_delete_ne. intros ->. apply Nq. left. reflexivity.
Qed.

(** The exported function up to the inspection of [errno], from what
    libselinux answers: the inputs are gone, the stored context (if any) is
    the one block the heap has gained. *)
Lemma run_answers (env : Env) (c : Call) (s s1 : State)
    (args : list CArg) (bufs : list positive) (N : nat) (r : NativeResp)
    (extra : nat) :
  valid_call c ->
  marshal env c s = Ret (args, bufs) s1 ->
  answers_after env c s N r ->
  exists s3,
    run env (S N + extra) c s =
      (if negb (final_errno r =? 0) then raise env c
       else deliver env c (context_of c r (heap s1)))
        (log (EvErrnoRead ResultTest) s3) /\
    errno s3 = final_errno r /\
    ncalls s3 = (ncalls s + S N)%nat /\
    pending s3 = pending s /\ objs s3 = objs s /\
    (forall sym, symbol_value env (statics s3) sym = symbol_value env (statics s) sym) /\
    match context_of c r (heap s1) with
    | Some p => exists bs, out r = Some bs /\ heap s !! p = None /\
                           heap s3 = <[p := bs ++ [x00]]> (heap s)
    | None => heap s3 = heap s
    end.
Proof.
  intros V H1 A.
  destruct (native_phase_answers env c s s1 args bufs N r extra V H1 A)
    as (s2 & H2 & E2 & N2 & Hp2 & P2 & O2 & St2).
  destruct (marshal_blocks env c s s1 args bufs V H1) as [_ Hm].
  destruct (marshal_ret _ _ _ _ _ _ H1)
    as (_ & _ & _ & _ & Sy & G1 & ND & Lv & _).
  assert (G2 : heap s1 ⊆ heap s2).
  { rewrite Hp2. unfold heap_with_context.
    destruct (is_get c); [|reflexivity].
    destruct (out r); [|reflexivity]. apply insert_subseteq, fresh_block. }
  destruct (release_run bufs s2) as (s3 & R & E3 & P3 & O3 & S3 & N3 & _ & L3 & _).
  { exact ND. }
  { intros p I. destruct (Lv p I) as [_ [b Hb]]. exists b.
    eapply lookup_weaken; eassumption. }
  pose proof (release_heap bufs s2 s3 R) as K3.
  exists s3. split.
  { rewrite (run_after_release _ _ _ _ _ _ _ _ _ _ _ H1 H2 R).
    rewrite E3, E2. reflexivity. }
  do 4 (split; [congruence|]).
  split; [intros sym; rewrite S3, St2; apply Sy|].
  assert (Old : forall q, heap s1 !! q = None -> heap s !! q = None).
  { intros q Hq. eapply lookup_weaken_None; eassumption. }
  assert (In3 : forall q, In q bufs -> heap s3 !! q = heap s !! q).
  { intros q I. rewrite (L3 q I). symmetry. apply (Lv q I). }
  assert (Out3 : forall q, ~ In q bufs -> heap s1 !! q = heap s !! q).
  { intros q I. apply Hm, I. }
  unfold context_of, heap_with_context in *.
  destruct (is_get c).
  - destruct (out r) as [bs|].
    + exists bs. split; [reflexivity|].
      split; [apply Old, fresh_block|].
      apply map_eq. intros q.
      destruct (In_dec Pos.eq_dec q bufs) as [I|I].
      * rewrite (In3 q I). rewrite lookup_insert_ne; [reflexivity|].
        intros <-. destruct (Lv _ I) as [_ [b Hb]].
        rewrite fresh_block in Hb. discriminate.
      * rewrite (K3 q I), Hp2.
        destruct (Pos.eq_dec (fresh (dom (heap s1))) q) as [<-|Dq].
        -- rewrite !lookup_insert_eq. reflexivity.
        -- rewrite !lookup_insert_ne by exact Dq. apply Out3, I.
    + apply map_eq. intros q.
      destruct (In_dec Pos.eq_dec q bufs) as [I|I];
        [apply (In3 q I) | rewrite (K3 q I), Hp2; apply Out3, I].
  - apply map_eq. intros q.
    destruct (In_dec Pos.eq_dec q bufs) as [I|I];
      [apply (In3 q I) | rewrite (K3 q I), Hp2; apply Out3, I].
Qed.

(** ** Raising, exactly *)

(** [throwErrnoException] touches neither [errno], nor libselinux, nor the
    native heap. *)
Lemma throwErrnoException_exact (env : Env) (fn : string) (s : State)
    (cls c3 c2 : positive) :
  errno_symbols env (statics s) = Some (cls, c3, c2) ->
  exists (x : positive) (s' : State),
    throwErrnoException env fn s = Ret tt s' /\
    pending s' = Some x /\
    objs s !! x = None /\
    objs s' !! x = Some (Constructed cls (chosen_constructor (pending s) c3 c2)
                           (detail_message env fn) (errno s) (pending s)) /\
    errno s' = errno s /\ ncalls s' = ncalls s /\ heap s' = heap s.
Proof.
  intros Y.
  destruct (throwErrnoException_run env fn s cls c3 c2 Y) as (sc & -> & Fc).
  destruct Fc as (Ec & Pc & Oc & Hc & Nc & _). cache_simpl.
  destruct (throwException_run env cls c3 c2 fn (errno s) sc)
    as (x & s' & pre & RX & PX & NX & IX & OX & TX & _ & _ & EX & HX & _ & NcX).
  rewrite Pc, Oc in *.
  exists x, s'. split_conj; try eassumption; congruence.
Qed.

Lemma errno_symbols_same (env : Env) (st st' : Statics) :
  (forall sym, symbol_value env st' sym = symbol_value env st sym) ->
  errno_symbols env st' = errno_symbols env st.
Proof. intros H. unfold errno_symbols. rewrite !H. reflexivity. Qed.

(** A call that libselinux fails, after [N] interruptions, with the error
    [e]: the exception, the number of native calls and the heap. *)
Lemma raise_answers (env : Env) (c : Call) (s s1 : State)
    (args : list CArg) (bufs : list positive) (N : nat) (r : NativeResp)
    (extra : nat) (cls c3 c2 : positive) :
  valid_call c ->
  marshal env c s = Ret (args, bufs) s1 ->
  answers_after env c s N r ->
  final_errno r <> 0 ->
  errno_symbols env (statics s) = Some (cls, c3, c2) ->
  exists (x : positive) (s' : State),
    run env (S N + extra) c s = Ret (failure_value c) s' /\
    pending s' = Some x /\
    objs s !! x = None /\
    objs s' !! x = Some (Constructed cls (chosen_constructor (pending s) c3 c2)
                           (detail_message env (native_name c)) (final_errno r)
                           (pending s)) /\
    errno s' = final_errno r /\
    ncalls s' = (ncalls s + S N)%nat /\
    match context_of c r (heap s1) with
    | Some p => exists bs, out r = Some bs /\ heap s !! p = None /\
                           heap s' = <[p := bs ++ [x00]]> (heap s)
    | None => heap s' = heap s
    end.
Proof.
  intros V H1 A E Y.
  destruct (run_answers env c s s1 args bufs N r extra V H1 A)
    as (s3 & R & E3 & N3 & P3 & O3 & Y3 & Hp3).
  rewrite R. destruct (Z.eqb_spec (final_errno r) 0) as [|_]; [contradiction|].
  cbn [negb]. unfold raise.
  set (s4 := log (EvErrnoRead ResultTest) s3).
  assert (Y4 : errno_symbols env (statics s4) = Some (cls, c3, c2)).
  { subst s4. cache_simpl. rewrite (errno_symbols_same env _ _ Y3). exact Y. }
  destruct (throwErrnoException_exact env (native_name c) s4 cls c3 c2 Y4)
    as (x & s' & RT & PX & NX & OX & EX & NcX & HX).
  unfold bind. rewrite RT. cbv beta iota. unfold ret.
  subst s4. cache_simpl. rewrite P3, O3, E3 in *.
  exists x, s'. split_conj; try eassumption; try reflexivity; try congruence.
  rewrite HX. exact Hp3.
Qed.

(** X3. An interrupted call is made again until libselinux answers: when the
    answer that ends [N] interruptions is the failure [e], the function has
    called libselinux [N + 1] times, and it raises an [ErrnoException] that
    carries [e], chained to what was pending. *)
Theorem interrupted_call_is_repeated_until_it_fails (env : Env) (c : Call)
    (s s1 : State) (args : list CArg) (bufs : list positive) (N : nat)
    (r : NativeResp) (extra : nat) (cls c3 c2 : positive) :
  valid_call c ->
  marshal env c s = Ret (args, bufs) s1 ->
  answers_after env c s N r ->
  final_errno r <> 0 ->
  errno_symbols env (statics s) = Some (cls, c3, c2) ->
  exists (x : positive) (s' : State),
    run env (S N + extra) c s = Ret (failure_value c) s' /\
    pending s' = Some x /\
    objs s' !! x = Some (Constructed cls (chosen_constructor (pending s) c3 c2)
                           (detail_message env (native_name c)) (final_errno r)
                           (pending s)) /\
    errno s' = final_errno r /\
    ncalls s' = (ncalls s + S N)%nat.
Proof.
  intros V H1 A E Y.
  destruct (raise_answers env c s s1 args bufs N r extra cls c3 c2 V H1 A E Y)
    as (x & s' & R & P & _ & O & Er & Nc & _).
  exists x, s'. split_conj; assumption.
Qed.

(** [setfilecon], interrupted twice and then refused with error 13. *)
Lemma interrupted_call_is_repeated_until_it_fails_witness :
  exists (x : positive) (s' : State),
    run (sample_env (fun i => if (i <? 2)%nat then failure EINTR else failure 13))
        3 (Setfilecon [x2f; x61] [x75]) fresh_state = Ret JVoid s' /\
    pending s' = Some x /\
    objs s' !! x = Some (Constructed 11 32 (Some "setfilecon") 13 None) /\
    ncalls s' = 3%nat.
Proof.
  edestruct (interrupted_call_is_repeated_until_it_fails
               (sample_env (fun i => if (i <? 2)%nat then failure EINTR else failure 13))
               (Setfilecon [x2f; x61] [x75]) fresh_state)
    with (N := 2%nat) (r := failure 13) (extra := 0%nat)
         (cls := 11%positive) (c3 := 33%positive) (c2 := 32%positive)
    as (x & s' & R & P & O & _ & Nc).
  { split; unfold valid_buffer, JSIZE_MAX; cbn; lia. }
  { vm_compute. reflexivity. }
  { split; [|split].
    - intros [|[|i]] Hi; [split; reflexivity | split; reflexivity | lia].
    - reflexivity.
    - cbn. discriminate. }
  { cbn. discriminate. }
  { reflexivity. }
  exists x, s'. split_conj; [exact R | exact P | exact O | exact Nc].
Defined.

(** ** Delivering, exactly *)

Lemma newBytesFromString_oom (env : Env) (p : positive) (blk pre : list byte)
    (s : State) :
  heap s !! p = Some blk ->
  c_string blk = Some pre ->
  valid_buffer pre ->
  NewByteArray_ok env (Z.of_nat (length pre)) = false ->
  exists s',
    newBytesFromString env (Some p) s = Ret None s' /\
    pending s' = Some (fresh (dom (objs s))) /\
    objs s' = <[fresh (dom (objs s)) :=
                  RuntimeThrowable "java/lang/OutOfMemoryError"]> (objs s) /\
    heap s' = heap s /\ errno s' = errno s /\ ncalls s' = ncalls s.
Proof.
  intros Hp Hc V Ok. unfold valid_buffer in V.
  unfold newBytesFromString, strlen, load_string, NewByteArray,
    raise_OutOfMemoryError, new_object, emit.
  unfold bind, ret, get, modify. cbv beta iota.
  rewrite Hp, Hc. cbv beta iota.
  rewrite (to_size_t_small env (Z.of_nat (length pre))) by lia.
  rewrite (to_jsize_small (Z.of_nat (length pre))) by lia.
  destruct (Z.ltb_spec (Z.of_nat (length pre)) 0) as [?|_]; [lia|].
  rewrite Ok. cbv beta iota.
  eexists. split; [reflexivity|]. cache_simpl. split_conj; reflexivity.
Qed.

Lemma freecon_block (p : positive) (blk : list byte) (s : State) :
  heap s !! p = Some blk ->
  freecon (Some p) s
  = Ret tt (set_heap (delete p (heap s)) (log (EvFreecon (Some p)) s)).
Proof.
  intros H. unfold freecon, emit. unfold bind, get, modify. cbv beta iota.
  rewrite H. reflexivity.
Qed.

(** ** The six functions, from what libselinux answers *)

(** X4. A set function that libselinux serves after [N] interruptions returns
    normally after [N + 1] native calls, and leaves the native heap, the
    pending exception and the managed objects exactly as it found them. *)
Theorem set_call_succeeds_after_interruptions (env : Env) (c : Call)
    (s s1 : State) (args : list CArg) (bufs : list positive) (N : nat)
    (r : NativeResp) (extra : nat) :
  is_get c = false ->
  valid_call c ->
  marshal env c s = Ret (args, bufs) s1 ->
  answers_after env c s N r ->
  final_errno r = 0 ->
  exists s',
    run env (S N + extra) c s = Ret JVoid s' /\
    ncalls s' = (ncalls s + S N)%nat /\
    heap s' = heap s /\ pending s' = pending s /\ objs s' = objs s /\
    errno s' = 0.
Proof.
  intros G V H1 A E.
  destruct (run_answers env c s s1 args bufs N r extra V H1 A)
    as (s3 & R & E3 & N3 & P3 & O3 & _ & Hp3).
  rewrite R, E. cbn [Z.eqb negb]. unfold deliver, context_of in *.
  rewrite G in *. eexists. split; [reflexivity|]. cache_simpl.
  split_conj; congruence.
Qed.

(** [lsetfilecon], interrupted once, then served by a libselinux that
    clears [errno]. *)
Lemma set_call_succeeds_after_interruptions_witness :
  exists s',
    run (sample_env (fun i => match i with
                              | O => failure EINTR
                              | S _ => mkResp 0 (Some 0) None
                              end))
        2 (Lsetfilecon [x2f; x61] [x75]) fresh_state = Ret JVoid s' /\
    ncalls s' = 2%nat /\ heap s' = ∅ /\ pending s' = None.
Proof.
  edestruct (set_call_succeeds_after_interruptions
               (sample_env (fun i => match i with
                                     | O => failure EINTR
                                     | S _ => mkResp 0 (Some 0) None
                                     end))
               (Lsetfilecon [x2f; x61] [x75]) fresh_state)
    with (N := 1%nat) (r := mkResp 0 (Some 0) None) (extra := 0%nat)
    as (s' & R & Nc & Hp & P & _).
  { reflexivity. }
  { split; unfold valid_buffer, JSIZE_MAX; cbn; lia. }
  { vm_compute. reflexivity. }
  { split; [|split].
    - intros [|i] Hi; [split; reflexivity | lia].
    - reflexivity.
    - cbn. discriminate. }
  { reflexivity. }
  exists s'. split_conj; [exact R | exact Nc | exact Hp | exact P].
Defined.

(** What the delivery of a stored context does, in each of its cases. *)
Lemma deliver_answers (env : Env) (c : Call) (p : positive) (bs : list byte)
    (h : gmap positive (list byte)) (s : State) :
  is_get c = true ->
  h !! p = None ->
  heap s = <[p := bs ++ [x00]]> h ->
  valid_buffer (cut_at_zero bs) ->
  exists s',
    deliver env c (Some p) s
    = Ret (JBytes (if NewByteArray_ok env (Z.of_nat (length (cut_at_zero bs)))
                   then Some (cut_at_zero bs) else None)) s' /\
    heap s' = h /\ errno s' = errno s /\ ncalls s' = ncalls s /\
    if NewByteArray_ok env (Z.of_nat (length (cut_at_zero bs)))
    then pending s' = pending s /\ objs s' = objs s
    else pending s' = Some (fresh (dom (objs s))) /\
         objs s' = <[fresh (dom (objs s)) :=
                       RuntimeThrowable "java/lang/OutOfMemoryError"]> (objs s).
Proof.
  intros G Np Hs V. unfold deliver. rewrite G.
  assert (Hp : heap s !! p = Some (bs ++ [x00]))
    by (rewrite Hs; apply lookup_insert_eq).
  pose proof (c_string_cut bs []) as Hc.
  destruct (NewByteArray_ok env (Z.of_nat (length (cut_at_zero bs)))) eqn:Ok.
  - unfold bind at 1.
    rewrite (newBytesFromString_run env p _ _ s Hp Hc V Ok).
    unfold bind. rewrite (freecon_block p (bs ++ [x00]))
      by (cache_simpl; exact Hp).
    unfold ret. eexists. split; [reflexivity|]. cache_simpl.
    split_conj; try reflexivity.
    rewrite Hs. apply delete_insert_id, Np.
  - destruct (newBytesFromString_oom env p _ _ s Hp Hc V Ok)
      as (sa & R & Pa & Oa & Ha & Ea & Na).
    unfold bind at 1. rewrite R.
    unfold bind. rewrite (freecon_block p (bs ++ [x00]))
      by (rewrite Ha; exact Hp).
    unfold ret. eexists. split; [reflexivity|]. cache_simpl.
    split_conj; try assumption.
    rewrite Ha, Hs. apply delete_insert_id, Np.
Qed.

(** X5. A get function that libselinux serves, after [N] interruptions, by
    storing the context [bs]: the function returns the bytes of [bs] in
    front of its first zero byte (all of [bs] when it has none), and the
    native heap is exactly what it was: the inputs and the context have
    been freed. *)
Theorem get_returns_the_stored_context (env : Env) (c : Call)
    (s s1 : State) (args : list CArg) (bufs : list positive) (N : nat)
    (r : NativeResp) (extra : nat) (bs : list byte) :
  is_get c = true ->
  valid_call c ->
  marshal env c s = Ret (args, bufs) s1 ->
  answers_after env c s N r ->
  final_errno r = 0 ->
  out r = Some bs ->
  valid_buffer (cut_at_zero bs) ->
  NewByteArray_ok env (Z.of_nat (length (cut_at_zero bs))) = true ->
  exists s',
    run env (S N + extra) c s = Ret (JBytes (Some (cut_at_zero bs))) s' /\
    (Forall (fun b => b <> x00) bs -> cut_at_zero bs = bs) /\
    heap s' = heap s /\ pending s' = pending s /\ objs s' = objs s /\
    ncalls s' = (ncalls s + S N)%nat.
Proof.
  intros G V H1 A E Ho Vb Ok.
  destruct (run_answers env c s s1 args bufs N r extra V H1 A)
    as (s3 & R & E3 & N3 & P3 & O3 & _ & Hp3).
  rewrite R, E. cbn [Z.eqb negb]. unfold context_of in *.
  rewrite G, Ho in *. destruct Hp3 as (bs' & Eb & Np & Hh).
  inversion Eb; subst bs'; clear Eb.
  destruct (deliver_answers env c (fresh (dom (heap s1))) bs (heap s)
              (log (EvErrnoRead ResultTest) s3) G Np Hh Vb)
    as (s' & D & Hs' & Es' & Ns' & K).
  rewrite Ok in *. destruct K as [Ps' Os'].
  exists s'. split; [exact D|]. cache_simpl. split_conj; try congruence.
  intros F. pose proof (c_string_cut bs []) as C1.
  rewrite (c_string_terminated bs [] F) in C1. congruence.
Qed.

(** [getfilecon] on a libselinux that stores a context with a zero byte
    in it: the caller receives the bytes in front of it. *)
Lemma get_returns_the_stored_context_witness :
  exists s',
    run (sample_env (fun _ => mkResp 0 None (Some [x75; x3a; x00; x72])))
        1 (Getfilecon [x2f; x61]) fresh_state
    = Ret (JBytes (Some [x75; x3a])) s' /\
    heap s' = ∅ /\ ncalls s' = 1%nat.
Proof.
  edestruct (get_returns_the_stored_context
               (sample_env (fun _ => mkResp 0 None (Some [x75; x3a; x00; x72])))
               (Getfilecon [x2f; x61]) fresh_state)
    with (N := 0%nat) (r := mkResp 0 None (Some [x75; x3a; x00; x72]))
         (extra := 0%nat)
    as (s' & R & _ & Hp & _ & _ & Nc).
  { reflexivity. }
  { unfold valid_call, valid_buffer, JSIZE_MAX. cbn. lia. }
  { vm_compute. reflexivity. }
  { split; [|split].
    - intros i Hi. lia.
    - reflexivity.
    - reflexivity. }
  { reflexivity. }
  { reflexivity. }
  { unfold valid_buffer, JSIZE_MAX. cbn. lia. }
  { reflexivity. }
  exists s'. split_conj; [exact R | exact Hp | exact Nc].
Defined.

(** X6. A get function that libselinux serves by storing a context, in a
    runtime that cannot allocate the array for it: the function returns
    null with the [OutOfMemoryError] of the runtime pending, no
    [ErrnoException] is built, and the context has been freed all the same:
    the native heap is what it was. *)
Theorem get_reports_a_failed_array_allocation (env : Env) (c : Call)
    (s s1 : State) (args : list CArg) (bufs : list positive) (N : nat)
    (r : NativeResp) (extra : nat) (bs : list byte) :
  is_get c = true ->
  valid_call c ->
  marshal env c s = Ret (args, bufs) s1 ->
  answers_after env c s N r ->
  final_errno r = 0 ->
  out r = Some bs ->
  valid_buffer (cut_at_zero bs) ->
  NewByteArray_ok env (Z.of_nat (length (cut_at_zero bs))) = false ->
  exists (x : positive) (s' : State),
    run env (S N + extra) c s = Ret (JBytes None) s' /\
    pending s' = Some x /\
    objs s !! x = None /\
    objs s' = <[x := RuntimeThrowable "java/lang/OutOfMemoryError"]> (objs s) /\
    heap s' = heap s /\
    ncalls s' = (ncalls s + S N)%nat.
Proof.
  intros G V H1 A E Ho Vb Ok.
  destruct (run_answers env c s s1 args bufs N r extra V H1 A)
    as (s3 & R & E3 & N3 & P3 & O3 & _ & Hp3).
  rewrite R, E. cbn [Z.eqb negb]. unfold context_of in *.
  rewrite G, Ho in *. destruct Hp3 as (bs' & Eb & Np & Hh).
  inversion Eb; subst bs'; clear Eb.
  destruct (deliver_answers env c (fresh (dom (heap s1))) bs (heap s)
              (log (EvErrnoRead ResultTest) s3) G Np Hh Vb)
    as (s' & D & Hs' & Es' & Ns' & K).
  rewrite Ok in *. destruct K as [Ps' Os']. cache_simpl. rewrite O3 in *.
  exists (fresh (dom (objs s))), s'. split; [exact D|].
  split_conj; try congruence. apply fresh_object.
Qed.

(** [fgetfilecon] in a runtime that is out of memory. *)
Lemma get_reports_a_failed_array_allocation_witness :
  exists (x : positive) (s' : State),
    run (mkEnv (fun _ => Some 10%positive) (fun l => Some (Pos.succ l))
               (fun _ _ _ => Some 20%positive) (fun _ _ _ => Some 30%positive)
               (fun _ => true) (fun _ => false)
               (fun _ _ _ => mkResp 0 None (Some [x75])) xff true)
        1 (Fgetfilecon (mkFd 3)) fresh_state = Ret (JBytes None) s' /\
    pending s' = Some x /\
    objs s' !! x = Some (RuntimeThrowable "java/lang/OutOfMemoryError") /\
    heap s' = ∅.
Proof.
  edestruct (get_reports_a_failed_array_allocation
               (mkEnv (fun _ => Some 10%positive) (fun l => Some (Pos.succ l))
                      (fun _ _ _ => Some 20%positive) (fun _ _ _ => Some 30%positive)
                      (fun _ => true) (fun _ => false)
                      (fun _ _ _ => mkResp 0 None (Some [x75])) xff true)
               (Fgetfilecon (mkFd 3)) fresh_state)
    with (N := 0%nat) (r := mkResp 0 None (Some [x75])) (extra := 0%nat)
    as (x & s' & R & P & _ & O & Hp & _).
  { reflexivity. }
  { exact I. }
  { vm_compute. reflexivity. }
  { split; [|split].
    - intros i Hi. lia.
    - reflexivity.
    - reflexivity. }
  { reflexivity. }
  { reflexivity. }
  { unfold valid_buffer, JSIZE_MAX. cbn. lia. }
  { reflexivity. }
  exists x, s'. split_conj; [exact R | exact P | | exact Hp].
  rewrite O. apply lookup_insert_eq.
Defined.

(** X7. A get function dereferences the context without testing it: when
    libselinux leaves [errno] at 0 and stores no context, the function runs
    [strlen] on a null pointer. By then the inputs have been freed. *)
Theorem get_without_a_context_is_undefined (env : Env) (c : Call)
    (s s1 : State) (args : list CArg) (bufs : list positive) (N : nat)
    (r : NativeResp) (extra : nat) :
  is_get c = true ->
  valid_call c ->
  marshal env c s = Ret (args, bufs) s1 ->
  answers_after env c s N r ->
  final_errno r = 0 ->
  out r = None ->
  exists s',
    run env (S N + extra) c s = Crash s' /\
    heap s' = heap s /\ pending s' = pending s /\ objs s' = objs s /\
    last (trace s') = Some (EvErrnoRead ResultTest).
Proof.
  intros G V H1 A E Ho.
  destruct (run_answers env c s s1 args bufs N r extra V H1 A)
    as (s3 & R & E3 & N3 & P3 & O3 & _ & Hp3).
  rewrite R, E. cbn [Z.eqb negb]. unfold context_of in *.
  rewrite G, Ho in *. unfold deliver. rewrite G.
  unfold newBytesFromString, strlen, load_string, undefined. unfold bind.
  eexists. split; [reflexivity|]. cache_simpl.
  split_conj; try congruence. apply last_snoc.
Qed.

(** [lgetfilecon] on a libselinux that reports success and stores
    nothing. *)
Lemma get_without_a_context_is_undefined_witness :
  exists s',
    run (sample_env (fun _ => success)) 1 (Lgetfilecon [x2f; x61]) fresh_state
    = Crash s' /\
    heap s' = ∅.
Proof.
  edestruct (get_without_a_context_is_undefined
               (sample_env (fun _ => success))
               (Lgetfilecon [x2f; x61]) fresh_state)
    with (N := 0%nat) (r := success) (extra := 0%nat)
    as (s' & R & Hp & _).
  { reflexivity. }
  { unfold valid_call, valid_buffer, JSIZE_MAX. cbn. lia. }
  { vm_compute. reflexivity. }
  { split; [|split].
    - intros i Hi. lia.
    - reflexivity.
    - reflexivity. }
  { reflexivity. }
  { reflexivity. }
  exists s'. split; [exact R | exact Hp].
Defined.

(** X8. A get function that raises does not hand the context back: when
    libselinux stores a context and leaves [errno] nonzero (the function
    looks at [errno], not at the return value), the function raises, and
    the block of the context stays allocated: the heap is what it was, plus
    that block. The set functions, and a get function without a context,
    leave the heap as it was when they raise. *)
Theorem raising_get_keeps_the_stored_context (env : Env) (c : Call)
    (s s1 : State) (args : list CArg) (bufs : list positive) (N : nat)
    (r : NativeResp) (extra : nat) (cls c3 c2 : positive) :
  valid_call c ->
  marshal env c s = Ret (args, bufs) s1 ->
  answers_after env c s N r ->
  final_errno r <> 0 ->
  errno_symbols env (statics s) = Some (cls, c3, c2) ->
  exists s',
    run env (S N + extra) c s = Ret (failure_value c) s' /\
    (is_get c = false \/ out r = None -> heap s' = heap s) /\
    (forall bs, is_get c = true -> out r = Some bs ->
       exists p, heap s !! p = None /\
                 heap s' = <[p := bs ++ [x00]]> (heap s)).
Proof.
  intros V H1 A E Y.
  destruct (raise_answers env c s s1 args bufs N r extra cls c3 c2 V H1 A E Y)
    as (x & s' & R & _ & _ & _ & _ & _ & Hp).
  exists s'. split; [exact R|]. unfold context_of in Hp. split.
  - intros [G|Ho].
    + rewrite G in Hp. exact Hp.
    + rewrite Ho in Hp. destruct (is_get c); exact Hp.
  - intros bs G Ho. rewrite G, Ho in Hp.
    destruct Hp as (bs' & Eb & Np & Hh). inversion Eb; subst bs'.
    eexists. split; eassumption.
Qed.

(** [getfilecon] on a libselinux that stores the context and leaves
    [ERANGE] (34) in [errno]. *)
Lemma raising_get_keeps_the_stored_context_witness :
  exists (p : positive) (s' : State),
    run (sample_env (fun _ => mkResp 2 (Some 34) (Some [x75])))
        1 (Getfilecon [x2f; x61]) fresh_state = Ret (JBytes None) s' /\
    heap s' !! p = Some [x75; x00].
Proof.
  edestruct (raising_get_keeps_the_stored_context
               (sample_env (fun _ => mkResp 2 (Some 34) (Some [x75])))
               (Getfilecon [x2f; x61]) fresh_state)
    with (N := 0%nat) (r := mkResp 2 (Some 34) (Some [x75])) (extra := 0%nat)
         (cls := 11%positive) (c3 := 33%positive) (c2 := 32%positive)
    as (s' & R & _ & L).
  { unfold valid_call, valid_buffer, JSIZE_MAX. cbn. lia. }
  { vm_compute. reflexivity. }
  { split; [|split].
    - intros i Hi. lia.
    - reflexivity.
    - cbn. discriminate. }
  { cbn. discriminate. }
  { reflexivity. }
  destruct (L [x75] eq_refl eq_refl) as (p & _ & Hp).
  exists p, s'. split; [exact R|]. rewrite Hp. apply lookup_insert_eq.
Defined.

(** ** The native heap of the set functions *)

#[local] Instance same_heap_preorder : PreOrder same_heap.
Proof.
  unfold same_heap. split; [intros s; reflexivity|].
  intros s1 s2 s3 H1 H2. congruence.
Qed.

Ltac same_heap_leaf := unfold same_heap; cache_simpl; reflexivity.

Lemma call_native_same_heap (env : Env) (name : string) (args : list CArg) :
  run_rel same_heap (call_native env name args).
Proof.
  unfold call_native, emit.
  apply run_rel_bind; [typeclasses eauto | | intros ?].
  - intros s s' H. apply read_args_same in H. subst. reflexivity.
  - run_rel_structure; same_heap_leaf.
Qed.

Lemma native_phase_same_heap (env : Env) (fuel : nat) (c : Call)
    (args : list CArg) :
  is_get c = false -> run_rel same_heap (native_phase env fuel c args).
Proof.
  intros G. unfold native_phase. rewrite G.
  apply run_rel_bind; [typeclasses eauto | | intros [v u]].
  - unfold TEMP_FAILURE_RETRY, write_errno, emit.
    apply run_rel_bind; [typeclasses eauto | | intros _].
    + run_rel_structure; same_heap_leaf.
    + apply retry_loop_rel; [typeclasses eauto | |].
      * intros _. apply run_rel_bind; [typeclasses eauto | | intros r].
        -- apply call_native_same_heap.
        -- apply run_rel_ret; typeclasses eauto.
      * unfold read_errno, emit. run_rel_structure; same_heap_leaf.
  - apply run_rel_ret; typeclasses eauto.
Qed.

Lemma throwErrnoException_same_heap (env : Env) (fn : string) :
  run_rel same_heap (throwErrnoException env fn).
Proof.
  unfold throwErrnoException, throwException, getConstructor3, getConstructor2,
    getErrnoExceptionClass, findClass, findMethod, read_errno,
    ExceptionCheck, ExceptionOccurred, ExceptionClear, NewStringUTF, NewObject,
    Throw, raise_OutOfMemoryError, new_object, emit.
  run_rel_structure; same_heap_leaf.
Qed.

(** X9. The set functions do not leak and free nothing that is not theirs:
    whatever libselinux answers and however often it is interrupted,
    whenever a set function returns (normally or with an exception) the
    native heap is exactly what it was on entry. *)
Theorem set_functions_return_the_heap_as_found (env : Env) (fuel : nat)
    (c : Call) (s s' : State) (v : JValue) :
  is_get c = false ->
  valid_call c ->
  run env fuel c s = Ret v s' ->
  heap s' = heap s.
Proof.
  intros G V H.
  destruct (marshal env c s) as [[args bufs] s1|sa|sa|] eqn:H1;
    try (rewrite run_protocol in H; unfold protocol, bind in H;
         rewrite H1 in H; discriminate H).
  destruct (native_phase env fuel c args s1) as [[w ctx] s2|sa|sa|] eqn:H2;
    try (rewrite run_protocol in H; unfold protocol, bind in H;
         rewrite H1, H2 in H; discriminate H).
  pose proof (run_rel_ret_state _ _ _ _ _ (native_phase_same_heap env fuel c args G) H2)
    as Hp2. unfold same_heap in Hp2.
  destruct (marshal_blocks env c s s1 args bufs V H1) as [_ Hm].
  destruct (marshal_ret _ _ _ _ _ _ H1)
    as (_ & _ & _ & _ & _ & _ & ND & Lv & _).
  destruct (release_run bufs s2) as (s3 & R & _ & _ & _ & _ & _ & _ & L3 & _).
  { exact ND. }
  { intros p I. rewrite Hp2. apply (Lv p I). }
  pose proof (release_heap bufs s2 s3 R) as K3.
  assert (Hp3 : heap s3 = heap s).
  { apply map_eq. intros q. destruct (In_dec Pos.eq_dec q bufs) as [I|I].
    - rewrite (L3 q I). symmetry. apply (Lv q I).
    - rewrite (K3 q I), Hp2. apply Hm, I. }
  rewrite (run_after_release _ _ _ _ _ _ _ _ _ _ _ H1 H2 R) in H.
  destruct (negb (errno s3 =? 0)).
  - unfold raise in H. unfold bind in H.
    destruct (throwErrnoException env (native_name c) _) as [u sb|sb|sb|] eqn:T;
      try discriminate H.
    inversion H; subst.
    apply (run_rel_ret_state _ _ _ _ _ (throwErrnoException_same_heap env _)) in T.
    unfold same_heap in T. cache_simpl. congruence.
  - unfold deliver in H. rewrite G in H. inversion H; subst.
    cache_simpl. exact Hp3.
Qed.

(** [fsetfilecon] on a libselinux that is interrupted, succeeds without
    touching [errno] (so that the call is made again) and then fails. *)
Lemma set_functions_return_the_heap_as_found_witness :
  exists s',
    run (sample_env interrupted_then_ok_then_failing) 3
        (Fsetfilecon (mkFd 4) [x75; x3a]) fresh_state = Ret JVoid s' /\
    ncalls s' = 3%nat /\ heap s' = ∅.
Proof.
  eexists. split; [vm_compute; reflexivity|]. split; [reflexivity|].
  exact (set_functions_return_the_heap_as_found
           (sample_env interrupted_then_ok_then_failing) 3
           (Fsetfilecon (mkFd 4) [x75; x3a]) fresh_state _ JVoid eq_refl
           ltac:(unfold valid_call, valid_buffer, JSIZE_MAX; cbn; lia)
           ltac:(vm_compute; reflexivity)).
Defined.

(** ** The symbol cache only grows *)

#[local] Instance cache_grows_preorder : PreOrder cache_grows.
Proof.
  unfold cache_grows. split; [intros s sym h H; exact H|].
  intros s1 s2 s3 H1 H2 sym h H. apply H2, H1, H.
Qed.

Lemma resolve_cache_grows (env : Env) (sym : Symbol) :
  run_rel cache_grows (resolve env sym).
Proof.
  intros s s' H sym' h Hc.
  destruct s as [e p o hp [c1 c2 c3 c4 c5] n tr].
  destruct sym, sym'; unfold_cache; simpl in *;
    repeat (break_match; simpl in *; try congruence; subst);
    repeat invert_outcome; simpl in *; congruence.
Qed.

Lemma same_statics_cache_grows (s s' : State) :
  statics s' = statics s -> cache_grows s s'.
Proof. intros H sym h Hc. rewrite H. exact Hc. Qed.

Ltac cache_grows_leaf := apply same_statics_cache_grows; cache_simpl; reflexivity.

Lemma throwException_cache_grows (env : Env) (cls c3 c2 : positive) (fn : string)
    (err : Z) :
  run_rel cache_grows (throwException env cls c3 c2 fn err).
Proof.
  unfold throwException, ExceptionCheck, ExceptionOccurred, ExceptionClear,
    NewStringUTF, NewObject, Throw, raise_OutOfMemoryError, new_object, emit.
  run_rel_structure; cache_grows_leaf.
Qed.

Lemma throwErrnoException_cache_grows (env : Env) (fn : string) :
  run_rel cache_grows (throwErrnoException env fn).
Proof.
  unfold throwErrnoException.
  apply run_rel_bind; [typeclasses eauto | | intros error].
  { unfold read_errno, emit. run_rel_structure; cache_grows_leaf. }
  apply run_rel_bind; [typeclasses eauto | | intros c3].
  { apply (resolve_cache_grows env SymConstructor3). }
  apply run_rel_bind; [typeclasses eauto | | intros c2].
  { apply (resolve_cache_grows env SymConstructor2). }
  apply run_rel_bind; [typeclasses eauto | | intros cls].
  { apply (resolve_cache_grows env SymErrnoExceptionClass). }
  apply throwException_cache_grows.
Qed.

Lemma mallocStringFromBytes_cache_grows (env : Env) (B : list byte) :
  run_rel cache_grows (mallocStringFromBytes env B).
Proof.
  unfold mallocStringFromBytes, GetByteArrayElements, GetArrayLength, malloc,
    alloc_block, memcpy, ReleaseByteArrayElements, store_byte, emit.
  run_rel_structure; cache_grows_leaf.
Qed.

Lemma marshal_cache_grows (env : Env) (c : Call) :
  run_rel cache_grows (marshal env c).
Proof.
  pose proof (resolve_cache_grows env SymDescriptorField) as F.
  pose proof (mallocStringFromBytes_cache_grows env) as A.
  destruct c; unfold marshal, GetIntField, emit;
    run_rel_structure; try exact F; try exact (A _); cache_grows_leaf.
Qed.

Lemma native_phase_cache_grows (env : Env) (fuel : nat) (c : Call)
    (args : list CArg) :
  run_rel cache_grows (native_phase env fuel c args).
Proof.
  eapply run_rel_weaken; [|apply native_phase_frame].
  intros s s' (_ & _ & S & _). apply same_statics_cache_grows, S.
Qed.

Lemma release_cache_grows (bufs : list positive) :
  run_rel cache_grows (release bufs).
Proof.
  induction bufs as [|p bufs IH]; cbn [release].
  - apply run_rel_ret; typeclasses eauto.
  - apply run_rel_bind; [typeclasses eauto | | intros _; exact IH].
    unfold free, emit. run_rel_structure; cache_grows_leaf.
Qed.

Lemma conclude_cache_grows (env : Env) (c : Call) (ctx : option positive) :
  run_rel cache_grows (conclude env c ctx).
Proof.
  unfold conclude.
  apply run_rel_bind; [typeclasses eauto | | intros e].
  { unfold read_errno, emit. run_rel_structure; cache_grows_leaf. }
  destruct (negb (e =? 0)).
  - unfold raise. apply run_rel_bind; [typeclasses eauto | | intros _].
    + apply throwErrnoException_cache_grows.
    + apply run_rel_ret; typeclasses eauto.
  - eapply run_rel_weaken; [|apply deliver_deliver].
    intros s s' (_ & S & _). apply same_statics_cache_grows, S.
Qed.

Lemma getenforce_cache_grows (env : Env) (fuel : nat) :
  run_rel cache_grows
    (Java_me_zhanghai_android_libselinux_SeLinux_security_1getenforce env fuel).
Proof.
  unfold Java_me_zhanghai_android_libselinux_SeLinux_security_1getenforce.
  apply run_rel_bind; [typeclasses eauto | | intros [enforce u]].
  { eapply run_rel_weaken; [|apply (getenforce_phase_frame env fuel)].
    intros s s' (_ & _ & S & _). apply same_statics_cache_grows, S. }
  apply run_rel_bind; [typeclasses eauto | | intros unset].
  { unfold read_errno, emit. run_rel_structure; cache_grows_leaf. }
  apply run_rel_bind; [typeclasses eauto | | intros _].
  { unfold write_errno, emit. run_rel_structure; cache_grows_leaf. }
  apply run_rel_bind; [typeclasses eauto | | intros e].
  { unfold read_errno, emit. run_rel_structure; cache_grows_leaf. }
  apply run_rel_bind; [typeclasses eauto | | intros _].
  { destruct (negb (e =? 0)).
    - apply throwErrnoException_cache_grows.
    - apply run_rel_ret; typeclasses eauto. }
  apply run_rel_ret; typeclasses eauto.
Qed.

(** X10. A symbol that is cached stays cached, with the same handle, through
    every exported function that resolves symbols, however the function
    ends (return, exception, [abort], undefined behaviour): the [static]
    variables are written only while they are null. *)
Theorem cached_symbols_are_never_replaced (env : Env) (fuel : nat)
    (s s' : State) (sym : Symbol) (h : positive) :
  cached sym (statics s) = Some h ->
  (forall c, final_state (run env fuel c s) = Some s' ->
             cached sym (statics s') = Some h) /\
  (final_state
     (Java_me_zhanghai_android_libselinux_SeLinux_security_1getenforce env fuel s)
   = Some s' ->
   cached sym (statics s') = Some h).
Proof.
  intros Hc. split.
  - intros c H. rewrite run_protocol in H.
    assert (G : run_rel cache_grows (protocol env fuel c)).
    { unfold protocol.
      apply run_rel_bind; [typeclasses eauto | | intros [args bufs]].
      { apply marshal_cache_grows. }
      apply run_rel_bind; [typeclasses eauto | | intros [v ctx]].
      { apply native_phase_cache_grows. }
      apply run_rel_bind; [typeclasses eauto | | intros _].
      { apply release_cache_grows. }
      apply conclude_cache_grows. }
    exact (G s s' H sym h Hc).
  - intros H. exact (getenforce_cache_grows env fuel s s' H sym h Hc).
Qed.

(** A cached handle for [ErrnoException] that the runtime would not give
    today survives a raise. *)
Lemma cached_symbols_are_never_replaced_witness :
  exists s',
    final_state
      (run (sample_env (fun _ => failure 13)) 1 (Getfilecon [x2f])
           (mkState 0 None ∅ ∅ (mkStatics (Some 99%positive) None None None None)
                    0 [])) = Some s' /\
    cached SymErrnoExceptionClass (statics s') = Some 99%positive.
Proof.
  eexists. split; [vm_compute; reflexivity|].
  apply (proj1 (cached_symbols_are_never_replaced
                  (sample_env (fun _ => failure 13)) 1
                  (mkState 0 None ∅ ∅
                           (mkStatics (Some 99%positive) None None None None) 0 [])
                  _ SymErrnoExceptionClass 99 eq_refl)
               (Getfilecon [x2f])).
  vm_compute. reflexivity.
Defined.

(** ** When the runtime does not know [ErrnoException] *)

Lemma resolve_fails (env : Env) (sym : Symbol) (s : State) :
  symbol_value env (statics s) sym = None ->
  exists s',
    resolve env sym s = Abort s' /\
    errno s' = errno s /\ pending s' = pending s /\ objs s' = objs s /\
    heap s' = heap s /\ ncalls s' = ncalls s /\
    last (trace s') = Some EvAbort.
Proof.
  destruct s as [e p o hp [c1 c2 c3 c4 c5] n tr].
  unfold symbol_value. intros H.
  destruct sym; unfold_cache; simpl in *;
    repeat (break_match; simpl in *; try congruence; subst);
    repeat invert_outcome; cache_simpl;
    eexists; (split; [reflexivity|]); cache_simpl; split_conj; try reflexivity;
    rewrite ?app_assoc; apply last_snoc.
Qed.

(** [throwErrnoException] when one of its three symbols does not resolve:
    the process aborts before any exception is built. *)
Lemma throwErrnoException_aborts (env : Env) (fn : string) (s : State) :
  errno_symbols env (statics s) = None ->
  exists s',
    throwErrnoException env fn s = Abort s' /\
    errno s' = errno s /\ pending s' = pending s /\ objs s' = objs s /\
    heap s' = heap s /\ ncalls s' = ncalls s /\
    last (trace s') = Some EvAbort.
Proof.
  intros Y. unfold throwErrnoException, read_errno, emit.
  unfold bind at 1 2 3. unfold modify, get. cbv beta iota.
  set (s0 := log (EvErrnoRead ThrowCapture) s).
  assert (Y0 : errno_symbols env (statics s0) = None) by exact Y.
  assert (B0 : errno s0 = errno s /\ pending s0 = pending s /\ objs s0 = objs s /\
               heap s0 = heap s /\ ncalls s0 = ncalls s)
    by (subst s0; cache_simpl; auto).
  clearbody s0. clear Y. destruct B0 as (E0 & P0 & O0 & H0 & N0).
  unfold errno_symbols in Y0.
  destruct (symbol_value env (statics s0) SymConstructor3) as [c3|] eqn:V3.
  2:{ destruct (resolve_fails env SymConstructor3 s0 V3)
        as (s' & R & E & P & O & H & N & L).
      cbn [resolve] in R. unfold bind. rewrite R.
      exists s'. split_conj; congruence. }
  destruct (resolve_value env SymConstructor3 s0 c3 V3) as (sa & Ra & Fa).
  cbn [resolve] in Ra. unfold bind at 1. rewrite Ra.
  destruct Fa as (Ea & Pa & Oa & Ha & Na & _ & Sa).
  destruct (symbol_value env (statics s0) SymConstructor2) as [c2|] eqn:V2.
  2:{ rewrite <- Sa in V2.
      destruct (resolve_fails env SymConstructor2 sa V2)
        as (s' & R & E & P & O & H & N & L).
      cbn [resolve] in R. unfold bind. rewrite R.
      exists s'. split_conj; congruence. }
  rewrite <- Sa in V2.
  destruct (resolve_value env SymConstructor2 sa c2 V2) as (sb & Rb & Fb).
  cbn [resolve] in Rb. unfold bind at 1. rewrite Rb.
  destruct Fb as (Eb & Pb & Ob & Hb & Nb & _ & Sb).
  destruct (symbol_value env (statics s0) SymErrnoExceptionClass) as [cls|] eqn:V1;
    [discriminate Y0|].
  rewrite <- Sa, <- Sb in V1.
  destruct (resolve_fails env SymErrnoExceptionClass sb V1)
    as (s' & R & E & P & O & H & N & L).
  cbn [resolve] in R. unfold bind. rewrite R.
  exists s'. split_conj; congruence.
Qed.

(** X11. A failure that cannot be reported ends the process: when [errno] is
    nonzero after the native call and the runtime does not know
    [ErrnoException] or one of its two constructors, the function calls
    [abort]. No exception is built, what was pending stays pending, and the
    inputs have been freed by then. The same holds for
    [security_getenforce]. *)
Theorem failure_without_ErrnoException_aborts (env : Env) (fuel : nat) :
  (forall (c : Call) (s s1 s2 : State) (args : list CArg) (bufs : list positive)
          (v : Z) (ctx : option positive),
     marshal env c s = Ret (args, bufs) s1 ->
     native_phase env fuel c args s1 = Ret (v, ctx) s2 ->
     errno s2 <> 0 ->
     errno_symbols env (statics s) = None ->
     exists s',
       run env fuel c s = Abort s' /\
       pending s' = pending s /\ objs s' = objs s /\
       (forall p, In p bufs -> heap s' !! p = None) /\
       last (trace s') = Some EvAbort) /\
  (forall (s s1 : State) (v : Z),
     getenforce_phase env fuel s = Ret (v, tt) s1 ->
     errno s1 <> 0 \/ v = -1 ->
     errno_symbols env (statics s) = None ->
     exists s',
       Java_me_zhanghai_android_libselinux_SeLinux_security_1getenforce env fuel s
         = Abort s' /\
       pending s' = pending s /\ objs s' = objs s /\
       last (trace s') = Some EvAbort).
Proof.
  split.
  - intros c s s1 s2 args bufs v ctx H1 H2 E Y.
    destruct (after_native _ _ _ _ _ _ _ _ _ _ H1 H2)
      as (s3 & R & F1 & F2 & E3 & P3 & O3 & S3 & N3 & H3 & L3 & T3).
    destruct F1 as (E1 & P1 & O1 & N1 & Y1 & _).
    destruct F2 as (P2 & O2 & S2 & _).
    rewrite R. destruct (Z.eqb_spec (errno s2) 0) as [|_]; [contradiction|].
    cbn [negb]. unfold raise.
    set (s4 := log (EvErrnoRead ResultTest) s3).
    assert (Y4 : errno_symbols env (statics s4) = None).
    { subst s4. cache_simpl. rewrite S3, S2.
      rewrite (errno_symbols_same env _ _ Y1). exact Y. }
    destruct (throwErrnoException_aborts env (native_name c) s4 Y4)
      as (s' & RT & Es & Ps & Os & Hs & Ns & Ls).
    unfold bind. rewrite RT. subst s4. cache_simpl.
    exists s'. split; [reflexivity|]. split_conj; try congruence.
    intros p I. rewrite Hs. apply L3, I.
  - intros s s1 v H C Y.
    pose proof (run_rel_ret_state _ _ _ _ _ (getenforce_phase_frame env fuel) H)
      as (P1 & O1 & S1 & _ & _).
    rewrite (getenforce_after _ _ _ _ _ H).
    unfold bind, read_errno, write_errno, emit, bind, modify, get, ret.
    assert (T : forall s4 : State,
               pending s4 = pending s -> objs s4 = objs s ->
               statics s4 = statics s ->
               exists s',
                 match throwErrnoException env "security_getenforce" s4 with
                 | Ret _ s'0 => Ret (negb (v =? 0)) s'0
                 | Abort s'0 => Abort s'0
                 | Crash s'0 => Crash s'0
                 | OutOfFuel => OutOfFuel
                 end = Abort s' /\
                 pending s' = pending s /\ objs s' = objs s /\
                 last (trace s') = Some EvAbort).
    { intros s4 P4 O4 S4.
      destruct (throwErrnoException_aborts env "security_getenforce" s4)
        as (s' & RT & _ & Ps & Os & _ & _ & Ls).
      { rewrite S4. exact Y. }
      rewrite RT. exists s'. split_conj; congruence. }
    destruct (Z.eqb_spec v (-1)) as [->|Nv]; cbv beta iota; cache_simpl;
      destruct (Z.eqb_spec (errno s1) 0) as [Z0|Nz]; cbv beta iota; cache_simpl;
      cbn [EIO Z.eqb negb]; cbv beta iota.
    + apply T; cache_simpl; auto.
    + destruct (Z.eqb_spec (errno s1) 0) as [|_]; [contradiction|].
      cbn [negb]. apply T; cache_simpl; auto.
    + destruct C; contradiction.
    + destruct (Z.eqb_spec (errno s1) 0) as [|_]; [contradiction|].
      cbn [negb]. apply T; cache_simpl; auto.
Qed.

(** [setfilecon] refused with error 13 in a runtime that knows no class. *)
Lemma failure_without_ErrnoException_aborts_witness :
  exists s',
    run broken_env 1 (Setfilecon [x2f; x61] [x75]) fresh_state = Abort s' /\
    pending s' = None /\ heap s' = ∅ /\ last (trace s') = Some EvAbort.
Proof.
  destruct (failure_without_ErrnoException_aborts broken_env 1) as [H _].
  edestruct (H (Setfilecon [x2f; x61] [x75]) fresh_state)
    as (s' & R & P & _ & _ & L).
  { vm_compute. reflexivity. }
  { vm_compute. reflexivity. }
  { vm_compute. discriminate. }
  { reflexivity. }
  exists s'. split_conj; [exact R | exact P | | exact L].
  vm_compute in R. inversion R. reflexivity.
Defined.

(** ** [errno] on entry *)

Lemma blind_ret {A} (a : A) : errno_blind (ret a).
Proof. intros e s. reflexivity. Qed.

Lemma blind_get {A} (f : State -> A) :
  (forall e s, f (set_errno e s) = f s) -> errno_blind (get f).
Proof. intros H e s. unfold get. rewrite H. reflexivity. Qed.

Lemma blind_modify (g : State -> State) :
  (forall e s, g (set_errno e s) = set_errno e (g s)) -> errno_blind (modify g).
Proof. intros H e s. unfold modify. rewrite H. reflexivity. Qed.

Lemma blind_abort {A} : errno_blind (@abort A).
Proof. intros e s. reflexivity. Qed.

Lemma blind_undefined {A} : errno_blind (@undefined A).
Proof. intros e s. reflexivity. Qed.

Lemma blind_bind {A B} (m : M A) (k : A -> M B) :
  errno_blind m -> (forall a, errno_blind (k a)) -> errno_blind (bind m k).
Proof.
  intros Hm Hk e s. unfold bind. rewrite Hm.
  destruct (m s) as [a sa|sa|sa|]; cbn [on_state]; try reflexivity.
  apply Hk.
Qed.

Ltac blind_structure :=
  repeat first
    [ progress cbv zeta
    | match goal with
      | |- errno_blind (ret _) => apply blind_ret
      | |- errno_blind (get _) => apply blind_get; intros ? ?; reflexivity
      | |- errno_blind (modify _) => apply blind_modify; intros ? ?; reflexivity
      | |- errno_blind abort => apply blind_abort
      | |- errno_blind undefined => apply blind_undefined
      | |- errno_blind (bind _ _) => apply blind_bind; [|intros ?]
      | |- errno_blind (match ?x with _ => _ end) => destruct x
      end ].

(** Marshalling neither reads nor writes [errno]. *)
Lemma marshal_blind (env : Env) (c : Call) : errno_blind (marshal env c).
Proof.
  destruct c;
    unfold marshal, getFileDescriptorDescriptorField, getFileDescriptorClass,
      findClass, findField, GetIntField, mallocStringFromBytes,
      GetByteArrayElements, GetArrayLength, malloc, alloc_block, memcpy,
      ReleaseByteArrayElements, store_byte, emit;
    blind_structure.
Qed.

(** The macro starts by clearing [errno]. *)
Lemma TEMP_FAILURE_RETRY_entry {L} (fuel : nat) (exp : L -> M (Z * L)) (l : L)
    (e : Z) (s : State) :
  TEMP_FAILURE_RETRY fuel exp l (set_errno e s) = TEMP_FAILURE_RETRY fuel exp l s.
Proof. reflexivity. Qed.

Lemma native_phase_entry (env : Env) (fuel : nat) (c : Call) (args : list CArg)
    (e : Z) (s : State) :
  native_phase env fuel c args (set_errno e s) = native_phase env fuel c args s.
Proof.
  unfold native_phase. destruct (is_get c).
  - apply TEMP_FAILURE_RETRY_entry.
  - unfold bind. rewrite TEMP_FAILURE_RETRY_entry. reflexivity.
Qed.

Lemma protocol_after_marshal (env : Env) (fuel : nat) (c : Call) (s s1 : State)
    (args : list CArg) (bufs : list positive) :
  marshal env c s = Ret (args, bufs) s1 ->
  protocol env fuel c s =
  (let* (_, context) := native_phase env fuel c args in
   release bufs >> conclude env c context) s1.
Proof. intros H. unfold protocol. unfold bind at 1. rewrite H. reflexivity. Qed.

(** X12. The value of [errno] on entry plays no part: every function that
    calls libselinux under the retry macro does the same, and ends in the
    same state, whatever [errno] held when it was called. (For the six
    functions on file contexts: once the inputs are marshalled, which does
    not involve [errno].) *)
Theorem errno_on_entry_plays_no_part (env : Env) (fuel : nat) (e : Z) :
  (forall (c : Call) (s s1 : State) (x : list CArg * list positive),
     marshal env c s = Ret x s1 ->
     run env fuel c (set_errno e s) = run env fuel c s) /\
  (forall s : State,
     Java_me_zhanghai_android_libselinux_SeLinux_security_1getenforce env fuel
       (set_errno e s)
     = Java_me_zhanghai_android_libselinux_SeLinux_security_1getenforce env fuel s).
Proof.
  split.
  - intros c s s1 [args bufs] H1. rewrite !run_protocol.
    assert (H1' : marshal env c (set_errno e s) = Ret (args, bufs) (set_errno e s1))
      by (rewrite (marshal_blind env c e s), H1; reflexivity).
    rewrite (protocol_after_marshal env fuel c _ _ _ _ H1).
    rewrite (protocol_after_marshal env fuel c _ _ _ _ H1').
    unfold bind at 1 3. rewrite native_phase_entry. reflexivity.
  - intros s.
    unfold Java_me_zhanghai_android_libselinux_SeLinux_security_1getenforce.
    unfold bind at 1 8. rewrite TEMP_FAILURE_RETRY_entry. reflexivity.
Qed.

(** [fsetfilecon] entered with [EINTR] (4) in [errno]. *)
Lemma errno_on_entry_plays_no_part_witness :
  run (sample_env (fun _ => success)) 1 (Fsetfilecon (mkFd 3) [x75])
      (set_errno 4 fresh_state)
  = run (sample_env (fun _ => success)) 1 (Fsetfilecon (mkFd 3) [x75]) fresh_state.
Proof.
  eapply (proj1 (errno_on_entry_plays_no_part (sample_env (fun _ => success)) 1 4)).
  vm_compute. reflexivity.
Defined.

(** ** The budget of the retry loop *)






(** ** Raising with a warm cache *)

Lemma resolve_cached (env : Env) (sym : Symbol) (s : State) (h : positive) :
  cached sym (statics s) = Some h -> resolve env sym s = Ret h s.
Proof.
  destruct sym; cbn [cached resolve]; intros H;
    unfold getErrnoExceptionClass, getFileDescriptorClass,
      getFileDescriptorDescriptorField, getConstructor3, getConstructor2;
    unfold bind at 1; unfold get; rewrite H; reflexivity.
Qed.

Lemma resolve_caches (env : Env) (sym : Symbol) (s s' : State) (h : positive) :
  resolve env sym s = Ret h s' -> cached sym (statics s') = Some h.
Proof.
  destruct s as [e p o hp [c1 c2 c3 c4 c5] n tr]. intros H.
  destruct sym; unfold_cache; simpl in *;
    repeat (break_match; simpl in *; try congruence; subst);
    repeat invert_outcome; simpl in *; congruence.
Qed.

Lemma throwException_no_lookup (env : Env) (cls c3 c2 : positive) (fn : string)
    (err : Z) :
  run_rel (extends (fun e => negb (is_lookup e)))
          (throwException env cls c3 c2 fn err).
Proof.
  unfold throwException, ExceptionCheck, ExceptionOccurred, ExceptionClear,
    NewStringUTF, NewObject, Throw, raise_OutOfMemoryError, new_object, emit.
  run_rel_structure; cache_simpl;
    first [ apply extends_log; reflexivity | apply extends_same; reflexivity ].
Qed.

(** Once [throwErrnoException] has returned, its three symbols are cached. *)
Lemma throwErrnoException_warms (env : Env) (fn : string) (s s' : State) :
  throwErrnoException env fn s = Ret tt s' ->
  exists cls c3 c2,
    cached SymErrnoExceptionClass (statics s') = Some cls /\
    cached SymConstructor3 (statics s') = Some c3 /\
    cached SymConstructor2 (statics s') = Some c2.
Proof.
  intros H. unfold throwErrnoException, read_errno, emit in H.
  unfold bind, modify, get in H. cbv beta iota in H.
  set (s0 := log (EvErrnoRead ThrowCapture) s) in H. clearbody s0.
  destruct (getConstructor3 env s0) as [c3 sa|sa|sa|] eqn:Ra; try discriminate H.
  cbv beta iota in H.
  destruct (getConstructor2 env sa) as [c2 sb|sb|sb|] eqn:Rb; try discriminate H.
  cbv beta iota in H.
  destruct (getErrnoExceptionClass env sb) as [cls sc|sc|sc|] eqn:Rc;
    try discriminate H.
  cbv beta iota in H.
  pose proof (resolve_caches env SymConstructor3 _ _ _ Ra) as K3.
  pose proof (resolve_caches env SymConstructor2 _ _ _ Rb) as K2.
  pose proof (resolve_caches env SymErrnoExceptionClass _ _ _ Rc) as K1.
  assert (Gb : cache_grows sa sb).
  { apply (resolve_cache_grows env SymConstructor2). cbn [resolve].
    rewrite Rb. reflexivity. }
  assert (Gc : cache_grows sb sc).
  { apply (resolve_cache_grows env SymErrnoExceptionClass). cbn [resolve].
    rewrite Rc. reflexivity. }
  assert (Gx : cache_grows sc s').
  { eapply (throwException_cache_grows env cls c3 c2 fn _ sc).
    rewrite H. reflexivity. }
  exists cls, c3, c2. split_conj.
  - apply Gx, K1.
  - apply Gx, Gc, Gb, K3.
  - apply Gx, Gc, K2.
Qed.

(** And with its three symbols cached it asks the runtime for none, and
    returns. *)
Lemma throwErrnoException_warm (env : Env) (fn : string) (t : State)
    (cls c3 c2 : positive) :
  cached SymErrnoExceptionClass (statics t) = Some cls ->
  cached SymConstructor3 (statics t) = Some c3 ->
  cached SymConstructor2 (statics t) = Some c2 ->
  exists t' evs,
    throwErrnoException env fn t = Ret tt t' /\
    trace t' = trace t ++ evs /\
    existsb is_lookup evs = false.
Proof.
  intros K1 K3 K2.
  unfold throwErrnoException, read_errno, emit.
  unfold bind, modify, get. cbv beta iota.
  set (t0 := log (EvErrnoRead ThrowCapture) t).
  pose proof (resolve_cached env SymConstructor3 t0 c3 K3) as R3.
  pose proof (resolve_cached env SymConstructor2 t0 c2 K2) as R2.
  pose proof (resolve_cached env SymErrnoExceptionClass t0 cls K1) as R1.
  cbn [resolve] in R1, R2, R3.
  rewrite R3. cbv beta iota. rewrite R2. cbv beta iota. rewrite R1.
  cbv beta iota.
  destruct (throwException_run env cls c3 c2 fn (errno t) t0)
    as (x & t' & pre & RX & _).
  destruct (throwException_no_lookup env cls c3 c2 fn (errno t) t0 t')
    as (evs & T & C).
  { rewrite RX. reflexivity. }
  exists t', (EvErrnoRead ThrowCapture :: evs).
  split; [exact RX|]. split.
  - rewrite T. subst t0. cache_simpl. rewrite <- app_assoc. reflexivity.
  - cbn. apply (class_excludes (fun e => negb (is_lookup e))); [|exact C].
    intros e. destruct (is_lookup e); [discriminate | reflexivity].
Qed.

(** X14. The symbols of [ErrnoException] are resolved once per process: after
    one raise that returned, whatever the exported functions did since,
    every later raise returns too (it cannot [abort]) and does not ask the
    runtime for a class or a method. *)
Theorem a_second_raise_looks_nothing_up (env : Env) (fn fn' : string)
    (s s1 t : State) :
  throwErrnoException env fn s = Ret tt s1 ->
  cache_grows s1 t ->
  exists t' evs,
    throwErrnoException env fn' t = Ret tt t' /\
    trace t' = trace t ++ evs /\
    existsb is_lookup evs = false.
Proof.
  intros H G.
  destruct (throwErrnoException_warms env fn s s1 H) as (cls & c3 & c2 & K1 & K3 & K2).
  apply (throwErrnoException_warm env fn' t cls c3 c2); apply G; assumption.
Qed.

(** [getfilecon] raises, then [setfilecon] raises. *)
Lemma a_second_raise_looks_nothing_up_witness :
  exists s1 t' evs,
    throwErrnoException (sample_env (fun _ => failure 13)) "getfilecon" fresh_state
      = Ret tt s1 /\
    throwErrnoException (sample_env (fun _ => failure 13)) "setfilecon" s1
      = Ret tt t' /\
    trace t' = trace s1 ++ evs /\
    existsb is_lookup evs = false.
Proof.
  edestruct (a_second_raise_looks_nothing_up
               (sample_env (fun _ => failure 13)) "getfilecon" "setfilecon"
               fresh_state)
    as (t' & evs & R & T & C).
  { vm_compute. reflexivity. }
  { intros sym h H. exact H. }
  eexists _, t', evs. split; [vm_compute; reflexivity|].
  split_conj; [exact R | exact T | exact C].
Defined.

(** ** The descriptor field *)



(** ** No undefined behaviour in the set functions *)








(** ** The first raise of a process *)

Lemma filter_lookup_none (evs : list Event) :
  forallb (fun e => negb (is_lookup e)) evs = true ->
  List.filter is_lookup evs = [].
Proof.
  induction evs as [|e evs IH]; cbn [forallb List.filter]; [reflexivity|].
  intros H. apply andb_prop in H as [He H].
  destruct (is_lookup e); [discriminate He | apply IH, H].
Qed.

(** X17. The first raise of a process looks each symbol up once, although
    [getErrnoExceptionClass] is called three times: with none of the three
    symbols cached and a runtime that knows them, [throwErrnoException]
    asks the runtime for the class of [ErrnoException] once (one
    [FindClass], one [NewGlobalRef]) and then for the constructor with a
    cause and for the constructor without, in that order, and for nothing
    else. *)
Theorem first_raise_looks_each_symbol_up_once (env : Env) (fn : string)
    (s : State) (cls c3 c2 : positive) :
  cached SymErrnoExceptionClass (statics s) = None ->
  cached SymConstructor3 (statics s) = None ->
  cached SymConstructor2 (statics s) = None ->
  errno_symbols env (statics s) = Some (cls, c3, c2) ->
  exists (s' : State) (evs : list Event) (l : positive),
    throwErrnoException env fn s = Ret tt s' /\
    trace s' = trace s ++ evs /\
    List.filter is_lookup evs =
      [EvFindClass "android/system/ErrnoException"; EvNewGlobalRef l;
       EvGetMethodID cls "<init>" "(Ljava/lang/String;ILjava/lang/Throwable;)V";
       EvGetMethodID cls "<init>" "(Ljava/lang/String;I)V"] /\
    cached SymErrnoExceptionClass (statics s') = Some cls /\
    cached SymConstructor3 (statics s') = Some c3 /\
    cached SymConstructor2 (statics s') = Some c2.
Proof.
  destruct s as [e p o hp [k1 k2 k3 k4 k5] n tr]. cbn [cached statics
    errnoExceptionClass constructor3 constructor2].
  intros -> -> -> Y.
  unfold errno_symbols, symbol_value, cached_or, lookup, class_lookup in Y.
  cbn [cached statics errnoExceptionClass constructor3 constructor2] in Y.
  destruct (FindClass env "android/system/ErrnoException") as [l|] eqn:F;
    cbn in Y; [|discriminate Y].
  destruct (NewGlobalRef env l) as [g|] eqn:N; cbn in Y; [|discriminate Y].
  destruct (GetMethodID env g "<init>" "(Ljava/lang/String;ILjava/lang/Throwable;)V")
    as [m3|] eqn:M3; cbn in Y; [|discriminate Y].
  destruct (GetMethodID env g "<init>" "(Ljava/lang/String;I)V")
    as [m2|] eqn:M2; cbn in Y; [|discriminate Y].
  inversion Y; subst g m3 m2; clear Y.
  unfold throwErrnoException, read_errno, getConstructor3, getConstructor2,
    getErrnoExceptionClass, findClass, findMethod, emit.
  unfold bind, modify, get, ret. cbv beta iota. cache_simpl.
  rewrite F. cbv beta iota. cache_simpl. rewrite N. cbv beta iota. cache_simpl.
  rewrite M3. cbv beta iota. cache_simpl. rewrite M2. cbv beta iota. cache_simpl.
  match goal with
  | |- context [throwException env cls c3 c2 fn e ?st] => set (sc := st)
  end.
  destruct (throwException_run env cls c3 c2 fn e sc) as (x & s' & pre & RX & _).
  destruct (throwException_no_lookup env cls c3 c2 fn e sc s')
    as (evs & T & C).
  { rewrite RX. reflexivity. }
  pose proof (throwException_cache_grows env cls c3 c2 fn e sc s') as K.
  rewrite RX in K. specialize (K eq_refl).
  eexists s', _, l. split; [exact RX|]. split; [|split].
  - rewrite T. subst sc. cache_simpl. rewrite <- !app_assoc. cbn [app].
    reflexivity.
  - simpl. rewrite (filter_lookup_none evs C). reflexivity.
  - split_conj;
      [ apply (K SymErrnoExceptionClass) | apply (K SymConstructor3)
      | apply (K SymConstructor2) ]; reflexivity.
Qed.

(** The first raise in the sample runtime. *)
Lemma first_raise_looks_each_symbol_up_once_witness :
  exists (s' : State) (evs : list Event) (l : positive),
    throwErrnoException (sample_env (fun _ => failure 13)) "getfilecon" fresh_state
      = Ret tt s' /\
    trace s' = evs /\
    List.filter is_lookup evs =
      [EvFindClass "android/system/ErrnoException"; EvNewGlobalRef l;
       EvGetMethodID 11 "<init>" "(Ljava/lang/String;ILjava/lang/Throwable;)V";
       EvGetMethodID 11 "<init>" "(Ljava/lang/String;I)V"].
Proof.
  destruct (first_raise_looks_each_symbol_up_once
              (sample_env (fun _ => failure 13)) "getfilecon" fresh_state
              11 33 32 eq_refl eq_refl eq_refl eq_refl)
    as (s' & evs & l & R & T & L & _).
  exists s', evs, l. split; [exact R|]. split; [exact T | exact L].
Defined.

(** ** Undefined behaviour in the get functions *)





